(** * VideoEditorPro backend: the two service variants, embedded and checked

    The repository holds two Express services.

    - The job-based service (the file that declares [const jobs = new Map()],
      routes under [/api/...]): a request is accepted at once, the composition
      runs in the background and the caller polls a job table.
    - [src/server.js] (routes [/upload], [/process], [/download/:fileId]):
      the response to [/process] is written by the engine's [end] / [error]
      handlers, and there is no job table.

    Node runs one callback at a time, so every route handler, every engine
    event handler and every timer callback is one atomic step of a state
    machine; the states between two steps are the observation points.
    Promise reactions ([.then] / [.catch]) run as microtasks at the end of the
    step that settled the promise and are part of that step.

    The upload and health routes take no part in the properties below and are
    left out; an upload shows as a file written under uploads. *)

From Stdlib Require Import ZArith QArith Qround Lqa Lia List Bool Ascii.
From stdpp Require Import gmap strings pretty.

Set Warnings "-register-all".

Local Open Scope Z_scope.
Local Open Scope string_scope.

(* ===================================================================== *)
(** ** JavaScript values *)
(* ===================================================================== *)

Module Js.

(** A JS number: a finite double (its exact rational value; signed zero is
    not distinguished), NaN, or plus or minus Infinity. *)
Inductive Num : Type :=
| NaN
| Infinity (negative : bool)
| Fin (q : Q).

(** A value as [express.json()] can deliver it, plus [undefined] for a
    property that is absent. *)
Inductive Value : Type :=
| Undefined
| Null
| Bool (b : bool)
| Number (n : Num)
| Str (s : string)
| Arr (items : list Value)
| Obj (fields : list (string * Value)).

Definition of_Z (z : Z) : Num := Fin (inject_Z z).

(** ToBoolean. *)
Definition num_truthy (n : Num) : bool :=
  match n with
  | NaN => false
  | Infinity _ => true
  | Fin q => negb (Qnum q =? 0)%Z
  end.

Definition truthy (v : Value) : bool :=
  match v with
  | Undefined | Null => false
  | Bool b => b
  | Number n => num_truthy n
  | Str s => negb (String.eqb s "")
  | Arr _ | Obj _ => true
  end.

(** [a || b] *)
Definition or (a b : Value) : Value := if truthy a then a else b.

(** [Math.round]: the nearest integer, ties towards +Infinity. *)
Definition Math_round (n : Num) : Num :=
  match n with
  | Fin q => of_Z (Qfloor (q + (1 # 2)))
  | _ => n
  end.

(** The value of the own property [k] of an object, [undefined] when it has
    none. *)
Fixpoint assoc (k : string) (fields : list (string * Value)) : Value :=
  match fields with
  | [] => Undefined
  | (k', v) :: rest => if String.eqb k k' then v else assoc k rest
  end.

(** The property read [o?.k]: [undefined] on a nullish receiver (the
    optional chain), on a primitive and on a missing key.  The keys read by
    the services are not properties of String or Array. *)
Definition opt_get (o : Value) (k : string) : Value :=
  match o with
  | Obj fields => assoc k fields
  | _ => Undefined
  end.

(** How the runtime prints a number in an error message.  This is the text
    of the runtime for the numbers it prints in plain decimal notation and
    whose decimal expansion ends; the sign of zero is not shown. *)
Fixpoint fraction_digits (fuel : nat) (r d : Z) : option string :=
  if (r =? 0)%Z then Some ""
  else
    match fuel with
    | O => None
    | S fuel' =>
        match fraction_digits fuel' ((10 * r) mod d) d with
        | Some digits => Some (pretty ((10 * r) / d) ++ digits)
        | None => None
        end
    end.

Definition number_text (n : Num) : string :=
  match n with
  | NaN => "NaN"
  | Infinity negative => if negative then "-Infinity" else "Infinity"
  | Fin q =>
      let num := Qnum (Qred q) in
      let den := Zpos (Qden (Qred q)) in
      let sign := if (num <? 0)%Z then "-" else "" in
      let whole := pretty (Z.abs num / den) in
      match fraction_digits 25 (Z.abs num mod den) den with
      | Some "" => sign ++ whole
      | Some digits => sign ++ whole ++ "." ++ digits
      | None => sign ++ pretty (Z.abs num) ++ "/" ++ pretty den
      end
  end.

(** How the runtime names a value it refused as an argument. *)
Definition received (v : Value) : string :=
  match v with
  | Undefined => "undefined"
  | Null => "null"
  | Bool b => "type boolean (" ++ (if b then "true" else "false") ++ ")"
  | Number n => "type number (" ++ number_text n ++ ")"
  | Str s => "type string ('" ++ s ++ "')"
  | Arr _ => "an instance of Array"
  | Obj _ => "an instance of Object"
  end.

End Js.

(* ===================================================================== *)
(** ** Exceptions and the state-and-exception monad of a callback *)
(* ===================================================================== *)

(** The double-quote character, for runtime messages that contain one. *)
Definition dq : string := String (Ascii.ascii_of_nat 34) EmptyString.

(** What a callback can throw, or a promise be rejected with: a TypeError
    of the runtime; an error of the [fs] module with its code, system call and
    path (no path for a failed read); the error the engine's [error] event carries; the error of a second
    write to a response that was already sent. *)
Inductive Exn : Type :=
| TypeError (message : string)
| ErrnoException (code syscall path : string)
| EngineError (message : string)
| HeadersSent.

Definition errno_text (code : string) : string :=
  if String.eqb code "ENOENT" then "no such file or directory"
  else if String.eqb code "EISDIR" then "illegal operation on a directory"
  else "operation failed".

(** [error.message] *)
Definition message (e : Exn) : string :=
  match e with
  | TypeError m => m
  | ErrnoException code syscall path =>
      code ++ ": " ++ errno_text code ++ ", " ++ syscall
      ++ (if String.eqb path "" then "" else " '" ++ path ++ "'")
  | EngineError m => m
  | HeadersSent => "Cannot set headers after they are sent to the client"
  end.

(** How a piece of code ends: normally with a value, or by throwing. *)
Inductive Completion (A : Type) : Type :=
| Normal (a : A)
| Throw (e : Exn).
Arguments Normal {A} a.
Arguments Throw {A} e.

(** A callback body over a store [S]: it may change the store before it
    throws, and what it changed stays changed. *)
Definition M (S A : Type) : Type := S -> Completion A * S.

Definition ret {S A} (a : A) : M S A := fun s => (Normal a, s).

Definition bind {S A B} (m : M S A) (k : A -> M S B) : M S B :=
  fun s =>
    match m s with
    | (Normal a, s') => k a s'
    | (Throw e, s') => (Throw e, s')
    end.

Definition throw {S A} (e : Exn) : M S A := fun s => (Throw e, s).

Definition get {S} : M S S := fun s => (Normal s, s).

Definition modify {S} (f : S -> S) : M S unit := fun s => (Normal tt, f s).

(** [try { body } catch (err) { handler err }] *)
Definition try_catch {S A} (body : M S A) (handler : Exn -> M S A) : M S A :=
  fun s =>
    match body s with
    | (Normal a, s') => (Normal a, s')
    | (Throw e, s') => handler e s'
    end.

(** A computation that may throw but does not touch the store. *)
Definition lift {S A} (c : Completion A) : M S A := fun s => (c, s).

Notation "'let*' x ':=' m 'in' k" := (bind m (fun x => k))
  (at level 10, x pattern, m at level 200, k at level 200).

(** [if (c) { body }] *)
Definition when {S} (c : bool) (body : M S unit) : M S unit :=
  if c then body else ret tt.

(** [xs.forEach(f)]: stops at the first call that throws. *)
Fixpoint forEach {S A} (f : A -> M S unit) (xs : list A) : M S unit :=
  match xs with
  | [] => ret tt
  | x :: rest => let* _ := f x in forEach f rest
  end.

(* ===================================================================== *)
(** ** The filesystem under [./uploads] and [./output] *)
(* ===================================================================== *)

Module Fs.

Inductive Dir : Type := Uploads | Output.

Definition dir_name (d : Dir) : string :=
  match d with Uploads => "uploads" | Output => "output" end.

Fixpoint has_char (c : ascii) (s : string) : bool :=
  match s with
  | EmptyString => false
  | String c' rest => Ascii.eqb c c' || has_char c rest
  end.

(** A file name: not empty, not a dot entry, and without a separator or a
    NUL.  A directory holds its entries under file names and under nothing
    else. *)
Definition is_name (s : string) : bool :=
  negb (String.eqb s "") && negb (String.eqb s ".") && negb (String.eqb s "..")
  && negb (has_char "/" s) && negb (has_char "000" s).

(** An entry of one of the two directories, by the directory and the name:
    the path [dir/base]. *)
Record Path : Type := { dir : Dir; base : string }.

Definition show (p : Path) : string := dir_name (dir p) ++ "/" ++ base p.

Inductive Kind : Type := RegularFile | Directory.

(** What [fs.statSync] reports of an entry, as far as the services look. *)
Record Stats : Type := { mtimeMs : Z; kind : Kind }.

(** The entries of a directory; [None]: the directory itself does not
    exist. *)
Definition Listing : Type := list (string * Stats).

Record FileSystem : Type := { uploads : option Listing; output : option Listing }.

Definition listing (fs : FileSystem) (d : Dir) : option Listing :=
  match d with Uploads => uploads fs | Output => output fs end.

Definition with_listing (fs : FileSystem) (d : Dir) (l : option Listing) : FileSystem :=
  match d with
  | Uploads => {| uploads := l; output := output fs |}
  | Output => {| uploads := uploads fs; output := l |}
  end.

Fixpoint find (name : string) (l : Listing) : option Stats :=
  match l with
  | [] => None
  | (n, st) :: rest => if String.eqb name n then Some st else find name rest
  end.

Fixpoint remove (name : string) (l : Listing) : Listing :=
  match l with
  | [] => []
  | (n, st) :: rest => if String.eqb name n then rest else (n, st) :: remove name rest
  end.

(** The entry at [p], if there is one; there is none under a [base] that is
    not a file name. *)
Definition lookup (fs : FileSystem) (p : Path) : option Stats :=
  if is_name (base p) then
    match listing fs (dir p) with
    | Some l => find (base p) l
    | None => None
    end
  else None.

(** [fs.existsSync(dir)] *)
Definition dirExistsSync (fs : FileSystem) (d : Dir) : bool :=
  match listing fs d with Some _ => true | None => false end.

(** [fs.existsSync(path)] never throws. *)
Definition existsSync (fs : FileSystem) (p : Path) : bool :=
  match lookup fs p with Some _ => true | None => false end.

(** [fs.mkdirSync(dir, { recursive: true })] *)
Definition mkdirSync (fs : FileSystem) (d : Dir) : FileSystem :=
  match listing fs d with
  | Some _ => fs
  | None => with_listing fs d (Some [])
  end.

(** [fs.statSync(path)] throws ENOENT on a missing entry. *)
Definition statSync (fs : FileSystem) (p : Path) : Completion Stats :=
  match lookup fs p with
  | Some st => Normal st
  | None => Throw (ErrnoException "ENOENT" "stat" (show p))
  end.

(** [fs.unlinkSync(path)] removes a regular file; it throws ENOENT on a
    missing entry and EISDIR on a directory. *)
Definition unlinkSync (fs : FileSystem) (p : Path) : Completion FileSystem :=
  if is_name (base p) then
    match listing fs (dir p) with
    | None => Throw (ErrnoException "ENOENT" "unlink" (show p))
    | Some l =>
        match find (base p) l with
        | None => Throw (ErrnoException "ENOENT" "unlink" (show p))
        | Some {| kind := Directory |} => Throw (ErrnoException "EISDIR" "unlink" (show p))
        | Some {| kind := RegularFile |} =>
            Normal (with_listing fs (dir p) (Some (remove (base p) l)))
        end
    end
  else Throw (ErrnoException "ENOENT" "unlink" (show p)).

(** The order in which [fs.readdirSync] returns the names of a directory:
    sorted, byte by byte. *)
Fixpoint insert_name (name : string) (sorted : list string) : list string :=
  match sorted with
  | [] => [name]
  | other :: rest =>
      if String.leb name other then name :: other :: rest
      else other :: insert_name name rest
  end.

Definition sort_names (names : list string) : list string :=
  fold_right insert_name [] names.

(** [fs.readdirSync(dir)] *)
Definition readdirSync (fs : FileSystem) (d : Dir) : Completion (list string) :=
  match listing fs d with
  | Some l => Normal (sort_names (map fst l))
  | None => Throw (ErrnoException "ENOENT" "scandir" (dir_name d))
  end.

(** Something outside the service (multer storing an upload, the engine
    writing its output) creates or rewrites an entry.  Nothing can be created
    under a text that is not a file name. *)
Definition write (fs : FileSystem) (p : Path) (st : Stats) : FileSystem :=
  if is_name (base p) then
    match listing fs (dir p) with
    | Some l => with_listing fs (dir p) (Some (remove (base p) l ++ [(base p, st)])%list)
    | None => with_listing fs (dir p) (Some [(base p, st)])
    end
  else fs.

(** *** [path.join]

    The services join a directory with an identifier that the caller chose.
    [path.join] puts a separator between the two and normalises the result:
    empty and single-dot segments go, a double-dot segment takes the segment
    before it away, or stays when there is none to take (POSIX paths, as on
    the hosts the services are written for). *)

(** The segments of a path text, between its separators. *)
Fixpoint split (s : string) : list string :=
  match s with
  | EmptyString => [""]
  | String c rest =>
      match split rest with
      | seg :: others =>
          if Ascii.eqb c "/" then "" :: seg :: others else String c seg :: others
      | [] => [String c ""]
      end
  end.

(** One step of the normalisation, on the segments seen so far, last
    first. *)
Definition push (seen : list string) (seg : string) : list string :=
  if String.eqb seg "" || String.eqb seg "." then seen
  else if String.eqb seg ".." then
    match seen with
    | top :: below => if String.eqb top ".." then seg :: seen else below
    | [] => [seg]
    end
  else seg :: seen.

Definition normalize (segments : list string) : list string :=
  rev (fold_left push segments []).

Fixpoint ends_with_separator (s : string) : bool :=
  match s with
  | EmptyString => false
  | String c EmptyString => Ascii.eqb c "/"
  | String _ rest => ends_with_separator rest
  end.

(** What a joined path names: an entry of one of the two directories, or
    anything else, by its normalised segments and whether the text ends in a
    separator. *)
Inductive Place : Type :=
| Entry (p : Path)
| Other (segments : list string) (trailing : bool).

Definition dir_of_name (s : string) : option Dir :=
  if String.eqb s "uploads" then Some Uploads
  else if String.eqb s "output" then Some Output
  else None.

Definition classify (segments : list string) (trailing : bool) : Place :=
  match segments, trailing with
  | [d; name], false =>
      match dir_of_name d with
      | Some d' => Entry {| dir := d'; base := name |}
      | None => Other segments trailing
      end
  | _, _ => Other segments trailing
  end.

(** [path.join('./' + dir, id)] for a string [id] *)
Definition join (d : Dir) (id : string) : Place :=
  classify (normalize ("." :: dir_name d :: split id)) (ends_with_separator id).

Fixpoint concat_segments (segments : list string) : string :=
  match segments with
  | [] => ""
  | [seg] => seg
  | seg :: rest => seg ++ "/" ++ concat_segments rest
  end.

(** The text of a joined path. *)
Definition show_place (pl : Place) : string :=
  match pl with
  | Entry p => show p
  | Other segments trailing =>
      (match segments with [] => "." | _ => concat_segments segments end)
      ++ (if trailing then "/" else "")
  end.

(** What lies at a place.  The two directories answer for themselves and
    for their entries; the working directory and the directories above it
    exist; everything else is looked up by its text in [elsewhere], the rest
    of the file system.  A text that ends in a separator, or that goes through
    an entry, names something only if that entry is a directory.  The two
    directories are taken to have no second name: there are no links, and a
    path that climbs above the working directory does not come back into
    it. *)
Definition kind_elsewhere (elsewhere : Listing) (segments : list string) (trailing : bool)
    : option Kind :=
  match find (show_place (Other segments trailing)) elsewhere with
  | Some {| kind := RegularFile |} => if trailing then None else Some RegularFile
  | Some {| kind := Directory |} => Some Directory
  | None => None
  end.

Definition kind_at (fs : FileSystem) (elsewhere : Listing) (pl : Place) : option Kind :=
  match pl with
  | Entry p => kind <$> lookup fs p
  | Other segments trailing =>
      if forallb (String.eqb "..") segments then Some Directory
      else
        match segments with
        | [] => Some Directory
        | first :: rest =>
            match dir_of_name first with
            | None => kind_elsewhere elsewhere segments trailing
            | Some d =>
                match listing fs d, rest with
                | None, _ => None
                | Some _, [] => Some Directory
                | Some _, name :: deeper =>
                    match kind <$> lookup fs {| dir := d; base := name |}, deeper with
                    | Some Directory, [] => Some Directory
                    | Some Directory, _ :: _ => kind_elsewhere elsewhere segments trailing
                    | _, _ => None
                    end
                end
            end
        end
  end.

(** [fs.existsSync] of a joined path *)
Definition exists_at (fs : FileSystem) (elsewhere : Listing) (pl : Place) : bool :=
  match pl with
  | Entry p => existsSync fs p
  | Other _ _ =>
      match kind_at fs elsewhere pl with Some _ => true | None => false end
  end.

(** [fs.unlinkSync] of a joined path that is not an entry of the two
    directories: the rest of the file system afterwards. *)
Definition unlink_elsewhere (fs : FileSystem) (elsewhere : Listing) (pl : Place)
    : Completion Listing :=
  match kind_at fs elsewhere pl with
  | None => Throw (ErrnoException "ENOENT" "unlink" (show_place pl))
  | Some Directory => Throw (ErrnoException "EISDIR" "unlink" (show_place pl))
  | Some RegularFile => Normal (remove (show_place pl) elsewhere)
  end.

(** Something outside the service creates or rewrites a file in the rest of
    the file system. *)
Definition write_elsewhere (elsewhere : Listing) (pl : Place) (st : Stats) : Listing :=
  (remove (show_place pl) elsewhere ++ [(show_place pl, st)])%list.

End Fs.

(** An entry of one of the two directories is a place; where a place is
    expected, the entry stands for it, also inside a pair, an option or a
    list. *)
Coercion Fs.Entry : Fs.Path >-> Fs.Place.
Arguments pair {A B} & a b.
Arguments Some {A} & a.
Arguments cons {A} & a l.

(* ===================================================================== *)
(** ** The filter graph handed to the engine *)
(* ===================================================================== *)

Module Graph.

(** A width or height argument of [scale]: a pixel count, or an expression
    over the size of the filter's own input ([iw], [ih], [iw/2], [ih/2]). *)
Inductive Dim : Type := Px (n : Z) | Iw | Ih | HalfIw | HalfIh.

(** The [duration] option of [amix]. *)
Inductive Duration : Type := Longest | Shortest.

(** One chain of the complex filter. *)
Inductive Filter : Type :=
| Scale (src : string) (w h : Dim) (setsar1 : bool) (dst : string)
| Hstack (a b dst : string)
| Vstack (a b dst : string)
| Amix (a b : string) (duration : Duration) (dst : string)
| Concat (v0 a0 v1 a1 : string) (dstv dsta : string).

Definition GraphSpec : Type := list Filter.

Definition pad (label : string) : string := "[" ++ label ++ "]".

Definition render_dim (d : Dim) : string :=
  match d with
  | Px n => pretty n
  | Iw => "iw"
  | Ih => "ih"
  | HalfIw => "iw/2"
  | HalfIh => "ih/2"
  end.

Definition render_duration (d : Duration) : string :=
  match d with Longest => "longest" | Shortest => "shortest" end.

(** The text of a chain, as the services write it. *)
Definition render_filter (f : Filter) : string :=
  match f with
  | Scale src w h setsar1 dst =>
      pad src ++ "scale=" ++ render_dim w ++ ":" ++ render_dim h
      ++ (if setsar1 then ",setsar=1" else "") ++ pad dst
  | Hstack a b dst => pad a ++ pad b ++ "hstack=inputs=2" ++ pad dst
  | Vstack a b dst => pad a ++ pad b ++ "vstack=inputs=2" ++ pad dst
  | Amix a b d dst =>
      pad a ++ pad b ++ "amix=inputs=2:duration=" ++ render_duration d ++ pad dst
  | Concat v0 a0 v1 a1 dstv dsta =>
      pad v0 ++ pad a0 ++ pad v1 ++ pad a1 ++ "concat=n=2:v=1:a=1" ++ pad dstv ++ pad dsta
  end.

(** The array form given to [complexFilter] by [src/server.js]. *)
Definition render (g : GraphSpec) : list string := map render_filter g.

(** The trimmed template literal of the job-based service: the chains, each
    but the last followed by a semicolon, a newline and twenty spaces. *)
Definition template_separator : string :=
  ";" ++ String (Ascii.ascii_of_nat 10) "                    ".

Fixpoint render_template (g : GraphSpec) : string :=
  match g with
  | [] => ""
  | [f] => render_filter f
  | f :: rest => render_filter f ++ template_separator ++ render_template rest
  end.

(** The mix instruction of a graph, if it has one. *)
Fixpoint mix_duration (g : GraphSpec) : option Duration :=
  match g with
  | [] => None
  | Amix _ _ d _ :: _ => Some d
  | _ :: rest => mix_duration rest
  end.

(** *** What the engine makes of the video part

    The engine is ffmpeg, outside the repository.  To read a frame size off
    a graph, its documented rules are written down here: [scale] evaluates
    its arguments over its input's size, [hstack] needs equal heights and
    adds widths, [vstack] needs equal widths and adds heights, [concat] needs
    segments of one size and keeps it; [amix] has no video pad. *)

Definition Size : Type := (Z * Z)%type.

Definition eval_dim (d : Dim) (input : Size) : Z :=
  match d with
  | Px n => n
  | Iw => fst input
  | Ih => snd input
  | HalfIw => fst input / 2
  | HalfIh => snd input / 2
  end.

Definition size_eqb (x y : Size) : bool :=
  (fst x =? fst y)%Z && (snd x =? snd y)%Z.

Definition apply_filter (f : Filter) (pads : gmap string Size) : option (gmap string Size) :=
  match f with
  | Scale src w h _ dst =>
      match pads !! src with
      | Some input => Some (<[dst := (eval_dim w input, eval_dim h input)]> pads)
      | None => None
      end
  | Hstack a b dst =>
      match pads !! a, pads !! b with
      | Some (wa, ha), Some (wb, hb) =>
          if (ha =? hb)%Z then Some (<[dst := (wa + wb, ha)]> pads) else None
      | _, _ => None
      end
  | Vstack a b dst =>
      match pads !! a, pads !! b with
      | Some (wa, ha), Some (wb, hb) =>
          if (wa =? wb)%Z then Some (<[dst := (wa, ha + hb)]> pads) else None
      | _, _ => None
      end
  | Amix _ _ _ _ => Some pads
  | Concat v0 _ v1 _ dstv _ =>
      match pads !! v0, pads !! v1 with
      | Some s0, Some s1 => if size_eqb s0 s1 then Some (<[dstv := s0]> pads) else None
      | _, _ => None
      end
  end.

Fixpoint apply_graph (g : GraphSpec) (pads : gmap string Size) : option (gmap string Size) :=
  match g with
  | [] => Some pads
  | f :: rest =>
      match apply_filter f pads with
      | Some pads' => apply_graph rest pads'
      | None => None
      end
  end.

(** The video pads of the two inputs. *)
Definition input_pads (in0 in1 : Size) : gmap string Size :=
  <["1:v" := in1]> (<["0:v" := in0]> ∅).

(** The size of the pad [label] after the graph ran on inputs of the given
    sizes; [None] when the engine rejects the graph for these inputs. *)
Definition pad_size (g : GraphSpec) (in0 in1 : Size) (label : string) : option Size :=
  match apply_graph g (input_pads in0 in1) with
  | Some pads => pads !! label
  | None => None
  end.

End Graph.

(* ===================================================================== *)
(** ** The job-based service ([/api/process], [/api/jobs], [/api/download]) *)
(* ===================================================================== *)

Module JobApi.

Import Graph.

(** The three values the [status] property ever takes. *)
Inductive Status : Type := processing | completed | failed.

Definition status_text (s : Status) : string :=
  match s with
  | processing => "processing"
  | completed => "completed"
  | failed => "failed"
  end.

(** A job object; [None] is a property the object does not have. *)
Record Job : Type := {
  status : Status;
  progress : option Js.Num;
  startTime : option Z;
  outputUrl : option string;
  completedTime : option Z;
  error : option string;
  failedTime : option Z
}.

(** [{ status: 'processing', progress: 0, startTime: Date.now() }] *)
Definition processing_job (now : Z) : Job :=
  {| status := processing; progress := Some (Js.of_Z 0); startTime := Some now;
     outputUrl := None; completedTime := None; error := None; failedTime := None |}.

(** [{ status: 'completed', progress: 100, outputUrl, completedTime }] *)
Definition completed_job (jobId : string) (now : Z) : Job :=
  {| status := completed; progress := Some (Js.of_Z 100); startTime := None;
     outputUrl := Some ("/output/" ++ jobId ++ ".mp4"); completedTime := Some now;
     error := None; failedTime := None |}.

(** [{ status: 'failed', error: error.message, failedTime: Date.now() }] *)
Definition failed_job (e : Exn) (now : Z) : Job :=
  {| status := failed; progress := None; startTime := None;
     outputUrl := None; completedTime := None;
     error := Some (message e); failedTime := Some now |}.

(** [job.progress = percent] *)
Definition set_progress (job : Job) (percent : Js.Num) : Job :=
  {| status := status job; progress := Some percent; startTime := startTime job;
     outputUrl := outputUrl job; completedTime := completedTime job;
     error := error job; failedTime := failedTime job |}.

(** [const jobs = new Map()].  A Map iterates in insertion order and the
    sweep walks it with [forEach], so the table keeps that order. *)
Definition JobTable : Type := list (string * Job).

Fixpoint jobs_get (jobId : string) (t : JobTable) : option Job :=
  match t with
  | [] => None
  | (k, j) :: rest => if String.eqb jobId k then Some j else jobs_get jobId rest
  end.

(** [jobs.set]: a present key keeps its place, a new key goes last. *)
Fixpoint jobs_set (jobId : string) (job : Job) (t : JobTable) : JobTable :=
  match t with
  | [] => [(jobId, job)]
  | (k, j) :: rest =>
      if String.eqb jobId k then (k, job) :: rest else (k, j) :: jobs_set jobId job rest
  end.

Definition jobs_delete (jobId : string) (t : JobTable) : JobTable :=
  List.filter (fun kj => negb (String.eqb jobId (fst kj))) t.

(** One [ffmpeg()] command that was started with [.run()]: the closure of its
    event handlers and the state of the promise around it. *)
Record Run : Type := {
  video1Path : Fs.Place;
  video2Path : Fs.Place;
  filter : GraphSpec;
  outputPath : Fs.Path;
  settled : bool
}.

Definition settle (r : Run) : Run :=
  {| video1Path := video1Path r; video2Path := video2Path r; filter := filter r;
     outputPath := outputPath r; settled := true |}.

(** What the service writes to the console. *)
Inductive LogLine : Type :=
| LogCommand (commandLine : string)
| LogProgress (percent : Js.Num)
| LogFinished
| LogFfmpegError (e : Exn)
| LogProcessingError (e : Exn)
| LogCleanupError (e : Exn)
| LogDeleted (file : string).

(** The store: the job table, the started commands, the pending input
    cleanups with the two paths each closes over, the two directories, the
    rest of the file system by path, and the console. *)
Record State : Type := {
  jobs : JobTable;
  runs : gmap string Run;
  timers : list (Fs.Place * Fs.Place);
  disk : Fs.FileSystem;
  elsewhere : Fs.Listing;
  console : list LogLine
}.

Definition initial : State :=
  {| jobs := []; runs := ∅; timers := [];
     disk := {| Fs.uploads := None; Fs.output := None |}; elsewhere := [];
     console := [] |}.

Definition with_jobs (f : JobTable -> JobTable) (st : State) : State :=
  {| jobs := f (jobs st); runs := runs st; timers := timers st;
     disk := disk st; elsewhere := elsewhere st; console := console st |}.

Definition with_runs (f : gmap string Run -> gmap string Run) (st : State) : State :=
  {| jobs := jobs st; runs := f (runs st); timers := timers st;
     disk := disk st; elsewhere := elsewhere st; console := console st |}.

Definition with_timers (f : list (Fs.Place * Fs.Place) -> list (Fs.Place * Fs.Place))
    (st : State) : State :=
  {| jobs := jobs st; runs := runs st; timers := f (timers st);
     disk := disk st; elsewhere := elsewhere st; console := console st |}.

Definition with_disk (f : Fs.FileSystem -> Fs.FileSystem) (st : State) : State :=
  {| jobs := jobs st; runs := runs st; timers := timers st;
     disk := f (disk st); elsewhere := elsewhere st; console := console st |}.

Definition with_elsewhere (f : Fs.Listing -> Fs.Listing) (st : State) : State :=
  {| jobs := jobs st; runs := runs st; timers := timers st;
     disk := disk st; elsewhere := f (elsewhere st); console := console st |}.

Definition log (line : LogLine) : M State unit :=
  modify (fun st =>
    {| jobs := jobs st; runs := runs st; timers := timers st;
       disk := disk st; elsewhere := elsewhere st;
       console := (console st ++ [line])%list |}).

(** [fs.unlinkSync(p)] on the store. *)
Definition unlink (p : Fs.Path) : M State unit :=
  fun st =>
    match Fs.unlinkSync (disk st) p with
    | Normal fs' => (Normal tt, with_disk (fun _ => fs') st)
    | Throw e => (Throw e, st)
    end.

(** [if (fs.existsSync(p)) fs.unlinkSync(p)] *)
Definition unlink_if_exists (p : Fs.Path) : M State unit :=
  let* st := get in when (Fs.existsSync (disk st) p) (unlink p).

(** The same two calls on a joined path, wherever it leads. *)
Definition unlink_at (pl : Fs.Place) : M State unit :=
  match pl with
  | Fs.Entry p => unlink p
  | Fs.Other _ _ =>
      fun st =>
        match Fs.unlink_elsewhere (disk st) (elsewhere st) pl with
        | Normal rest => (Normal tt, with_elsewhere (fun _ => rest) st)
        | Throw e => (Throw e, st)
        end
  end.

Definition unlink_at_if_exists (pl : Fs.Place) : M State unit :=
  let* st := get in when (Fs.exists_at (disk st) (elsewhere st) pl) (unlink_at pl).

(** The body of a request. *)
Record ProcessBody : Type := {
  video1Id : Js.Value;
  video2Id : Js.Value;
  layout : Js.Value;
  settings : Js.Value
}.

(** The responses of the three routes:
    - [ProcessingStarted jobId]: 200 with success true, the jobId and the
      message 'Processing started';
    - [MissingVideoIds]: 400 with error 'Missing video IDs';
    - [JobSnapshot job]: 200 with the job object as it is in the table;
    - [JobNotFound]: 404 with error 'Job not found';
    - [VideoNotReady]: 404 with error 'Video not ready';
    - [FileNotFound]: 404 with error 'File not found';
    - [Download filePath]: [res.download(filePath)], the bytes of the file;
    - [InternalServerError e]: the 500 of Express when the handler threw. *)
Inductive Response : Type :=
| ProcessingStarted (jobId : string)
| MissingVideoIds
| JobSnapshot (job : Job)
| JobNotFound
| VideoNotReady
| FileNotFound
| Download (filePath : Fs.Path)
| InternalServerError (e : Exn).

Definition status_code (r : Response) : Z :=
  match r with
  | ProcessingStarted _ | JobSnapshot _ | Download _ => 200
  | MissingVideoIds => 400
  | JobNotFound | VideoNotReady | FileNotFound => 404
  | InternalServerError _ => 500
  end.

(** [path.join(dir, id)] throws on an argument that is not a string. *)
Definition path_join (d : Fs.Dir) (id : Js.Value) : Completion Fs.Place :=
  match id with
  | Js.Str s => Normal (Fs.join d s)
  | _ =>
      Throw (TypeError ("The " ++ dq ++ "path" ++ dq
                        ++ " argument must be of type string. Received " ++ Js.received id))
  end.

Definition side_by_side : GraphSpec :=
  [ Scale "0:v" (Px 960) (Px 1080) true "v1";
    Scale "1:v" (Px 960) (Px 1080) true "v2";
    Hstack "v1" "v2" "outv";
    Amix "0:a" "1:a" Longest "outa" ].

Definition stacked : GraphSpec :=
  [ Scale "0:v" (Px 1920) (Px 540) true "v1";
    Scale "1:v" (Px 1920) (Px 540) true "v2";
    Vstack "v1" "v2" "outv";
    Amix "0:a" "1:a" Longest "outa" ].

Definition sequential : GraphSpec :=
  [ Concat "0:v" "0:a" "1:v" "1:a" "outv" "outa" ].

Definition maxAge : Z := 24 * 60 * 60 * 1000.

(** [a || b] on timestamps: 0 and a missing property are falsy. *)
Definition or_time (a b : option Z) : option Z :=
  match a with
  | Some t => if (t =? 0)%Z then b else a
  | None => b
  end.

(** [now - (job.completedTime || job.failedTime || job.startTime)];
    [None] is NaN, the difference with [undefined]. *)
Definition job_age (now : Z) (job : Job) : option Z :=
  match or_time (or_time (completedTime job) (failedTime job)) (startTime job) with
  | Some t => Some (now - t)
  | None => None
  end.

(** [age > maxAge] *)
Definition too_old (age : option Z) : bool :=
  match age with
  | Some a => (maxAge <? a)%Z
  | None => false
  end.

(** [progress.percent || 0] *)
Definition percent_or_0 (percent : option Js.Num) : Js.Num :=
  match percent with
  | Some n => if Js.num_truthy n then n else Js.of_Z 0
  | None => Js.of_Z 0
  end.

(** What happens to the service, one callback at a time. *)
Inductive Event : Type :=
| PostProcess (body : ProcessBody) (uuid : string) (now later : Z)
| GetJob (jobId : string)
| GetDownload (jobId : string)
| FfmpegStart (jobId : string) (commandLine : string)
| FfmpegProgress (jobId : string) (percent : option Js.Num)
| FfmpegEnd (jobId : string) (now : Z)
| FfmpegError (jobId : string) (reason : string) (now : Z)
| InputCleanupTimer (index : nat)
| SweepTimer (now : Z)
| FileWritten (p : Fs.Place) (st : Fs.Stats).

(** How a callback ends for the outside: a response, nothing, or an
    exception nobody catches (Node then ends the process). *)
Inductive Outcome : Type :=
| Replied (r : Response)
| Quiet
| Uncaught (e : Exn).

Section Service.

(** [String.prototype.toLowerCase], a built-in of the runtime. *)
Variable toLowerCase : string -> string.

(** [layout?.toLowerCase()]: [undefined] on a nullish layout, a call of
    something that is not a function on any other value but a string. *)
Definition layout_key (layout : Js.Value) : Completion (option string) :=
  match layout with
  | Js.Undefined | Js.Null => Normal None
  | Js.Str s => Normal (Some (toLowerCase s))
  | _ => Throw (TypeError "layout?.toLowerCase is not a function")
  end.

(** The [switch] of [processVideos]. *)
Definition filterComplex (layout settings : Js.Value) : Completion GraphSpec :=
  let video1Settings := Js.or (Js.opt_get settings "video1") (Js.Obj []) in
  let video2Settings := Js.or (Js.opt_get settings "video2") (Js.Obj []) in
  match layout_key layout with
  | Throw e => Throw e
  | Normal key =>
      Normal
        match key with
        | Some k =>
            if String.eqb k "side by side" then side_by_side
            else if String.eqb k "stacked" then stacked
            else sequential
        | None => sequential
        end
  end.

(** The executor of the promise of [processVideos].  It either throws, which
    rejects the promise at once, or starts the command and leaves the promise
    pending; the result is the rejection, if any. *)
Definition processVideos (video1Path video2Path : Fs.Place) (outputPath : Fs.Path)
    (layout settings : Js.Value) (jobId : string) : M State (option Exn) :=
  match filterComplex layout settings with
  | Throw e => ret (Some e)
  | Normal g =>
      let* _ := modify (with_runs (fun rs =>
        <[jobId := {| video1Path := video1Path; video2Path := video2Path; filter := g;
                      outputPath := outputPath; settled := false |}]> rs)) in
      ret None
  end.

(** The [.then] reaction. *)
Definition on_fulfilled (jobId : string) (now : Z) : M State unit :=
  modify (with_jobs (jobs_set jobId (completed_job jobId now))).

(** The [.catch] reaction. *)
Definition on_rejected (jobId : string) (e : Exn) (now : Z) : M State unit :=
  let* _ := log (LogProcessingError e) in
  modify (with_jobs (jobs_set jobId (failed_job e now))).

(** The handler of [POST /api/process] up to its return: the response it
    sends, and the rejection of the promise if the executor threw.  [uuid] is
    what [uuidv4()] returned, a file name of hexadecimal digits and hyphens:
    joined with the output directory it is the entry of that name. *)
Definition api_process_handler (body : ProcessBody) (uuid : string) (now : Z)
    : M State (Response * option Exn) :=
  if negb (Js.truthy (video1Id body)) || negb (Js.truthy (video2Id body)) then
    ret (MissingVideoIds, None)
  else
    let jobId := uuid in
    let* video1Path := lift (path_join Fs.Uploads (video1Id body)) in
    let* video2Path := lift (path_join Fs.Uploads (video2Id body)) in
    let outputPath := {| Fs.dir := Fs.Output; Fs.base := jobId ++ ".mp4" |} in
    let* _ := modify (with_disk (fun fs => Fs.mkdirSync fs Fs.Output)) in
    let* _ := modify (with_jobs (jobs_set jobId (processing_job now))) in
    let* rejection :=
      processVideos video1Path video2Path outputPath (layout body) (settings body) jobId in
    ret (ProcessingStarted jobId, rejection).

(** The whole step of [POST /api/process]: the handler, then the reaction of
    a promise that the handler left rejected. *)
Definition api_process (body : ProcessBody) (uuid : string) (now later : Z)
    : M State Response :=
  let* (response, rejection) := api_process_handler body uuid now in
  let* _ :=
    match rejection with
    | Some e => on_rejected uuid e later
    | None => ret tt
    end in
  ret response.

(** [GET /api/jobs/:jobId] *)
Definition api_jobs (jobId : string) : M State Response :=
  let* st := get in
  match jobs_get jobId (jobs st) with
  | None => ret JobNotFound
  | Some job => ret (JobSnapshot job)
  end.

(** [GET /api/download/:jobId].  The path is joined only for a [jobId]
    that is a key of the job table, one that [uuidv4()] returned. *)
Definition api_download (jobId : string) : M State Response :=
  let* st := get in
  match jobs_get jobId (jobs st) with
  | None => ret VideoNotReady
  | Some job =>
      match status job with
      | completed =>
          let filePath := {| Fs.dir := Fs.Output; Fs.base := jobId ++ ".mp4" |} in
          if negb (Fs.existsSync (disk st) filePath) then ret FileNotFound
          else ret (Download filePath)
      | _ => ret VideoNotReady
      end
  end.

(** A handler of the command of [jobId] runs only if that command exists. *)
Definition on_command (jobId : string) (handler : Run -> M State unit) : M State unit :=
  let* st := get in
  match runs st !! jobId with
  | Some run => handler run
  | None => ret tt
  end.

(** [.on('start', ...)] *)
Definition on_start (jobId : string) (commandLine : string) : M State unit :=
  on_command jobId (fun _ => log (LogCommand commandLine)).

(** [.on('progress', ...)] *)
Definition on_progress (jobId : string) (percent : option Js.Num) : M State unit :=
  on_command jobId (fun _ =>
    let percent := Js.Math_round (percent_or_0 percent) in
    let* st := get in
    let* _ :=
      match jobs_get jobId (jobs st) with
      | Some job => modify (with_jobs (jobs_set jobId (set_progress job percent)))
      | None => ret tt
      end in
    log (LogProgress percent)).

(** Settling the promise: only the first [resolve] or [reject] counts. *)
Definition settle_once (jobId : string) (run : Run) (reaction : M State unit) : M State unit :=
  if settled run then ret tt
  else
    let* _ := modify (with_runs (fun rs => <[jobId := settle run]> rs)) in
    reaction.

(** [.on('end', ...)]: the deferred input cleanup is scheduled, then
    [resolve()]. *)
Definition on_end (jobId : string) (now : Z) : M State unit :=
  on_command jobId (fun run =>
    let* _ := log LogFinished in
    let* _ := modify (with_timers (fun ts =>
      (ts ++ [(video1Path run, video2Path run)])%list)) in
    settle_once jobId run (on_fulfilled jobId now)).

(** [.on('error', ...)]: [reject(err)]. *)
Definition on_error (jobId : string) (reason : string) (now : Z) : M State unit :=
  on_command jobId (fun run =>
    let err := EngineError reason in
    let* _ := log (LogFfmpegError err) in
    settle_once jobId run (on_rejected jobId err now)).

(** The callback of the one-hour [setTimeout] set by the [end] handler. *)
Definition input_cleanup (paths : Fs.Place * Fs.Place) : M State unit :=
  try_catch
    (let* _ := unlink_at_if_exists (fst paths) in unlink_at_if_exists (snd paths))
    (fun err => log (LogCleanupError err)).

Definition drop_nth {A} (n : nat) (l : list A) : list A :=
  (firstn n l ++ skipn (S n) l)%list.

Definition fire_input_cleanup (index : nat) : M State unit :=
  let* st := get in
  match nth_error (timers st) index with
  | Some paths =>
      let* _ := modify (with_timers (drop_nth index)) in
      input_cleanup paths
  | None => ret tt
  end.

(** The first loop of the hourly sweep, for one entry of the job table. *)
Definition sweep_job (now : Z) (entry : string * Job) : M State unit :=
  let (jobId, job) := entry in
  let age := job_age now job in
  when (too_old age)
    (let* _ := modify (with_jobs (jobs_delete jobId)) in
     let outputPath := {| Fs.dir := Fs.Output; Fs.base := jobId ++ ".mp4" |} in
     unlink_if_exists outputPath).

(** The second loop, for one file of one directory. *)
Definition sweep_file (now : Z) (d : Fs.Dir) (file : string) : M State unit :=
  let filePath := {| Fs.dir := d; Fs.base := file |} in
  let* st := get in
  let* stats := lift (Fs.statSync (disk st) filePath) in
  let age := (now - Fs.mtimeMs stats)%Z in
  when (maxAge <? age)%Z
    (let* _ := unlink filePath in log (LogDeleted file)).

Definition sweep_dir (now : Z) (d : Fs.Dir) : M State unit :=
  let* st := get in
  when (Fs.dirExistsSync (disk st) d)
    (let* files := lift (Fs.readdirSync (disk st) d) in
     forEach (sweep_file now d) files).

(** The callback of the hourly [setInterval]. *)
Definition sweep (now : Z) : M State unit :=
  let* st := get in
  let* _ := forEach (sweep_job now) (jobs st) in
  forEach (sweep_dir now) [Fs.Uploads; Fs.Output].

(** Something outside the service creates or rewrites a file. *)
Definition written (pl : Fs.Place) (stats : Fs.Stats) (st : State) : State :=
  {| jobs := jobs st; runs := runs st; timers := timers st;
     disk := match pl with
             | Fs.Entry p => Fs.write (disk st) p stats
             | Fs.Other _ _ => disk st
             end;
     elsewhere := match pl with
                  | Fs.Entry _ => elsewhere st
                  | Fs.Other _ _ => Fs.write_elsewhere (elsewhere st) pl stats
                  end;
     console := console st |}.

(** Express answers 500 when a route handler throws. *)
Definition route (handler : M State Response) (st : State) : Outcome * State :=
  match handler st with
  | (Normal r, st') => (Replied r, st')
  | (Throw e, st') => (Replied (InternalServerError e), st')
  end.

(** Nothing catches what an event handler or a timer callback throws. *)
Definition callback (body : M State unit) (st : State) : Outcome * State :=
  match body st with
  | (Normal _, st') => (Quiet, st')
  | (Throw e, st') => (Uncaught e, st')
  end.

Definition step (st : State) (ev : Event) : Outcome * State :=
  match ev with
  | PostProcess body uuid now later => route (api_process body uuid now later) st
  | GetJob jobId => route (api_jobs jobId) st
  | GetDownload jobId => route (api_download jobId) st
  | FfmpegStart jobId commandLine => callback (on_start jobId commandLine) st
  | FfmpegProgress jobId percent => callback (on_progress jobId percent) st
  | FfmpegEnd jobId now => callback (on_end jobId now) st
  | FfmpegError jobId reason now => callback (on_error jobId reason now) st
  | InputCleanupTimer index => callback (fire_input_cleanup index) st
  | SweepTimer now => callback (sweep now) st
  | FileWritten p stats => (Quiet, written p stats st)
  end.

(** The state after a sequence of events. *)
Definition run_events (st : State) (evs : list Event) : State :=
  fold_left (fun s ev => snd (step s ev)) evs st.

(** The identifier a request draws is not in use: no job and no command
    carries it.  [uuidv4] provides this, and more: it never repeats. *)
Definition fresh_uuid (st : State) (ev : Event) : Prop :=
  match ev with
  | PostProcess _ uuid _ _ => jobs_get uuid (jobs st) = None /\ runs st !! uuid = None
  | _ => True
  end.

(** The states the service can be in.  A step that ends in an uncaught
    exception is followed like any other, although Node stops there: the
    states that are counted in addition only make what is proved of all of
    them stronger. *)
Inductive reachable : State -> Prop :=
| reachable_initial : reachable initial
| reachable_step st ev :
    reachable st -> fresh_uuid st ev -> reachable (snd (step st ev)).

End Service.

End JobApi.

(* ===================================================================== *)
(** ** [src/server.js] ([/process], [/download/:fileId]) *)
(* ===================================================================== *)

Module SyncApi.

Import Graph.

Record ProcessBody : Type := {
  video1 : Js.Value;
  video2 : Js.Value;
  layout : Js.Value;
  audioOption : Js.Value
}.

(** The responses of the two routes:
    - [BothRequired]: 400 with error 'Both video1 and video2 are required';
    - [VideosNotFound]: 404 with error 'One or both videos not found';
    - [Processed outputId]: 200 with success true, the outputId and the
      message 'Videos processed successfully';
    - [ProcessingFailed e]: 500 with error 'Processing failed' and the message
      of [e] as details;
    - [FileNotFound]: 404 with error 'File not found';
    - [Stream filePath]: the headers of an mp4 attachment and the bytes of the
      file at [filePath] piped into the response;
    - [DownloadFailed e]: 500 with error 'Download failed'. *)
Inductive Response : Type :=
| BothRequired
| VideosNotFound
| Processed (outputId : string)
| ProcessingFailed (e : Exn)
| FileNotFound
| Stream (filePath : Fs.Place)
| DownloadFailed (e : Exn).

Definition status_code (r : Response) : Z :=
  match r with
  | Processed _ | Stream _ => 200
  | BothRequired => 400
  | VideosNotFound | FileNotFound => 404
  | ProcessingFailed _ | DownloadFailed _ => 500
  end.

(** One started command and the response object its handlers hold. *)
Record Run : Type := {
  video1Path : Fs.Place;
  video2Path : Fs.Place;
  filter : GraphSpec;
  outputPath : Fs.Path;
  responded : bool
}.

Definition respond (r : Run) : Run :=
  {| video1Path := video1Path r; video2Path := video2Path r; filter := filter r;
     outputPath := outputPath r; responded := true |}.

Inductive LogLine : Type :=
| LogProcessing (video1 video2 : Js.Value)
| LogLayout (layout audioOption : Js.Value)
| LogStarted (commandLine : string)
| LogProgress (percent : option Js.Num)
| LogComplete (outputId : string)
| LogCleaned
| LogCleanedOutput
| LogCleanupError (e : Exn)
| LogFfmpegError (e : Exn)
| LogProcessError (e : Exn)
| LogDownloading (fileId : string)
| LogDownloadError (e : Exn).

(** The store: the started commands, the read streams that are open, each
    with its path and with what it was opened on, the pending cleanups with
    the paths each closes over (two for the inputs of a command, one for a
    file that was downloaded), the two directories, the rest of the file
    system by path, and the console. *)
Record State : Type := {
  runs : gmap string Run;
  streams : list (Fs.Place * Fs.Kind);
  timers : list (list Fs.Place);
  disk : Fs.FileSystem;
  elsewhere : Fs.Listing;
  console : list LogLine
}.

(** The output directory is created when the module is loaded. *)
Definition initial : State :=
  {| runs := ∅; streams := []; timers := [];
     disk := {| Fs.uploads := None; Fs.output := Some [] |}; elsewhere := [];
     console := [] |}.

Definition with_runs (f : gmap string Run -> gmap string Run) (st : State) : State :=
  {| runs := f (runs st); streams := streams st; timers := timers st;
     disk := disk st; elsewhere := elsewhere st; console := console st |}.

Definition with_streams (f : list (Fs.Place * Fs.Kind) -> list (Fs.Place * Fs.Kind))
    (st : State) : State :=
  {| runs := runs st; streams := f (streams st); timers := timers st;
     disk := disk st; elsewhere := elsewhere st; console := console st |}.

Definition with_timers (f : list (list Fs.Place) -> list (list Fs.Place)) (st : State) : State :=
  {| runs := runs st; streams := streams st; timers := f (timers st);
     disk := disk st; elsewhere := elsewhere st; console := console st |}.

Definition with_disk (f : Fs.FileSystem -> Fs.FileSystem) (st : State) : State :=
  {| runs := runs st; streams := streams st; timers := timers st;
     disk := f (disk st); elsewhere := elsewhere st; console := console st |}.

Definition with_elsewhere (f : Fs.Listing -> Fs.Listing) (st : State) : State :=
  {| runs := runs st; streams := streams st; timers := timers st;
     disk := disk st; elsewhere := f (elsewhere st); console := console st |}.

Definition log (line : LogLine) : M State unit :=
  modify (fun st =>
    {| runs := runs st; streams := streams st; timers := timers st;
       disk := disk st; elsewhere := elsewhere st;
       console := (console st ++ [line])%list |}).

Definition unlink (p : Fs.Path) : M State unit :=
  fun st =>
    match Fs.unlinkSync (disk st) p with
    | Normal fs' => (Normal tt, with_disk (fun _ => fs') st)
    | Throw e => (Throw e, st)
    end.

(** [fs.unlinkSync] of a joined path, wherever it leads. *)
Definition unlink_at (pl : Fs.Place) : M State unit :=
  match pl with
  | Fs.Entry p => unlink p
  | Fs.Other _ _ =>
      fun st =>
        match Fs.unlink_elsewhere (disk st) (elsewhere st) pl with
        | Normal rest => (Normal tt, with_elsewhere (fun _ => rest) st)
        | Throw e => (Throw e, st)
        end
  end.

(** [if (fs.existsSync(p)) fs.unlinkSync(p)] *)
Definition unlink_at_if_exists (pl : Fs.Place) : M State unit :=
  let* st := get in when (Fs.exists_at (disk st) (elsewhere st) pl) (unlink_at pl).

(** [layout === text] *)
Definition strict_eq_text (v : Js.Value) (text : string) : bool :=
  match v with
  | Js.Str s => String.eqb s text
  | _ => false
  end.

Definition side_by_side : GraphSpec :=
  [ Scale "0:v" HalfIw Ih false "left";
    Scale "1:v" HalfIw Ih false "right";
    Hstack "left" "right" "v";
    Amix "0:a" "1:a" Shortest "a" ].

Definition stacked : GraphSpec :=
  [ Scale "0:v" Iw HalfIh false "top";
    Scale "1:v" Iw HalfIh false "bottom";
    Vstack "top" "bottom" "v";
    Amix "0:a" "1:a" Shortest "a" ].

Definition sequential : GraphSpec :=
  [ Concat "0:v" "0:a" "1:v" "1:a" "v" "a" ].

(** The [if / else if / else] on the layout. *)
Definition complexFilter (layout : Js.Value) : GraphSpec :=
  if strict_eq_text layout "sidebyside" then side_by_side
  else if strict_eq_text layout "stacked" then stacked
  else sequential.

(** [path.join('./uploads', id)] *)
Definition path_join (d : Fs.Dir) (id : Js.Value) : Completion Fs.Place :=
  match id with
  | Js.Str s => Normal (Fs.join d s)
  | _ =>
      Throw (TypeError ("The " ++ dq ++ "path" ++ dq
                        ++ " argument must be of type string. Received " ++ Js.received id))
  end.

(** The handler of [POST /process] up to its return.  [None]: it returned
    without writing a response; the handlers of the started command hold the
    response object.  [uuid] is what [uuidv4()] returned, a file name: the
    output path is the entry of that name. *)
Definition process (body : ProcessBody) (uuid : string) : M State (option Response) :=
  try_catch
    (let audioOption :=
       match audioOption body with Js.Undefined => Js.Str "mixed" | v => v end in
     if negb (Js.truthy (video1 body)) || negb (Js.truthy (video2 body)) then
       ret (Some BothRequired)
     else
       let* video1Path := lift (path_join Fs.Uploads (video1 body)) in
       let* video2Path := lift (path_join Fs.Uploads (video2 body)) in
       let* st := get in
       if negb (Fs.exists_at (disk st) (elsewhere st) video1Path)
          || negb (Fs.exists_at (disk st) (elsewhere st) video2Path) then
         ret (Some VideosNotFound)
       else
         let outputId := uuid ++ ".mp4" in
         let outputPath := {| Fs.dir := Fs.Output; Fs.base := outputId |} in
         let* _ := log (LogProcessing (video1 body) (video2 body)) in
         let* _ := log (LogLayout (layout body) audioOption) in
         let* _ := modify (with_runs (fun rs =>
           <[outputId := {| video1Path := video1Path; video2Path := video2Path;
                            filter := complexFilter (layout body);
                            outputPath := outputPath; responded := false |}]> rs)) in
         ret None)
    (fun error =>
       let* _ := log (LogProcessError error) in
       ret (Some (ProcessingFailed error))).

Definition on_command (outputId : string) (handler : Run -> M State (option Response))
    : M State (option Response) :=
  let* st := get in
  match runs st !! outputId with
  | Some run => handler run
  | None => ret None
  end.

(** [res.json(...)] on the response object of a command: the first call
    answers the request, a second one throws. *)
Definition res_json (outputId : string) (run : Run) (r : Response) : M State (option Response) :=
  if responded run then throw HeadersSent
  else
    let* _ := modify (with_runs (fun rs => <[outputId := respond run]> rs)) in
    ret (Some r).

(** [.on('end', ...)]: the response, then the deferred input cleanup. *)
Definition on_end (outputId : string) : M State (option Response) :=
  on_command outputId (fun run =>
    let* _ := log (LogComplete outputId) in
    let* r := res_json outputId run (Processed outputId) in
    let* _ := modify (with_timers (fun ts =>
      (ts ++ [[video1Path run; video2Path run]])%list)) in
    ret r).

(** [.on('error', ...)] *)
Definition on_error (outputId : string) (reason : string) : M State (option Response) :=
  on_command outputId (fun run =>
    let err := EngineError reason in
    let* _ := log (LogFfmpegError err) in
    res_json outputId run (ProcessingFailed err)).

(** [GET /download/:fileId].  The handler answers 404 or opens a read
    stream on the joined path and pipes it into the response.  On a regular
    file that is the answer.  On a directory the stream opens and its first
    read fails; nothing has been written to the response then, and the
    handler has returned. *)
Definition download (fileId : string) : M State (option Response) :=
  try_catch
    (let filePath := Fs.join Fs.Output fileId in
     let* st := get in
     match Fs.kind_at (disk st) (elsewhere st) filePath with
     | None => ret (Some FileNotFound)
     | Some opened =>
         let* _ := log (LogDownloading fileId) in
         let* _ := modify (with_streams (fun ss => (ss ++ [(filePath, opened)])%list)) in
         match opened with
         | Fs.RegularFile => ret (Some (Stream filePath))
         | Fs.Directory => ret None
         end
     end)
    (fun error =>
       let* _ := log (LogDownloadError error) in
       ret (Some (DownloadFailed error))).

Definition drop_nth {A} (n : nat) (l : list A) : list A :=
  (firstn n l ++ skipn (S n) l)%list.

(** A read stream comes to its end.  The stream of a file emits [end], and
    the handler of that event schedules the cleanup of the file.  The stream
    of a directory emits [error] instead; nothing listens for it, so it is
    thrown. *)
Definition on_stream_end (index : nat) : M State (option Response) :=
  let* st := get in
  match nth_error (streams st) index with
  | Some (filePath, Fs.RegularFile) =>
      let* _ := modify (with_streams (drop_nth index)) in
      let* _ := modify (with_timers (fun ts => (ts ++ [[filePath]])%list)) in
      ret None
  | Some (filePath, Fs.Directory) =>
      let* _ := modify (with_streams (drop_nth index)) in
      throw (ErrnoException "EISDIR" "read" "")
  | None => ret None
  end.

(** The callbacks of the two five-minute [setTimeout]s.  The one set when a
    command ended closes over the two input paths, tries both and then logs;
    the one set when a download ended closes over one path, and logs only
    when it deleted the file. *)
Definition cleanup (paths : list Fs.Place) : M State unit :=
  try_catch
    match paths with
    | [filePath] =>
        let* st := get in
        when (Fs.exists_at (disk st) (elsewhere st) filePath)
          (let* _ := unlink_at filePath in log LogCleanedOutput)
    | _ =>
        let* _ := forEach unlink_at_if_exists paths in log LogCleaned
    end
    (fun err => log (LogCleanupError err)).

Definition fire_cleanup (index : nat) : M State (option Response) :=
  let* st := get in
  match nth_error (timers st) index with
  | Some paths =>
      let* _ := modify (with_timers (drop_nth index)) in
      let* _ := cleanup paths in
      ret None
  | None => ret None
  end.

(** Something outside the service creates or rewrites a file. *)
Definition written (pl : Fs.Place) (stats : Fs.Stats) (st : State) : State :=
  {| runs := runs st; streams := streams st; timers := timers st;
     disk := match pl with
             | Fs.Entry p => Fs.write (disk st) p stats
             | Fs.Other _ _ => disk st
             end;
     elsewhere := match pl with
                  | Fs.Entry _ => elsewhere st
                  | Fs.Other _ _ => Fs.write_elsewhere (elsewhere st) pl stats
                  end;
     console := console st |}.

Inductive Event : Type :=
| PostProcess (body : ProcessBody) (uuid : string)
| FfmpegStart (outputId : string) (commandLine : string)
| FfmpegProgress (outputId : string) (percent : option Js.Num)
| FfmpegEnd (outputId : string)
| FfmpegError (outputId : string) (reason : string)
| GetDownload (fileId : string)
| StreamEnd (index : nat)
| CleanupTimer (index : nat)
| FileWritten (p : Fs.Place) (st : Fs.Stats).

Inductive Outcome : Type :=
| Replied (r : Response)
| Quiet
| Uncaught (e : Exn).

Definition run_callback (body : M State (option Response)) (st : State) : Outcome * State :=
  match body st with
  | (Normal (Some r), st') => (Replied r, st')
  | (Normal None, st') => (Quiet, st')
  | (Throw e, st') => (Uncaught e, st')
  end.

Definition step (st : State) (ev : Event) : Outcome * State :=
  match ev with
  | PostProcess body uuid => run_callback (process body uuid) st
  | FfmpegStart outputId commandLine =>
      run_callback (on_command outputId (fun _ =>
        let* _ := log (LogStarted commandLine) in ret None)) st
  | FfmpegProgress outputId percent =>
      run_callback (on_command outputId (fun _ =>
        let* _ := log (LogProgress percent) in ret None)) st
  | FfmpegEnd outputId => run_callback (on_end outputId) st
  | FfmpegError outputId reason => run_callback (on_error outputId reason) st
  | GetDownload fileId => run_callback (download fileId) st
  | StreamEnd index => run_callback (on_stream_end index) st
  | CleanupTimer index => run_callback (fire_cleanup index) st
  | FileWritten p stats => (Quiet, written p stats st)
  end.

Definition run_events (st : State) (evs : list Event) : State :=
  fold_left (fun s ev => snd (step s ev)) evs st.

End SyncApi.


(* ===================================================================== *)
(** ** How a graph is wired to the command around it *)
(* ===================================================================== *)

Module Wiring.

Import Graph.

(** The pads a chain reads and the pads it writes. *)
Definition inputs_of (f : Filter) : list string :=
  match f with
  | Scale src _ _ _ _ => [src]
  | Hstack a b _ | Vstack a b _ | Amix a b _ _ => [a; b]
  | Concat v0 a0 v1 a1 _ _ => [v0; a0; v1; a1]
  end.

Definition outputs_of (f : Filter) : list string :=
  match f with
  | Scale _ _ _ _ dst | Hstack _ _ dst | Vstack _ _ dst | Amix _ _ _ dst => [dst]
  | Concat _ _ _ _ dstv dsta => [dstv; dsta]
  end.

(** Takes one pad out of the pads that are still unconnected. *)
Fixpoint take (label : string) (free : list string) : option (list string) :=
  match free with
  | [] => None
  | l :: rest =>
      if String.eqb label l then Some rest
      else match take label rest with
           | Some rest' => Some (l :: rest')
           | None => None
           end
  end.

Fixpoint take_all (labels : list string) (free : list string) : option (list string) :=
  match labels with
  | [] => Some free
  | l :: rest =>
      match take l free with
      | Some free' => take_all rest free'
      | None => None
      end
  end.

(** Runs through the chains of a graph in order: every pad a chain reads
    must be unconnected at that point and is connected by it, every pad it
    writes must be new.  The result is the list of pads left unconnected, or
    [None] when a chain reads a pad that is not there or writes one twice. *)
Fixpoint connect (g : GraphSpec) (free : list string) : option (list string) :=
  match g with
  | [] => Some free
  | f :: rest =>
      match take_all (inputs_of f) free with
      | Some free' =>
          if existsb (fun l => existsb (String.eqb l) free') (outputs_of f) then None
          else connect rest (free' ++ outputs_of f)%list
      | None => None
      end
  end.

(** The streams of the two inputs of a command. *)
Definition input_streams : list string := ["0:v"; "0:a"; "1:v"; "1:a"].

(** The pads the job-based service maps into the output file with
    [.map('[outv]').map('[outa]')]. *)
Definition job_mapped : list string := ["outv"; "outa"].

(** The pads [src/server.js] maps with the output options [-map [v]] and
    [-map [a]], the same in its three branches. *)
Definition sync_mapped : list string := ["v"; "a"].

End Wiring.
(* ===================================================================== *)
(** ** Sample instances used to run the model *)
(* ===================================================================== *)

(** Lower-casing of the letters A to Z, enough to run requests written in
    ASCII; the results below hold for any [toLowerCase]. *)
Definition ascii_lower_char (c : Ascii.ascii) : Ascii.ascii :=
  let n := Ascii.nat_of_ascii c in
  if (65 <=? n)%nat && (n <=? 90)%nat then Ascii.ascii_of_nat (n + 32) else c.

Fixpoint ascii_lower (s : string) : string :=
  match s with
  | EmptyString => EmptyString
  | String c rest => String (ascii_lower_char c) (ascii_lower rest)
  end.

(** A file last written at time 0. *)
Definition old_file : Fs.Stats := {| Fs.mtimeMs := 0; Fs.kind := Fs.RegularFile |}.
Definition old_directory : Fs.Stats := {| Fs.mtimeMs := 0; Fs.kind := Fs.Directory |}.


(** A request of the job-based service for two uploaded files. *)
Definition job_body (layout settings : Js.Value) : JobApi.ProcessBody :=
  {| JobApi.video1Id := Js.Str "a.mp4"; JobApi.video2Id := Js.Str "b.mp4";
     JobApi.layout := layout; JobApi.settings := settings |}.

(** The same request for [src/server.js]. *)
Definition sync_body (layout audioOption : Js.Value) : SyncApi.ProcessBody :=
  {| SyncApi.video1 := Js.Str "a.mp4"; SyncApi.video2 := Js.Str "b.mp4";
     SyncApi.layout := layout; SyncApi.audioOption := audioOption |}.

Definition upload_a : Fs.Path := {| Fs.dir := Fs.Uploads; Fs.base := "a.mp4" |}.
Definition upload_b : Fs.Path := {| Fs.dir := Fs.Uploads; Fs.base := "b.mp4" |}.
Definition fresh_file (t : Z) : Fs.Stats := {| Fs.mtimeMs := t; Fs.kind := Fs.RegularFile |}.

(** [src/server.js] after the two files were uploaded at time 1000. *)
Definition sync_uploaded : SyncApi.State :=
  SyncApi.run_events SyncApi.initial
    [ SyncApi.FileWritten upload_a (fresh_file 1000);
      SyncApi.FileWritten upload_b (fresh_file 1000) ].

(** The job-based service after the same uploads. *)
Definition job_uploaded : JobApi.State :=
  JobApi.run_events ascii_lower JobApi.initial
    [ JobApi.FileWritten upload_a (fresh_file 1000);
      JobApi.FileWritten upload_b (fresh_file 1000) ].

(** The job-based service with one composition under way: job j1 was
    accepted at time 2000 and the engine reported 40 percent. *)
Definition job_running : JobApi.State :=
  JobApi.run_events ascii_lower job_uploaded
    [ JobApi.PostProcess (job_body (Js.Str "Stacked") Js.Undefined) "j1" 2000 2001;
      JobApi.FfmpegProgress "j1" (Some (Js.Fin (40 # 1))) ].

Definition run_j1 : JobApi.Run :=
  {| JobApi.video1Path := upload_a; JobApi.video2Path := upload_b;
     JobApi.filter := JobApi.stacked;
     JobApi.outputPath := {| Fs.dir := Fs.Output; Fs.base := "j1.mp4" |};
     JobApi.settled := false |}.

(** [src/server.js] in the middle of a composition: the request for j1 was
    taken, the engine has begun to write the output file, and neither [end]
    nor [error] has come. *)
Definition sync_composing : SyncApi.State :=
  SyncApi.run_events sync_uploaded
    [ SyncApi.PostProcess (sync_body (Js.Str "sidebyside") Js.Undefined) "j1";
      SyncApi.FileWritten {| Fs.dir := Fs.Output; Fs.base := "j1.mp4" |} (fresh_file 3000) ].

(** The job-based service with three entries written at time 0: a directory
    and a file under uploads, a file under output. *)
Definition job_stale : JobApi.State :=
  JobApi.run_events ascii_lower JobApi.initial
    [ JobApi.FileWritten {| Fs.dir := Fs.Uploads; Fs.base := "tmp" |} old_directory;
      JobApi.FileWritten {| Fs.dir := Fs.Uploads; Fs.base := "stale.mp4" |} old_file;
      JobApi.FileWritten {| Fs.dir := Fs.Output; Fs.base := "stale-out.mp4" |} old_file ].

(** The job-based service after the composition of j1 ended at time 9000. *)
Definition job_done : JobApi.State :=
  JobApi.run_events ascii_lower job_running [ JobApi.FfmpegEnd "j1" 9000 ].

(** The job-based service a little before the sweep of the next day: j1 has
    completed, its output is on the disk, and j2 was accepted late. *)
Definition job_next_day : JobApi.State :=
  JobApi.run_events ascii_lower job_done
    [ JobApi.FileWritten {| Fs.dir := Fs.Output; Fs.base := "j1.mp4" |} (fresh_file 8999);
      JobApi.FileWritten {| Fs.dir := Fs.Uploads; Fs.base := "c.mp4" |} (fresh_file 80000000);
      JobApi.PostProcess (job_body (Js.Str "Stacked") Js.Undefined) "j2" 80000000 80000001 ].

(** The job-based service after a request whose first identifier climbs out
    of the upload directory: a result keep.mp4 written at time 1500, the
    request for job j9 naming it as its first input, and the end of the
    composition at time 9000. *)
Definition job_climbing : JobApi.State :=
  JobApi.run_events ascii_lower job_uploaded
    [ JobApi.FileWritten {| Fs.dir := Fs.Output; Fs.base := "keep.mp4" |} (fresh_file 1500);
      JobApi.PostProcess
        {| JobApi.video1Id := Js.Str "../output/keep.mp4"; JobApi.video2Id := Js.Str "b.mp4";
           JobApi.layout := Js.Str "stacked"; JobApi.settings := Js.Undefined |}
        "j9" 2000 2001;
      JobApi.FfmpegEnd "j9" 9000 ].

(* ===================================================================== *)
(** ** Vocabulary of the properties *)
(* ===================================================================== *)

(** An identifier that is present and usable: a string that is not empty. *)
Definition is_identifier (v : Js.Value) : Prop :=
  exists s, v = Js.Str s /\ s <> "".

(** A request body of the job-based service with both identifiers. *)
Definition job_request_well_formed (body : JobApi.ProcessBody) : Prop :=
  is_identifier (JobApi.video1Id body) /\ is_identifier (JobApi.video2Id body).


(** What a status query shows of the progress of a job. *)
Definition observed_progress (toLowerCase : string -> string)
    (st : JobApi.State) (jobId : string) : option Js.Num :=
  match fst (JobApi.step toLowerCase st (JobApi.GetJob jobId)) with
  | JobApi.Replied (JobApi.JobSnapshot job) => JobApi.progress job
  | _ => None
  end.

(** What a status query shows of the status of a job. *)
Definition observed_status (toLowerCase : string -> string)
    (st : JobApi.State) (jobId : string) : option JobApi.Status :=
  match fst (JobApi.step toLowerCase st (JobApi.GetJob jobId)) with
  | JobApi.Replied (JobApi.JobSnapshot job) => Some (JobApi.status job)
  | _ => None
  end.

(** The progress a status query shows after each event of a sequence. *)
Fixpoint progress_seen (toLowerCase : string -> string)
    (st : JobApi.State) (jobId : string) (evs : list JobApi.Event) : list (option Js.Num) :=
  match evs with
  | [] => []
  | ev :: rest =>
      let st' := snd (JobApi.step toLowerCase st ev) in
      observed_progress toLowerCase st' jobId :: progress_seen toLowerCase st' jobId rest
  end.

(** An integer between 0 and 100. *)
Definition is_percentage (n : option Js.Num) : Prop :=
  exists z, n = Some (Js.of_Z z) /\ (0 <= z <= 100)%Z.

(** Order on progress values; only finite numbers compare. *)
Definition progress_le (a b : option Js.Num) : Prop :=
  match a, b with
  | Some (Js.Fin x), Some (Js.Fin y) => (x <= y)%Q
  | _, _ => False
  end.

(** Each element is at most the next one. *)
Fixpoint nondecreasing {A} (le : A -> A -> Prop) (l : list A) : Prop :=
  match l with
  | a :: (b :: _) as rest => le a b /\ nondecreasing le rest
  | _ => True
  end.

(** The [progress] events of one job, one per reported percent. *)
Definition progress_events (jobId : string) (percents : list (option Js.Num))
    : list JobApi.Event :=
  map (JobApi.FfmpegProgress jobId) percents.

(** Exactly one of three propositions holds. *)
Definition exactly_one (P Q R : Prop) : Prop :=
  (P /\ ~ Q /\ ~ R) \/ (~ P /\ Q /\ ~ R) \/ (~ P /\ ~ Q /\ R).

(** A record whose optional properties agree with its status. *)
Definition well_shaped (job : JobApi.Job) : Prop :=
  match JobApi.status job with
  | JobApi.processing => JobApi.outputUrl job = None /\ JobApi.error job = None
  | JobApi.completed => JobApi.outputUrl job <> None /\ JobApi.error job = None
  | JobApi.failed => JobApi.error job <> None /\ JobApi.outputUrl job = None
  end.

(** What the service holds about one identifier: its record in the job
    table and the command started for it. *)
Definition job_view (st : JobApi.State) (id : string) : option JobApi.Job * option JobApi.Run :=
  (JobApi.jobs_get id (JobApi.jobs st), JobApi.runs st !! id).

(** Everything one step can do to what the service holds about one
    identifier. *)
Inductive job_transition (id : string) :
    option JobApi.Job * option JobApi.Run -> option JobApi.Job * option JobApi.Run -> Prop :=
| jt_same v :
    job_transition id v v
| jt_swept job r :
    job_transition id (Some job, r) (None, r)
| jt_accepted now run :
    JobApi.settled run = false ->
    job_transition id (None, None) (Some (JobApi.processing_job now), Some run)
| jt_rejected_at_once e now :
    job_transition id (None, None) (Some (JobApi.failed_job e now), None)
| jt_progress job run percent :
    job_transition id (Some job, Some run) (Some (JobApi.set_progress job percent), Some run)
| jt_completed o run now :
    JobApi.settled run = false ->
    job_transition id (o, Some run)
      (Some (JobApi.completed_job id now), Some (JobApi.settle run))
| jt_failed o run reason now :
    JobApi.settled run = false ->
    job_transition id (o, Some run)
      (Some (JobApi.failed_job (EngineError reason) now), Some (JobApi.settle run)).

(** The invariant of the job table: every record is well shaped, and the
    promise of a job that reached a terminal status is settled. *)
Definition table_invariant (st : JobApi.State) : Prop :=
  forall id job,
    JobApi.jobs_get id (JobApi.jobs st) = Some job ->
    well_shaped job
    /\ (JobApi.status job <> JobApi.processing ->
        forall run, JobApi.runs st !! id = Some run -> JobApi.settled run = true).

(** A step that starts no command, settles none, and at most removes
    records from the job table. *)
Definition table_shrinks (st st' : JobApi.State) : Prop :=
  JobApi.runs st' = JobApi.runs st
  /\ forall id,
       JobApi.jobs_get id (JobApi.jobs st') = None
       \/ JobApi.jobs_get id (JobApi.jobs st') = JobApi.jobs_get id (JobApi.jobs st).

(** A callback body all of whose runs, normal or not, relate the store
    before to the store after. *)
Definition keeps {S A} (R : S -> S -> Prop) (m : M S A) : Prop :=
  forall s, R s (snd (m s)).

(** Every request of a sequence of events draws a fresh identifier. *)
Fixpoint fresh_trace (toLowerCase : string -> string)
    (st : JobApi.State) (evs : list JobApi.Event) : Prop :=
  match evs with
  | [] => True
  | ev :: rest =>
      JobApi.fresh_uuid st ev
      /\ fresh_trace toLowerCase (snd (JobApi.step toLowerCase st ev)) rest
  end.

(** A disk on which [unlinkSync] refuses nothing: in both directories the
    names are distinct file names and every entry is a regular file. *)
Definition all_regular (fs : Fs.FileSystem) : Prop :=
  forall d l,
    Fs.listing fs d = Some l ->
    List.NoDup (map fst l)
    /\ Forall (fun entry => Fs.kind (snd entry) = Fs.RegularFile) l
    /\ Forall (fun entry => Fs.is_name (fst entry) = true) l.

(** A callback body that, from a store with the property [I], ends normally
    in a store with that property. *)
Definition safe {S A} (I : S -> Prop) (m : M S A) : Prop :=
  forall s, I s -> exists a s', m s = (Normal a, s') /\ I s'.

(* ===================================================================== *)
(** ** Vocabulary of the further properties *)
(* ===================================================================== *)

(** The keys of the job table are distinct, as the keys of a Map are. *)
Definition distinct_keys (t : JobApi.JobTable) : Prop := List.NoDup (map fst t).

(** An entry as old as the directory scan of the sweep deletes. *)
Definition expired (now : Z) (stats : Fs.Stats) : bool :=
  (JobApi.maxAge <? now - Fs.mtimeMs stats)%Z.

(** A record as old as the first loop of the sweep deletes. *)
Definition job_expired (now : Z) (job : JobApi.Job) : bool :=
  JobApi.too_old (JobApi.job_age now job).

(** Some entry of the table under the key [id] is as old as that. *)
Definition reaped (now : Z) (t : JobApi.JobTable) (id : string) : bool :=
  existsb (fun kj => job_expired now (snd kj) && String.eqb (fst kj) id) t.

(** [name] is the name of the output file of such an entry. *)
Definition reaped_output (now : Z) (t : JobApi.JobTable) (name : string) : bool :=
  existsb (fun kj => job_expired now (snd kj) && String.eqb (fst kj ++ ".mp4") name) t.

(** A listing without the entries called [name]. *)
Definition without (name : string) (l : Fs.Listing) : Fs.Listing :=
  List.filter (fun entry => negb (String.eqb name (fst entry))) l.

(** The disk without the entry at [p]. *)
Definition erase (p : Fs.Path) (fs : Fs.FileSystem) : Fs.FileSystem :=
  match Fs.dir p with
  | Fs.Uploads =>
      {| Fs.uploads := without (Fs.base p) <$> Fs.uploads fs; Fs.output := Fs.output fs |}
  | Fs.Output =>
      {| Fs.uploads := Fs.uploads fs; Fs.output := without (Fs.base p) <$> Fs.output fs |}
  end.

(** The disk a sweep at time [now] leaves when it runs to its end over the
    job table [t]: everything older than the window is gone from both
    directories, and so are the output files of the records it removed. *)
Definition swept (now : Z) (t : JobApi.JobTable) (fs : Fs.FileSystem) : Fs.FileSystem :=
  {| Fs.uploads :=
       List.filter (fun entry => negb (expired now (snd entry))) <$> Fs.uploads fs;
     Fs.output :=
       List.filter (fun entry => negb (reaped_output now t (fst entry))
                                 && negb (expired now (snd entry)))
       <$> Fs.output fs |}.

(** Two stores that differ at most in the disk and the console. *)
Definition same_tables (st st' : JobApi.State) : Prop :=
  JobApi.jobs st' = JobApi.jobs st
  /\ JobApi.runs st' = JobApi.runs st
  /\ JobApi.timers st' = JobApi.timers st.

(** The job an event is about, if it is about one. *)
Definition event_job (ev : JobApi.Event) : option string :=
  match ev with
  | JobApi.PostProcess _ uuid _ _ => Some uuid
  | JobApi.FfmpegStart jobId _ | JobApi.FfmpegProgress jobId _
  | JobApi.FfmpegEnd jobId _ | JobApi.FfmpegError jobId _ _ => Some jobId
  | _ => None
  end.

(* ===================================================================== *)
(** ** Records, commands and timers of the job-based service *)
(* ===================================================================== *)

(** The file the command of the job [id] writes. *)
Definition output_of (id : string) : Fs.Path :=
  {| Fs.dir := Fs.Output; Fs.base := id ++ ".mp4" |}.

(** An entry of the output directory. *)
Definition result (name : string) : Fs.Path := {| Fs.dir := Fs.Output; Fs.base := name |}.

(** Every started command writes the output file of its own job. *)
Definition command_paths (st : JobApi.State) : Prop :=
  forall id run,
    JobApi.runs st !! id = Some run -> JobApi.outputPath run = output_of id.

(** The status of a record agrees with the promise of the command [r] of
    its job: pending while the record says processing, settled once it says
    completed or failed; a completed record has a command, and its URL names
    the output file of the job. *)
Definition follows_promise (id : string) (job : JobApi.Job) (r : option JobApi.Run) : Prop :=
  match JobApi.status job with
  | JobApi.processing => exists run, r = Some run /\ JobApi.settled run = false
  | JobApi.completed =>
      (exists run, r = Some run /\ JobApi.settled run = true)
      /\ JobApi.outputUrl job = Some ("/output/" ++ id ++ ".mp4")
  | JobApi.failed => forall run, r = Some run -> JobApi.settled run = true
  end.

(** Two stores that hold the same under the name [name] of the output
    directory. *)
Definition same_result (name : string) (st st' : JobApi.State) : Prop :=
  Fs.lookup (JobApi.disk st') (result name) = Fs.lookup (JobApi.disk st) (result name).

(** A joined path that cannot be the result [name]: an entry of the two
    directories other than that one, or a path that stays below the working
    directory and is no entry of the two.  A path that climbs above the
    working directory is left out: it may come back into it under the
    directory's own name, which the code does not know. *)
Definition spares (name : string) (pl : Fs.Place) : Prop :=
  match pl with
  | Fs.Entry p => p <> result name
  | Fs.Other segments _ => hd_error segments <> Some ".."
  end.

(** The request [ev] of [src/server.js] starts the command called
    [outputId]. *)
Definition sync_draws (outputId : string) (ev : SyncApi.Event) : Prop :=
  match ev with
  | SyncApi.PostProcess _ uuid => uuid ++ ".mp4" = outputId
  | _ => False
  end.

(** [ev] is the [end] or an [error] of the command called [outputId]. *)
Definition sync_finishes (outputId : string) (ev : SyncApi.Event) : Prop :=
  match ev with
  | SyncApi.FfmpegEnd k | SyncApi.FfmpegError k _ => k = outputId
  | _ => False
  end.

(** What the [end] or an [error] of a command answers to the request that
    started the command, when it is the first of them. *)
Definition sync_answer (ev : SyncApi.Event) : SyncApi.Outcome :=
  match ev with
  | SyncApi.FfmpegEnd k => SyncApi.Replied (SyncApi.Processed k)
  | SyncApi.FfmpegError _ reason =>
      SyncApi.Replied (SyncApi.ProcessingFailed (EngineError reason))
  | _ => SyncApi.Quiet
  end.

(** Two stores of [src/server.js] with the same commands, streams and
    timers. *)
Definition sync_same_tables (s s' : SyncApi.State) : Prop :=
  SyncApi.runs s' = SyncApi.runs s
  /\ SyncApi.streams s' = SyncApi.streams s
  /\ SyncApi.timers s' = SyncApi.timers s.
(* ===================================================================== *)
(** ** Text of the graphs *)
(* ===================================================================== *)

Example job_side_by_side_text :
  Graph.render_template JobApi.side_by_side =
  "[0:v]scale=960:1080,setsar=1[v1];
                    [1:v]scale=960:1080,setsar=1[v2];
                    [v1][v2]hstack=inputs=2[outv];
                    [0:a][1:a]amix=inputs=2:duration=longest[outa]".
Proof. reflexivity. Qed.

Example job_stacked_text :
  Graph.render_template JobApi.stacked =
  "[0:v]scale=1920:540,setsar=1[v1];
                    [1:v]scale=1920:540,setsar=1[v2];
                    [v1][v2]vstack=inputs=2[outv];
                    [0:a][1:a]amix=inputs=2:duration=longest[outa]".
Proof. reflexivity. Qed.

Example job_sequential_text :
  Graph.render_template JobApi.sequential =
  "[0:v][0:a][1:v][1:a]concat=n=2:v=1:a=1[outv][outa]".
Proof. reflexivity. Qed.

Example sync_side_by_side_text :
  Graph.render SyncApi.side_by_side =
  [ "[0:v]scale=iw/2:ih[left]";
    "[1:v]scale=iw/2:ih[right]";
    "[left][right]hstack=inputs=2[v]";
    "[0:a][1:a]amix=inputs=2:duration=shortest[a]" ].
Proof. reflexivity. Qed.

Example sync_stacked_text :
  Graph.render SyncApi.stacked =
  [ "[0:v]scale=iw:ih/2[top]";
    "[1:v]scale=iw:ih/2[bottom]";
    "[top][bottom]vstack=inputs=2[v]";
    "[0:a][1:a]amix=inputs=2:duration=shortest[a]" ].
Proof. reflexivity. Qed.

Example sync_sequential_text :
  Graph.render SyncApi.sequential =
  [ "[0:v][0:a][1:v][1:a]concat=n=2:v=1:a=1[v][a]" ].
Proof. reflexivity. Qed.

(* ===================================================================== *)
(** ** The model at work *)
(* ===================================================================== *)

(** A layout nobody knows gets the sequential graph in both services. *)
Example diagonal_is_sequential :
  JobApi.filterComplex ascii_lower (Js.Str "diagonal") Js.Undefined
    = JobApi.filterComplex ascii_lower (Js.Str "Sequential") Js.Undefined
  /\ JobApi.filterComplex ascii_lower (Js.Str "diagonal") Js.Undefined
     = Normal JobApi.sequential
  /\ SyncApi.complexFilter (Js.Str "diagonal") = SyncApi.sequential.
Proof. repeat split; reflexivity. Qed.

(** The job-based service lower-cases the layout before it compares;
    [src/server.js] compares the text as it is, and the two do not share the
    name of the side-by-side layout. *)
Example layout_names :
  JobApi.filterComplex ascii_lower (Js.Str "Side By Side") Js.Undefined
    = Normal JobApi.side_by_side
  /\ JobApi.filterComplex ascii_lower (Js.Str "sidebyside") Js.Undefined
     = Normal JobApi.sequential
  /\ SyncApi.complexFilter (Js.Str "sidebyside") = SyncApi.side_by_side
  /\ SyncApi.complexFilter (Js.Str "side by side") = SyncApi.sequential
  /\ SyncApi.complexFilter (Js.Str "Stacked") = SyncApi.sequential.
Proof. repeat split; reflexivity. Qed.

(** A request is accepted, the engine reports progress and ends: the status
    queries show processing, then completed with the output reference. *)
Example job_lifecycle_completed :
  fst (JobApi.step ascii_lower job_running (JobApi.GetJob "j1"))
    = JobApi.Replied (JobApi.JobSnapshot
        {| JobApi.status := JobApi.processing; JobApi.progress := Some (Js.of_Z 40);
           JobApi.startTime := Some 2000; JobApi.outputUrl := None;
           JobApi.completedTime := None; JobApi.error := None;
           JobApi.failedTime := None |})
  /\ fst (JobApi.step ascii_lower job_done (JobApi.GetJob "j1"))
     = JobApi.Replied (JobApi.JobSnapshot
         {| JobApi.status := JobApi.completed; JobApi.progress := Some (Js.of_Z 100);
            JobApi.startTime := None; JobApi.outputUrl := Some "/output/j1.mp4";
            JobApi.completedTime := Some 9000; JobApi.error := None;
            JobApi.failedTime := None |})
  /\ JobApi.timers job_done = [(upload_a, upload_b)].
Proof. repeat split; vm_compute; reflexivity. Qed.

(** The engine fails: the job is failed with the engine's message and has no
    output reference; it stays in the table. *)
Example job_lifecycle_failed :
  let st := JobApi.run_events ascii_lower job_running
              [ JobApi.FfmpegError "j1" "engine exit code 1" 9000 ] in
  fst (JobApi.step ascii_lower st (JobApi.GetJob "j1"))
    = JobApi.Replied (JobApi.JobSnapshot
        {| JobApi.status := JobApi.failed; JobApi.progress := None;
           JobApi.startTime := None; JobApi.outputUrl := None;
           JobApi.completedTime := None; JobApi.error := Some "engine exit code 1";
           JobApi.failedTime := Some 9000 |})
  /\ fst (JobApi.step ascii_lower st (JobApi.GetDownload "j1"))
     = JobApi.Replied JobApi.VideoNotReady.
Proof. repeat split; vm_compute; reflexivity. Qed.

(** An identifier that is not a string passes the guard of the handler and
    makes [path.join] throw: the job-based service answers 500 through
    Express, [src/server.js] through its own handler, and neither starts
    anything. *)
Example numeric_identifier :
  let body := {| JobApi.video1Id := Js.Number (Js.of_Z 7); JobApi.video2Id := Js.Str "b.mp4";
                 JobApi.layout := Js.Undefined; JobApi.settings := Js.Undefined |} in
  let body' := {| SyncApi.video1 := Js.Number (Js.of_Z 7); SyncApi.video2 := Js.Str "b.mp4";
                  SyncApi.layout := Js.Undefined; SyncApi.audioOption := Js.Undefined |} in
  JobApi.status_code <$>
    match fst (JobApi.step ascii_lower job_uploaded (JobApi.PostProcess body "j1" 2000 2001)) with
    | JobApi.Replied r => Some r
    | _ => None
    end = Some 500
  /\ snd (JobApi.step ascii_lower job_uploaded (JobApi.PostProcess body "j1" 2000 2001))
     = job_uploaded
  /\ SyncApi.status_code <$>
       match fst (SyncApi.step sync_uploaded (SyncApi.PostProcess body' "j1")) with
       | SyncApi.Replied r => Some r
       | _ => None
       end = Some 500
  /\ SyncApi.runs (snd (SyncApi.step sync_uploaded (SyncApi.PostProcess body' "j1"))) = ∅.
Proof. repeat split; vm_compute; reflexivity. Qed.

(* ===================================================================== *)
(** ** Joined paths *)
(* ===================================================================== *)

Lemma split_without_separator s : Fs.has_char "/" s = false -> Fs.split s = [s].
Proof.
  induction s as [| c rest IH]; intros H; [reflexivity |].
  cbn [Fs.has_char] in H. apply orb_false_iff in H. destruct H as [Hc Hrest].
  cbn [Fs.split]. rewrite (IH Hrest). rewrite Ascii.eqb_sym, Hc. reflexivity.
Qed.

Lemma no_separator_at_end s :
  Fs.has_char "/" s = false -> Fs.ends_with_separator s = false.
Proof.
  induction s as [| c rest IH]; intros H; [reflexivity |].
  cbn [Fs.has_char] in H. apply orb_false_iff in H. destruct H as [Hc Hrest].
  cbn [Fs.ends_with_separator].
  destruct rest; [rewrite Ascii.eqb_sym; exact Hc | apply IH, Hrest].
Qed.

(** What [Fs.is_name] says, piece by piece. *)
Lemma is_name_inv s :
  Fs.is_name s = true ->
  String.eqb s "" = false /\ String.eqb s "." = false /\ String.eqb s ".." = false
  /\ Fs.has_char "/" s = false.
Proof.
  unfold Fs.is_name. rewrite !andb_true_iff, !negb_true_iff. tauto.
Qed.


Lemma split_at_separator pre rest :
  Fs.has_char "/" pre = false ->
  Fs.split (pre ++ String "/" rest) = pre :: Fs.split rest.
Proof.
  induction pre as [| c pre IH]; intros H.
  - change ("" ++ String "/" rest) with (String "/" rest). cbn [Fs.split].
    destruct (Fs.split rest) as [| seg others] eqn:E; [| reflexivity].
    destruct rest; cbn [Fs.split] in E; [discriminate |].
    destruct (Fs.split rest); [discriminate |]. destruct (Ascii.eqb a "/"); discriminate.
  - cbn [Fs.has_char] in H. apply orb_false_iff in H. destruct H as [Hc Hpre].
    change (String c pre ++ String "/" rest) with (String c (pre ++ String "/" rest)).
    cbn [Fs.split]. rewrite (IH Hpre). rewrite Ascii.eqb_sym, Hc. reflexivity.
Qed.

Lemma separator_at_end_of_append pre c rest :
  Fs.ends_with_separator (pre ++ String c rest) = Fs.ends_with_separator (String c rest).
Proof.
  induction pre as [| c' pre IH]; [reflexivity |].
  change (String c' pre ++ String c rest) with (String c' (pre ++ String c rest)).
  rewrite <- IH.
  destruct (pre ++ String c rest) eqn:E; [destruct pre; discriminate | reflexivity].
Qed.

(** An identifier that climbs out of the directory it is joined with and
    into the other one names an entry there. *)
Lemma join_above_name name :
  Fs.is_name name = true ->
  Fs.join Fs.Output ("../uploads/" ++ name)
    = Fs.Entry {| Fs.dir := Fs.Uploads; Fs.base := name |}
  /\ Fs.join Fs.Uploads ("../output/" ++ name)
     = Fs.Entry {| Fs.dir := Fs.Output; Fs.base := name |}.
Proof.
  intros H. destruct (is_name_inv name H) as (He & Hd & Hdd & Hs).
  assert (Hpush : forall seen, Fs.push seen name = name :: seen).
  { intros seen. unfold Fs.push. rewrite He, Hd, Hdd. reflexivity. }
  assert (Hsplit : forall d, Fs.has_char "/" d = false ->
            Fs.split (".." ++ String "/" (d ++ String "/" name)) = [".."; d; name]).
  { intros d Hd'. rewrite split_at_separator by reflexivity.
    rewrite split_at_separator by exact Hd'.
    rewrite (split_without_separator name Hs). reflexivity. }
  assert (Hend : forall pre, Fs.ends_with_separator (pre ++ name) = false).
  { intros pre. destruct name as [| c rest]; [discriminate He |].
    rewrite separator_at_end_of_append. exact (no_separator_at_end _ Hs). }
  unfold Fs.join. split.
  - rewrite Hend.
    change ("../uploads/" ++ name) with (".." ++ String "/" ("uploads" ++ String "/" name)).
    rewrite Hsplit by reflexivity.
    unfold Fs.normalize. cbn [fold_left Fs.dir_name].
    change (Fs.push [] ".") with (@nil string).
    change (Fs.push [] "output") with ["output"].
    change (Fs.push ["output"] "..") with (@nil string).
    change (Fs.push [] "uploads") with ["uploads"].
    rewrite Hpush. reflexivity.
  - rewrite Hend.
    change ("../output/" ++ name) with (".." ++ String "/" ("output" ++ String "/" name)).
    rewrite Hsplit by reflexivity.
    unfold Fs.normalize. cbn [fold_left Fs.dir_name].
    change (Fs.push [] ".") with (@nil string).
    change (Fs.push [] "uploads") with ["uploads"].
    change (Fs.push ["uploads"] "..") with (@nil string).
    change (Fs.push [] "output") with ["output"].
    rewrite Hpush. reflexivity.
Qed.


(** Only a file name has an entry. *)
Lemma lookup_name fs p stats : Fs.lookup fs p = Some stats -> Fs.is_name (Fs.base p) = true.
Proof. unfold Fs.lookup. destruct (Fs.is_name (Fs.base p)); [reflexivity | discriminate]. Qed.


(** The entry of a file name, in terms of the listing. *)
Lemma lookup_listing fs p :
  Fs.is_name (Fs.base p) = true ->
  Fs.lookup fs p
  = match Fs.listing fs (Fs.dir p) with
    | Some l => Fs.find (Fs.base p) l
    | None => None
    end.
Proof. intros H. unfold Fs.lookup. rewrite H. reflexivity. Qed.

(** The names [readdirSync] returns are the names of the listing, each
    once when the listing holds each once. *)
Lemma insert_name_In name x sorted :
  In x (Fs.insert_name name sorted) <-> x = name \/ In x sorted.
Proof.
  induction sorted as [| other rest IH]; simpl.
  - intuition.
  - destruct (String.leb name other); simpl; [intuition |].
    rewrite IH. intuition.
Qed.

Lemma sort_names_In x names : In x (Fs.sort_names names) <-> In x names.
Proof.
  induction names as [| name rest IH]; simpl; [reflexivity |].
  rewrite insert_name_In, IH. intuition.
Qed.

Lemma insert_name_NoDup name sorted :
  ~ In name sorted -> List.NoDup sorted -> List.NoDup (Fs.insert_name name sorted).
Proof.
  induction sorted as [| other rest IH]; intros Hnotin Hnd; simpl.
  - constructor; [intros [] | constructor].
  - destruct (String.leb name other).
    + constructor; assumption.
    + inversion Hnd as [| ? ? Hother Hrest]; subst. constructor.
      * rewrite insert_name_In. intros [-> | Hin]; [apply Hnotin; left; reflexivity |].
        contradiction.
      * apply IH; [| exact Hrest]. intros Hin. apply Hnotin. right. exact Hin.
Qed.

Lemma sort_names_NoDup names : List.NoDup names -> List.NoDup (Fs.sort_names names).
Proof.
  induction names as [| name rest IH]; intros Hnd; simpl; [constructor |].
  inversion Hnd as [| ? ? Hnotin Hrest]; subst.
  apply insert_name_NoDup; [| apply IH, Hrest].
  rewrite sort_names_In. exact Hnotin.
Qed.

(* ===================================================================== *)
(** ** Basic facts *)
(* ===================================================================== *)

Lemma truthy_identifier v : is_identifier v -> Js.truthy v = true.
Proof.
  intros (s & -> & Hs). simpl.
  destruct (String.eqb_spec s ""); [contradiction | reflexivity].
Qed.

(** A request without one of its identifiers is answered 400 by the
    job-based service and nothing at all changes. *)
Lemma job_process_falsy_id toLowerCase st body uuid now later :
  Js.truthy (JobApi.video1Id body) = false \/ Js.truthy (JobApi.video2Id body) = false ->
  JobApi.step toLowerCase st (JobApi.PostProcess body uuid now later)
  = (JobApi.Replied JobApi.MissingVideoIds, st).
Proof.
  intros H. unfold JobApi.step, JobApi.route, JobApi.api_process, bind.
  unfold JobApi.api_process_handler.
  destruct H as [-> | ->]; simpl; rewrite ?orb_true_r; reflexivity.
Qed.

(** The same for [src/server.js]. *)
Lemma sync_process_falsy_id st body uuid :
  Js.truthy (SyncApi.video1 body) = false \/ Js.truthy (SyncApi.video2 body) = false ->
  SyncApi.step st (SyncApi.PostProcess body uuid) = (SyncApi.Replied SyncApi.BothRequired, st).
Proof.
  intros H. unfold SyncApi.step, SyncApi.run_callback, SyncApi.process, try_catch.
  destruct H as [-> | ->]; simpl; rewrite ?orb_true_r; reflexivity.
Qed.

(** Lookups in the job table after [jobs.set] and [jobs.delete]. *)
Lemma jobs_get_set id k j t :
  JobApi.jobs_get id (JobApi.jobs_set k j t)
  = if String.eqb id k then Some j else JobApi.jobs_get id t.
Proof.
  induction t as [| [k' j'] t IH]; simpl.
  - reflexivity.
  - destruct (String.eqb_spec k k') as [-> | Hk]; simpl.
    + destruct (String.eqb id k'); reflexivity.
    + rewrite IH. destruct (String.eqb_spec id k') as [-> | Hid].
      * destruct (String.eqb_spec k' k); [congruence | reflexivity].
      * reflexivity.
Qed.

Lemma jobs_get_set_eq id j t : JobApi.jobs_get id (JobApi.jobs_set id j t) = Some j.
Proof. rewrite jobs_get_set, String.eqb_refl. reflexivity. Qed.

Lemma jobs_get_set_ne id k j t :
  id <> k -> JobApi.jobs_get id (JobApi.jobs_set k j t) = JobApi.jobs_get id t.
Proof.
  intros H. rewrite jobs_get_set. destruct (String.eqb_spec id k); [contradiction | reflexivity].
Qed.

Lemma jobs_get_delete id k t :
  JobApi.jobs_get id (JobApi.jobs_delete k t)
  = if String.eqb id k then None else JobApi.jobs_get id t.
Proof.
  unfold JobApi.jobs_delete.
  induction t as [| [k' j'] t IH]; simpl.
  - destruct (String.eqb id k); reflexivity.
  - destruct (String.eqb_spec k k') as [-> | Hk]; simpl.
    + rewrite IH. destruct (String.eqb id k'); reflexivity.
    + rewrite IH. destruct (String.eqb_spec id k') as [-> | Hid].
      * destruct (String.eqb_spec k' k); [congruence | reflexivity].
      * reflexivity.
Qed.

(** What the handler of [POST /api/process] does with a well-formed body:
    the output directory exists afterwards, the job is in the table as
    processing, and either the executor threw or the command is started. *)
Lemma job_handler_well_formed toLowerCase st body uuid now :
  job_request_well_formed body ->
  exists s1 s2,
    JobApi.video1Id body = Js.Str s1 /\ JobApi.video2Id body = Js.Str s2 /\
    let st1 :=
      JobApi.with_jobs (JobApi.jobs_set uuid (JobApi.processing_job now))
        (JobApi.with_disk (fun fs => Fs.mkdirSync fs Fs.Output) st) in
    JobApi.api_process_handler toLowerCase body uuid now st =
    match JobApi.filterComplex toLowerCase (JobApi.layout body) (JobApi.settings body) with
    | Throw e => (Normal (JobApi.ProcessingStarted uuid, Some e), st1)
    | Normal g =>
        (Normal (JobApi.ProcessingStarted uuid, None),
         JobApi.with_runs (fun rs =>
           <[uuid := {| JobApi.video1Path := Fs.join Fs.Uploads s1;
                        JobApi.video2Path := Fs.join Fs.Uploads s2;
                        JobApi.filter := g;
                        JobApi.outputPath := {| Fs.dir := Fs.Output; Fs.base := uuid ++ ".mp4" |};
                        JobApi.settled := false |}]> rs) st1)
    end.
Proof.
  intros [H1 H2].
  pose proof (truthy_identifier _ H1) as T1. pose proof (truthy_identifier _ H2) as T2.
  destruct H1 as (s1 & E1 & _), H2 as (s2 & E2 & _).
  exists s1, s2. split; [exact E1 | split; [exact E2 |]].
  unfold JobApi.api_process_handler. rewrite T1, T2, E1, E2. simpl.
  unfold bind, lift, modify, JobApi.processVideos. simpl.
  destruct (JobApi.filterComplex toLowerCase (JobApi.layout body) (JobApi.settings body));
    reflexivity.
Qed.

(** The whole step of a well-formed request: the handler, then the reaction
    to a rejection the executor left behind. *)
Lemma job_process_step toLowerCase st body uuid now later :
  job_request_well_formed body ->
  exists s1 s2,
    JobApi.video1Id body = Js.Str s1 /\ JobApi.video2Id body = Js.Str s2 /\
    let st1 :=
      JobApi.with_jobs (JobApi.jobs_set uuid (JobApi.processing_job now))
        (JobApi.with_disk (fun fs => Fs.mkdirSync fs Fs.Output) st) in
    JobApi.step toLowerCase st (JobApi.PostProcess body uuid now later) =
    match JobApi.filterComplex toLowerCase (JobApi.layout body) (JobApi.settings body) with
    | Throw e =>
        (JobApi.Replied (JobApi.ProcessingStarted uuid),
         snd (JobApi.on_rejected uuid e later st1))
    | Normal g =>
        (JobApi.Replied (JobApi.ProcessingStarted uuid),
         JobApi.with_runs (fun rs =>
           <[uuid := {| JobApi.video1Path := Fs.join Fs.Uploads s1;
                        JobApi.video2Path := Fs.join Fs.Uploads s2;
                        JobApi.filter := g;
                        JobApi.outputPath := {| Fs.dir := Fs.Output; Fs.base := uuid ++ ".mp4" |};
                        JobApi.settled := false |}]> rs) st1)
    end.
Proof.
  intros Hwf.
  destruct (job_handler_well_formed toLowerCase st body uuid now Hwf)
    as (s1 & s2 & E1 & E2 & Hh).
  exists s1, s2. split; [exact E1 | split; [exact E2 |]].
  cbv zeta in Hh |- *.
  unfold JobApi.step, JobApi.route, JobApi.api_process.
  unfold bind at 1. rewrite Hh.
  destruct (JobApi.filterComplex toLowerCase (JobApi.layout body) (JobApi.settings body));
    reflexivity.
Qed.

(* ===================================================================== *)
(** ** The handlers, case by case *)
(* ===================================================================== *)

(** The response of [GET /api/download/:jobId], case by case. *)
Lemma job_download_response toLowerCase st jobId :
  JobApi.step toLowerCase st (JobApi.GetDownload jobId) =
  (JobApi.Replied
     match JobApi.jobs_get jobId (JobApi.jobs st) with
     | None => JobApi.VideoNotReady
     | Some job =>
         match JobApi.status job with
         | JobApi.completed =>
             if Fs.existsSync (JobApi.disk st) {| Fs.dir := Fs.Output; Fs.base := jobId ++ ".mp4" |}
             then JobApi.Download {| Fs.dir := Fs.Output; Fs.base := jobId ++ ".mp4" |}
             else JobApi.FileNotFound
         | _ => JobApi.VideoNotReady
         end
     end, st).
Proof.
  unfold JobApi.step, JobApi.route, JobApi.api_download, bind, get.
  destruct (JobApi.jobs_get jobId (JobApi.jobs st)) as [job |]; [| reflexivity].
  destruct (JobApi.status job); try reflexivity.
  destruct (Fs.existsSync _ _); reflexivity.
Qed.




(** The state after the first [end] of a command. *)
Lemma job_end_pending toLowerCase st jobId run now :
  JobApi.runs st !! jobId = Some run -> JobApi.settled run = false ->
  JobApi.jobs (snd (JobApi.step toLowerCase st (JobApi.FfmpegEnd jobId now)))
    = JobApi.jobs_set jobId (JobApi.completed_job jobId now) (JobApi.jobs st)
  /\ JobApi.runs (snd (JobApi.step toLowerCase st (JobApi.FfmpegEnd jobId now)))
    = <[jobId := JobApi.settle run]> (JobApi.runs st).
Proof.
  intros Hrun Hp.
  unfold JobApi.step, JobApi.callback, JobApi.on_end, JobApi.on_command, bind, get.
  rewrite Hrun. simpl. unfold JobApi.settle_once. rewrite Hp. simpl.
  split; reflexivity.
Qed.

(** The state after the first [error] of a command. *)
Lemma job_error_pending toLowerCase st jobId run reason now :
  JobApi.runs st !! jobId = Some run -> JobApi.settled run = false ->
  JobApi.jobs (snd (JobApi.step toLowerCase st (JobApi.FfmpegError jobId reason now)))
    = JobApi.jobs_set jobId (JobApi.failed_job (EngineError reason) now) (JobApi.jobs st)
  /\ JobApi.runs (snd (JobApi.step toLowerCase st (JobApi.FfmpegError jobId reason now)))
    = <[jobId := JobApi.settle run]> (JobApi.runs st).
Proof.
  intros Hrun Hp.
  unfold JobApi.step, JobApi.callback, JobApi.on_error, JobApi.on_command, bind, get.
  rewrite Hrun. simpl. unfold JobApi.settle_once. rewrite Hp. simpl.
  split; reflexivity.
Qed.

(** A status query shows the record in the table and changes nothing. *)
Lemma observed_progress_get toLowerCase st jobId :
  observed_progress toLowerCase st jobId
  = match JobApi.jobs_get jobId (JobApi.jobs st) with
    | Some job => JobApi.progress job
    | None => None
    end.
Proof.
  unfold observed_progress, JobApi.step, JobApi.route, JobApi.api_jobs, bind, get.
  destruct (JobApi.jobs_get jobId (JobApi.jobs st)); reflexivity.
Qed.

Lemma observed_status_get toLowerCase st jobId :
  observed_status toLowerCase st jobId
  = JobApi.status <$> JobApi.jobs_get jobId (JobApi.jobs st).
Proof.
  unfold observed_status, JobApi.step, JobApi.route, JobApi.api_jobs, bind, get.
  destruct (JobApi.jobs_get jobId (JobApi.jobs st)); reflexivity.
Qed.

(** The [progress] handler writes the rounded percent, whatever it is. *)
Lemma job_progress_step toLowerCase st jobId job run percent :
  JobApi.jobs_get jobId (JobApi.jobs st) = Some job ->
  JobApi.runs st !! jobId = Some run ->
  JobApi.jobs (snd (JobApi.step toLowerCase st (JobApi.FfmpegProgress jobId percent)))
    = JobApi.jobs_set jobId
        (JobApi.set_progress job (Js.Math_round (JobApi.percent_or_0 percent)))
        (JobApi.jobs st)
  /\ JobApi.runs (snd (JobApi.step toLowerCase st (JobApi.FfmpegProgress jobId percent)))
     = JobApi.runs st.
Proof.
  intros Hjob Hrun.
  unfold JobApi.step, JobApi.callback, JobApi.on_progress, JobApi.on_command, bind, get.
  rewrite Hrun. simpl. rewrite Hjob. simpl. split; reflexivity.
Qed.

(* ===================================================================== *)
(** ** Stores before and after a callback *)
(* ===================================================================== *)

Section Keeps.

Context {S : Type} (R : S -> S -> Prop).
Hypothesis R_refl : forall s, R s s.
Hypothesis R_trans : forall s1 s2 s3, R s1 s2 -> R s2 s3 -> R s1 s3.

Lemma keeps_ret {A} (a : A) : keeps R (ret a).
Proof. intros s. apply R_refl. Qed.

Lemma keeps_get : keeps R get.
Proof. intros s. apply R_refl. Qed.

Lemma keeps_lift {A} (c : Completion A) : keeps R (lift c).
Proof. intros s. apply R_refl. Qed.

Lemma keeps_throw {A} (e : Exn) : keeps R (@throw S A e).
Proof. intros s. apply R_refl. Qed.

Lemma keeps_modify (f : S -> S) : (forall s, R s (f s)) -> keeps R (modify f).
Proof. intros H s. apply H. Qed.

Lemma keeps_bind {A B} (m : M S A) (k : A -> M S B) :
  keeps R m -> (forall a, keeps R (k a)) -> keeps R (bind m k).
Proof.
  intros Hm Hk s. unfold bind. specialize (Hm s).
  destruct (m s) as [[a | e] s1]; simpl in *.
  - eapply R_trans; [exact Hm | apply Hk].
  - exact Hm.
Qed.

Lemma keeps_try_catch {A} (body : M S A) (handler : Exn -> M S A) :
  keeps R body -> (forall e, keeps R (handler e)) -> keeps R (try_catch body handler).
Proof.
  intros Hb Hh s. unfold try_catch. specialize (Hb s).
  destruct (body s) as [[a | e] s1]; simpl in *.
  - exact Hb.
  - eapply R_trans; [exact Hb | apply Hh].
Qed.

Lemma keeps_when (c : bool) (body : M S unit) : keeps R body -> keeps R (when c body).
Proof. intros H. destruct c; simpl; [exact H | apply keeps_ret]. Qed.

Lemma keeps_forEach {A} (f : A -> M S unit) (xs : list A) :
  (forall x, keeps R (f x)) -> keeps R (forEach f xs).
Proof.
  intros H. induction xs as [| x rest IH]; simpl.
  - apply keeps_ret.
  - apply keeps_bind; [apply H | intros _; exact IH].
Qed.

End Keeps.

Lemma table_shrinks_refl st : table_shrinks st st.
Proof. split; [reflexivity | intros id; right; reflexivity]. Qed.

Lemma table_shrinks_trans s1 s2 s3 :
  table_shrinks s1 s2 -> table_shrinks s2 s3 -> table_shrinks s1 s3.
Proof.
  intros [R12 J12] [R23 J23]. split; [congruence |].
  intros id. destruct (J23 id) as [H | H]; [left; exact H |].
  destruct (J12 id) as [H' | H']; [left | right]; congruence.
Qed.

(** A change that leaves the job table and the commands alone. *)
Lemma table_shrinks_same st st' :
  JobApi.jobs st' = JobApi.jobs st -> JobApi.runs st' = JobApi.runs st ->
  table_shrinks st st'.
Proof. intros Hj Hr. split; [exact Hr | intros id; right; rewrite Hj; reflexivity]. Qed.

Lemma keeps_log line : keeps table_shrinks (JobApi.log line).
Proof. intros st. apply table_shrinks_same; reflexivity. Qed.

Lemma keeps_unlink p : keeps table_shrinks (JobApi.unlink p).
Proof.
  intros st. unfold JobApi.unlink.
  destruct (Fs.unlinkSync (JobApi.disk st) p); apply table_shrinks_same; reflexivity.
Qed.

Lemma keeps_unlink_at pl : keeps table_shrinks (JobApi.unlink_at pl).
Proof.
  destruct pl as [p | segments trailing]; [apply keeps_unlink |].
  intros st. unfold JobApi.unlink_at.
  destruct (Fs.unlink_elsewhere _ _ _); apply table_shrinks_same; reflexivity.
Qed.

Lemma keeps_delete jobId : keeps table_shrinks (modify (JobApi.with_jobs (JobApi.jobs_delete jobId))).
Proof.
  apply keeps_modify. intros st. split; [reflexivity |].
  intros id. simpl. rewrite jobs_get_delete.
  destruct (String.eqb id jobId); [left | right]; reflexivity.
Qed.

Lemma keeps_with_timers f : keeps table_shrinks (modify (JobApi.with_timers f)).
Proof. apply keeps_modify. intros st. apply table_shrinks_same; reflexivity. Qed.

(** Takes a callback body apart down to its primitive actions. *)
Ltac frame_with prim :=
  repeat first
    [ apply (keeps_ret _ table_shrinks_refl)
    | apply (keeps_get _ table_shrinks_refl)
    | apply (keeps_lift _ table_shrinks_refl)
    | apply keeps_log
    | apply keeps_unlink
    | apply keeps_unlink_at
    | apply keeps_delete
    | apply keeps_with_timers
    | prim
    | apply (keeps_bind _ table_shrinks_trans)
    | apply (keeps_try_catch _ table_shrinks_trans)
    | apply (keeps_when _ table_shrinks_refl)
    | apply (keeps_forEach _ table_shrinks_refl table_shrinks_trans)
    | match goal with |- forall _, _ => intro end ].

Lemma keeps_unlink_if_exists p : keeps table_shrinks (JobApi.unlink_if_exists p).
Proof. unfold JobApi.unlink_if_exists. frame_with fail. Qed.

Ltac frame := frame_with ltac:(apply keeps_unlink_if_exists).

(** The sweep, however it ends, starts and settles no command and only
    removes records. *)
Lemma keeps_sweep now : keeps table_shrinks (JobApi.sweep now).
Proof.
  unfold JobApi.sweep. frame.
  match goal with x : (string * JobApi.Job)%type |- _ => destruct x as [jobId job] end.
  unfold JobApi.sweep_job. frame.
Qed.

(** So does the deferred input cleanup. *)
Lemma keeps_fire_input_cleanup index : keeps table_shrinks (JobApi.fire_input_cleanup index).
Proof.
  unfold JobApi.fire_input_cleanup. frame.
  match goal with |- keeps _ (match ?x with _ => _ end) => destruct x as [paths |] end.
  - unfold JobApi.input_cleanup. frame.
  - frame.
Qed.

(* ===================================================================== *)
(** ** Callbacks that end normally *)
(* ===================================================================== *)

Section Safe.

Context {S : Type} (I : S -> Prop).

Lemma safe_ret {A} (a : A) : safe I (ret a).
Proof. intros s Hs. exists a, s. split; [reflexivity | exact Hs]. Qed.

Lemma safe_bind {A B} (m : M S A) (k : A -> M S B) :
  safe I m -> (forall a, safe I (k a)) -> safe I (bind m k).
Proof.
  intros Hm Hk s Hs. destruct (Hm s Hs) as (a & s1 & Em & H1).
  destruct (Hk a s1 H1) as (b & s2 & Ek & H2).
  exists b, s2. split; [| exact H2]. unfold bind. rewrite Em. exact Ek.
Qed.

Lemma safe_when (c : bool) (body : M S unit) : safe I body -> safe I (when c body).
Proof. intros H. destruct c; simpl; [exact H | apply safe_ret]. Qed.

Lemma safe_forEach {A} (f : A -> M S unit) (xs : list A) :
  (forall x, safe I (f x)) -> safe I (forEach f xs).
Proof.
  intros H. induction xs as [| x rest IH]; simpl.
  - apply safe_ret.
  - apply safe_bind; [apply H | intros _; exact IH].
Qed.

End Safe.

Lemma find_remove_other x y l : x <> y -> Fs.find y (Fs.remove x l) = Fs.find y l.
Proof.
  intros Hne. induction l as [| [n st] l IH]; simpl; [reflexivity |].
  destruct (String.eqb_spec x n) as [-> | Hx].
  - destruct (String.eqb_spec y n); [congruence | reflexivity].
  - simpl. rewrite IH. reflexivity.
Qed.

Lemma remove_subset x l : forall e, In e (Fs.remove x l) -> In e l.
Proof.
  induction l as [| [n st] l IH]; simpl; intros e He; [exact He |].
  destruct (String.eqb x n); [right; exact He |].
  destruct He as [<- | He]; [left; reflexivity | right; apply IH; exact He].
Qed.

Lemma remove_keeps_regular x l :
  List.NoDup (map fst l)
  /\ Forall (fun entry => Fs.kind (snd entry) = Fs.RegularFile) l
  /\ Forall (fun entry => Fs.is_name (fst entry) = true) l ->
  List.NoDup (map fst (Fs.remove x l))
  /\ Forall (fun entry => Fs.kind (snd entry) = Fs.RegularFile) (Fs.remove x l)
  /\ Forall (fun entry => Fs.is_name (fst entry) = true) (Fs.remove x l).
Proof.
  intros (Hnd & Hreg & Hnames). split; [| split].
  - clear Hreg Hnames. induction l as [| [n st] l IH]; simpl; [constructor |].
    inversion Hnd as [| ? ? Hnotin Hnd']; subst.
    destruct (String.eqb x n); [exact Hnd' |].
    simpl. constructor; [| apply IH; assumption].
    intros Hin. apply Hnotin. apply in_map_iff in Hin. destruct Hin as (e & He & Hin).
    apply in_map_iff. exists e. split; [exact He | apply (remove_subset x l e Hin)].
  - apply List.Forall_forall. intros e He. rewrite List.Forall_forall in Hreg.
    apply Hreg. apply (remove_subset x l e He).
  - apply List.Forall_forall. intros e He. rewrite List.Forall_forall in Hnames.
    apply Hnames. apply (remove_subset x l e He).
Qed.

Lemma find_regular name l st :
  Forall (fun entry => Fs.kind (snd entry) = Fs.RegularFile) l ->
  Fs.find name l = Some st -> Fs.kind st = Fs.RegularFile.
Proof.
  induction 1 as [| [n s] l Hk _ IH]; simpl; [discriminate |].
  destruct (String.eqb name n); [intros [= <-]; exact Hk | exact IH].
Qed.

Lemma find_present name l : In name (map fst l) -> exists st, Fs.find name l = Some st.
Proof.
  induction l as [| [n s] l IH]; simpl; [contradiction |].
  intros [-> | Hin].
  - rewrite String.eqb_refl. eauto.
  - destruct (String.eqb name n); eauto.
Qed.

(** On such a disk the deletion of an entry that exists goes through, and
    leaves such a disk with the other entries of the directory in place. *)
Lemma unlink_regular st p stats :
  all_regular (JobApi.disk st) ->
  Fs.lookup (JobApi.disk st) p = Some stats ->
  exists st',
    JobApi.unlink p st = (Normal tt, st')
    /\ all_regular (JobApi.disk st')
    /\ (forall name, name <> Fs.base p ->
          Fs.lookup (JobApi.disk st') {| Fs.dir := Fs.dir p; Fs.base := name |}
          = Fs.lookup (JobApi.disk st) {| Fs.dir := Fs.dir p; Fs.base := name |}).
Proof.
  intros Hreg Hlook. pose proof (lookup_name _ _ _ Hlook) as Hname.
  unfold JobApi.unlink, Fs.unlinkSync. rewrite Hname.
  rewrite (lookup_listing _ _ Hname) in Hlook.
  destruct (Fs.listing (JobApi.disk st) (Fs.dir p)) as [l |] eqn:Hl; [| discriminate].
  rewrite Hlook.
  destruct (Hreg _ _ Hl) as (Hnd & Hall & Hnames).
  pose proof (find_regular _ _ _ Hall Hlook) as Hk.
  destruct stats as [mtime kind]. simpl in Hk. subst kind.
  eexists. split; [reflexivity |]. split.
  - intros d l' Hl'. simpl in Hl'.
    destruct p as [pd pb]. simpl in *.
    destruct pd, d; simpl in Hl'.
    + injection Hl' as <-. apply remove_keeps_regular. repeat split; assumption.
    + apply (Hreg Fs.Output). exact Hl'.
    + apply (Hreg Fs.Uploads). exact Hl'.
    + injection Hl' as <-. apply remove_keeps_regular. repeat split; assumption.
  - intros name Hne. unfold Fs.lookup.
    destruct p as [pd pb]. simpl in *.
    destruct (Fs.is_name name); [| reflexivity].
    destruct pd; simpl in *; rewrite Hl; apply find_remove_other; congruence.
Qed.

Lemma safe_unlink_if_exists p :
  safe (fun st => all_regular (JobApi.disk st)) (JobApi.unlink_if_exists p).
Proof.
  intros st Hreg. unfold JobApi.unlink_if_exists, bind, get, Fs.existsSync.
  destruct (Fs.lookup (JobApi.disk st) p) as [stats |] eqn:Hlook; simpl.
  - destruct (unlink_regular st p stats Hreg Hlook) as (st' & E & Hreg' & _).
    exists tt, st'. split; assumption.
  - exists tt, st. split; [reflexivity | exact Hreg].
Qed.

(** The scan of one directory, from any point of its list of names on: as
    long as the names still to come are distinct and present, it ends
    normally. *)
Lemma sweep_files_complete now d names :
  forall st,
    all_regular (JobApi.disk st) ->
    List.NoDup names ->
    (forall name, In name names ->
       Fs.lookup (JobApi.disk st) {| Fs.dir := d; Fs.base := name |} <> None) ->
    exists st',
      forEach (JobApi.sweep_file now d) names st = (Normal tt, st')
      /\ all_regular (JobApi.disk st').
Proof.
  induction names as [| name rest IH]; intros st Hreg Hnd Hpresent.
  - exists st. split; [reflexivity | exact Hreg].
  - inversion Hnd as [| ? ? Hnotin Hnd']; subst.
    assert (Hone : exists st1,
               JobApi.sweep_file now d name st = (Normal tt, st1)
               /\ all_regular (JobApi.disk st1)
               /\ forall other, In other rest ->
                    Fs.lookup (JobApi.disk st1) {| Fs.dir := d; Fs.base := other |} <> None).
    { unfold JobApi.sweep_file, bind, get, lift, Fs.statSync.
      destruct (Fs.lookup (JobApi.disk st) {| Fs.dir := d; Fs.base := name |})
        as [stats |] eqn:Hlook; [| exfalso; apply (Hpresent name); [left; reflexivity | exact Hlook]].
      destruct (JobApi.maxAge <? now - Fs.mtimeMs stats)%Z; simpl.
      - destruct (unlink_regular st _ stats Hreg Hlook) as (st1 & E & Hreg1 & Hothers).
        rewrite E. simpl. eexists. split; [reflexivity |]. split; [exact Hreg1 |].
        intros other Hin. simpl in Hothers. rewrite Hothers.
        + apply Hpresent. right. exact Hin.
        + intros ->. contradiction.
      - exists st. split; [reflexivity |]. split; [exact Hreg |].
        intros other Hin. apply Hpresent. right. exact Hin. }
    destruct Hone as (st1 & E1 & Hreg1 & Hpresent1).
    destruct (IH st1 Hreg1 Hnd' Hpresent1) as (st' & E' & Hreg').
    exists st'. split; [| exact Hreg'].
    simpl. unfold bind. rewrite E1. exact E'.
Qed.

Lemma safe_sweep_dir now d :
  safe (fun st => all_regular (JobApi.disk st)) (JobApi.sweep_dir now d).
Proof.
  intros st Hreg. unfold JobApi.sweep_dir, bind, get, lift, Fs.dirExistsSync, Fs.readdirSync.
  destruct (Fs.listing (JobApi.disk st) d) as [l |] eqn:Hl; simpl.
  - destruct (Hreg d l Hl) as (Hnd & _ & Hnames).
    destruct (sweep_files_complete now d (Fs.sort_names (map fst l)) st Hreg
                (sort_names_NoDup _ Hnd)) as (st' & E & Hreg').
    + intros name Hin. apply (proj1 (sort_names_In _ _)) in Hin.
      rewrite lookup_listing; simpl.
      * rewrite Hl. destruct (find_present name l Hin) as [stats ->]. discriminate.
      * apply in_map_iff in Hin. destruct Hin as (entry & <- & Hin).
        exact (proj1 (List.Forall_forall _ _) Hnames entry Hin).
    + exists tt, st'. split; assumption.
  - exists tt, st. split; [reflexivity | exact Hreg].
Qed.

Lemma safe_sweep_job now entry :
  safe (fun st => all_regular (JobApi.disk st)) (JobApi.sweep_job now entry).
Proof.
  destruct entry as [jobId job]. unfold JobApi.sweep_job.
  apply safe_when. apply safe_bind.
  - intros st Hreg. exists tt. eexists. split; [reflexivity | exact Hreg].
  - intros _. apply safe_unlink_if_exists.
Qed.

(** Where [unlinkSync] refuses nothing, the sweep runs to its end. *)
Lemma sweep_completes toLowerCase st now :
  all_regular (JobApi.disk st) ->
  fst (JobApi.step toLowerCase st (JobApi.SweepTimer now)) = JobApi.Quiet.
Proof.
  intros Hreg. simpl. unfold JobApi.callback.
  assert (Hsafe : safe (fun st => all_regular (JobApi.disk st)) (JobApi.sweep now)).
  { unfold JobApi.sweep. apply safe_bind.
    - intros s Hs. exists s, s. split; [reflexivity | exact Hs].
    - intros s0. apply safe_bind.
      + apply safe_forEach. intros entry. apply safe_sweep_job.
      + intros _. apply safe_forEach. intros d. apply safe_sweep_dir. }
  destruct (Hsafe st Hreg) as ([] & st' & E & _). rewrite E. reflexivity.
Qed.

(* ===================================================================== *)
(** ** What one step does to one job *)
(* ===================================================================== *)

Lemma table_shrinks_transition st st' id :
  table_shrinks st st' -> job_transition id (job_view st id) (job_view st' id).
Proof.
  intros [Hruns Hjobs]. unfold job_view. rewrite Hruns.
  destruct (Hjobs id) as [H | H]; rewrite H.
  - destruct (JobApi.jobs_get id (JobApi.jobs st)); constructor.
  - constructor.
Qed.

(** A request either leaves the whole state alone (it was refused before the
    job table was touched) or it is well formed. *)
Lemma job_process_cases toLowerCase st body uuid now later :
  snd (JobApi.step toLowerCase st (JobApi.PostProcess body uuid now later)) = st
  \/ job_request_well_formed body.
Proof.
  destruct (Js.truthy (JobApi.video1Id body)) eqn:T1;
    [| left; rewrite job_process_falsy_id by auto; reflexivity].
  destruct (Js.truthy (JobApi.video2Id body)) eqn:T2;
    [| left; rewrite job_process_falsy_id by auto; reflexivity].
  assert (Hthrow1 : (exists s, JobApi.video1Id body = Js.Str s)
                    \/ exists e, JobApi.path_join Fs.Uploads (JobApi.video1Id body) = Throw e).
  { destruct (JobApi.video1Id body); simpl; eauto. }
  assert (Hthrow2 : (exists s, JobApi.video2Id body = Js.Str s)
                    \/ exists e, JobApi.path_join Fs.Uploads (JobApi.video2Id body) = Throw e).
  { destruct (JobApi.video2Id body); simpl; eauto. }
  destruct Hthrow1 as [[s1 E1] | [e1 E1]].
  - destruct Hthrow2 as [[s2 E2] | [e2 E2]].
    + right. split; eexists; (split; [eassumption |]); intros ->.
      * rewrite E1 in T1. discriminate.
      * rewrite E2 in T2. discriminate.
    + left. unfold JobApi.step, JobApi.route, JobApi.api_process, JobApi.api_process_handler.
      rewrite T1, T2, E1, E2. reflexivity.
  - left. unfold JobApi.step, JobApi.route, JobApi.api_process, JobApi.api_process_handler.
    rewrite T1, T2, E1. reflexivity.
Qed.

(** The steps that start and settle no command and at most remove records:
    the two queries, the start event, both timers, and a file written from
    outside. *)
Lemma quiet_steps_shrink toLowerCase st ev :
  match ev with
  | JobApi.GetJob _ | JobApi.GetDownload _ | JobApi.FfmpegStart _ _
  | JobApi.InputCleanupTimer _ | JobApi.SweepTimer _ | JobApi.FileWritten _ _ => True
  | _ => False
  end ->
  table_shrinks st (snd (JobApi.step toLowerCase st ev)).
Proof.
  assert (Hcb : forall body : M JobApi.State unit,
             keeps table_shrinks body -> table_shrinks st (snd (JobApi.callback body st))).
  { intros body H. unfold JobApi.callback. specialize (H st).
    destruct (body st) as [[[] | e] st1]; exact H. }
  destruct ev; intros H; try contradiction; simpl.
  - unfold JobApi.route, JobApi.api_jobs, bind, get.
    destruct (JobApi.jobs_get jobId (JobApi.jobs st)); apply table_shrinks_refl.
  - rewrite (surjective_pairing (JobApi.route _ _)).
    pose proof (job_download_response toLowerCase st jobId) as Hd. simpl in Hd.
    rewrite Hd. apply table_shrinks_refl.
  - apply Hcb. unfold JobApi.on_start, JobApi.on_command. frame.
    match goal with |- keeps _ (match ?x with _ => _ end) => destruct x end; frame.
  - apply Hcb, keeps_fire_input_cleanup.
  - apply Hcb, keeps_sweep.
  - apply table_shrinks_same; reflexivity.
Qed.

(** What one step does to what the service holds about one identifier. *)
Lemma step_transition toLowerCase st ev id :
  JobApi.fresh_uuid st ev ->
  job_transition id (job_view st id) (job_view (snd (JobApi.step toLowerCase st ev)) id).
Proof.
  intros Hfresh.
  destruct ev as [body uuid now later | | | | jobId percent | jobId now | jobId reason now | | |];
    try (apply table_shrinks_transition, quiet_steps_shrink; exact I).
  - (* POST /api/process *)
    destruct (job_process_cases toLowerCase st body uuid now later) as [-> | Hwf];
      [constructor |].
    destruct (job_process_step toLowerCase st body uuid now later Hwf)
      as (s1 & s2 & _ & _ & Hstep).
    cbv zeta in Hstep. rewrite Hstep. clear Hstep.
    destruct Hfresh as [Hnojob Hnorun].
    unfold job_view.
    destruct (JobApi.filterComplex toLowerCase (JobApi.layout body) (JobApi.settings body))
      as [g | e]; simpl.
    + rewrite jobs_get_set. destruct (String.eqb_spec id uuid) as [-> | Hne].
      * rewrite Hnojob, Hnorun, lookup_insert_eq. apply jt_accepted. reflexivity.
      * rewrite lookup_insert_ne by congruence. constructor.
    + rewrite !jobs_get_set. destruct (String.eqb_spec id uuid) as [-> | Hne].
      * rewrite Hnojob, Hnorun. apply jt_rejected_at_once.
      * constructor.
  - (* progress *)
    destruct (JobApi.runs st !! jobId) as [run |] eqn:Hrun.
    + destruct (JobApi.jobs_get jobId (JobApi.jobs st)) as [job |] eqn:Hjob.
      * destruct (job_progress_step toLowerCase st jobId job run percent Hjob Hrun)
          as [Hjobs Hruns].
        unfold job_view. rewrite Hjobs, Hruns, jobs_get_set.
        destruct (String.eqb_spec id jobId) as [-> | Hne].
        -- rewrite Hjob, Hrun. apply jt_progress.
        -- constructor.
      * apply table_shrinks_transition. simpl.
        unfold JobApi.callback, JobApi.on_progress, JobApi.on_command, bind, get.
        rewrite Hrun. simpl. rewrite Hjob. simpl. apply table_shrinks_same; reflexivity.
    + simpl. unfold JobApi.callback, JobApi.on_progress, JobApi.on_command, bind, get.
      rewrite Hrun. simpl. constructor.
  - (* end *)
    destruct (JobApi.runs st !! jobId) as [run |] eqn:Hrun.
    + destruct (JobApi.settled run) eqn:Hsettled.
      * apply table_shrinks_transition. simpl.
        unfold JobApi.callback, JobApi.on_end, JobApi.on_command, bind, get.
        rewrite Hrun. simpl. unfold JobApi.settle_once. rewrite Hsettled. simpl.
        apply table_shrinks_same; reflexivity.
      * destruct (job_end_pending toLowerCase st jobId run now Hrun Hsettled)
          as [Hjobs Hruns].
        unfold job_view. rewrite Hjobs, Hruns, jobs_get_set.
        destruct (String.eqb_spec id jobId) as [-> | Hne].
        -- rewrite Hrun, lookup_insert_eq. apply jt_completed. exact Hsettled.
        -- rewrite lookup_insert_ne by congruence. constructor.
    + simpl. unfold JobApi.callback, JobApi.on_end, JobApi.on_command, bind, get.
      rewrite Hrun. simpl. constructor.
  - (* error *)
    destruct (JobApi.runs st !! jobId) as [run |] eqn:Hrun.
    + destruct (JobApi.settled run) eqn:Hsettled.
      * apply table_shrinks_transition. simpl.
        unfold JobApi.callback, JobApi.on_error, JobApi.on_command, bind, get.
        rewrite Hrun. simpl. unfold JobApi.settle_once. rewrite Hsettled. simpl.
        apply table_shrinks_same; reflexivity.
      * destruct (job_error_pending toLowerCase st jobId run reason now Hrun Hsettled)
          as [Hjobs Hruns].
        unfold job_view. rewrite Hjobs, Hruns, jobs_get_set.
        destruct (String.eqb_spec id jobId) as [-> | Hne].
        -- rewrite Hrun, lookup_insert_eq. apply jt_failed. exact Hsettled.
        -- rewrite lookup_insert_ne by congruence. constructor.
    + simpl. unfold JobApi.callback, JobApi.on_error, JobApi.on_command, bind, get.
      rewrite Hrun. simpl. constructor.
Qed.

(* ===================================================================== *)
(** ** Deleting on a disk that refuses nothing *)
(* ===================================================================== *)

Lemma without_absent name l : Fs.find name l = None -> without name l = l.
Proof.
  unfold without. induction l as [| [n s] l IH]; simpl; [reflexivity |].
  destruct (String.eqb name n); [discriminate |]. intros H. simpl. f_equal. apply IH, H.
Qed.

Lemma remove_without name l :
  List.NoDup (map fst l) -> Fs.remove name l = without name l.
Proof.
  unfold without. induction l as [| [n s] l IH]; simpl; intros Hnd; [reflexivity |].
  inversion Hnd as [| ? ? Hnotin Hnd']; subst.
  destruct (String.eqb_spec name n) as [-> | Hne]; simpl.
  - symmetry. apply without_absent.
    destruct (Fs.find n l) as [s' |] eqn:Hf; [| reflexivity].
    exfalso. apply Hnotin. clear - Hf.
    induction l as [| [m t] l IH]; simpl in *; [discriminate |].
    destruct (String.eqb_spec n m) as [-> | _]; [left; reflexivity | right; apply IH, Hf].
  - f_equal. apply IH, Hnd'.
Qed.

Lemma filter_keeps_regular (f : string * Fs.Stats -> bool) l :
  List.NoDup (map fst l)
  /\ Forall (fun entry => Fs.kind (snd entry) = Fs.RegularFile) l
  /\ Forall (fun entry => Fs.is_name (fst entry) = true) l ->
  List.NoDup (map fst (List.filter f l))
  /\ Forall (fun entry => Fs.kind (snd entry) = Fs.RegularFile) (List.filter f l)
  /\ Forall (fun entry => Fs.is_name (fst entry) = true) (List.filter f l).
Proof.
  intros (Hnd & Hreg & Hnames). split; [| split].
  - clear Hreg Hnames. induction l as [| e l IH]; simpl; [constructor |].
    inversion Hnd as [| ? ? Hnotin Hnd']; subst.
    destruct (f e); [| apply IH; assumption].
    simpl. constructor; [| apply IH; assumption].
    intros Hin. apply Hnotin. apply in_map_iff in Hin. destruct Hin as (e' & He & Hin).
    apply in_map_iff. exists e'. split; [exact He |]. apply filter_In in Hin. apply Hin.
  - apply List.Forall_forall. intros e He. rewrite List.Forall_forall in Hreg.
    apply Hreg. apply filter_In in He. apply He.
  - apply List.Forall_forall. intros e He. rewrite List.Forall_forall in Hnames.
    apply Hnames. apply filter_In in He. apply He.
Qed.

Lemma erase_regular p fs : all_regular fs -> all_regular (erase p fs).
Proof.
  intros Hreg d l Hl. unfold erase in Hl.
  destruct (Fs.dir p), d; simpl in Hl.
  - destruct (Fs.uploads fs) as [l0 |] eqn:H0; [| discriminate]. injection Hl as <-.
    apply filter_keeps_regular. apply (Hreg Fs.Uploads). exact H0.
  - apply (Hreg Fs.Output). exact Hl.
  - apply (Hreg Fs.Uploads). exact Hl.
  - destruct (Fs.output fs) as [l0 |] eqn:H0; [| discriminate]. injection Hl as <-.
    apply filter_keeps_regular. apply (Hreg Fs.Output). exact H0.
Qed.

Lemma find_key name l stats : Fs.find name l = Some stats -> In (name, stats) l.
Proof.
  induction l as [| [n s] l IH]; simpl; [discriminate |].
  destruct (String.eqb_spec name n) as [-> | _]; [intros [= ->]; left; reflexivity |].
  intros H. right. apply IH, H.
Qed.

(** A listing of file names holds nothing under another text. *)
Lemma find_not_name name l :
  Forall (fun entry => Fs.is_name (fst entry) = true) l ->
  Fs.is_name name = false -> Fs.find name l = None.
Proof.
  intros Hnames Hno. destruct (Fs.find name l) as [stats |] eqn:Hf; [| reflexivity].
  pose proof (proj1 (List.Forall_forall _ _) Hnames _ (find_key _ _ _ Hf)) as H.
  simpl in H. congruence.
Qed.

Lemma erase_absent p fs : all_regular fs -> Fs.lookup fs p = None -> erase p fs = fs.
Proof.
  intros Hreg H.
  assert (Hfind : forall l, Fs.listing fs (Fs.dir p) = Some l -> Fs.find (Fs.base p) l = None).
  { intros l Hl. unfold Fs.lookup in H. rewrite Hl in H.
    destruct (Fs.is_name (Fs.base p)) eqn:Hname; [exact H |].
    apply find_not_name; [apply (Hreg _ _ Hl) | exact Hname]. }
  unfold erase. destruct fs as [u o], p as [d name]. simpl in *.
  destruct d; simpl in *.
  - destruct u as [l |]; [| reflexivity]. simpl. rewrite without_absent by (apply Hfind; reflexivity).
    reflexivity.
  - destruct o as [l |]; [| reflexivity]. simpl. rewrite without_absent by (apply Hfind; reflexivity).
    reflexivity.
Qed.

(** On such a disk [unlinkSync] of an entry that exists leaves the disk
    without it. *)
Lemma unlinkSync_erase fs p stats :
  all_regular fs -> Fs.lookup fs p = Some stats ->
  Fs.unlinkSync fs p = Normal (erase p fs).
Proof.
  intros Hreg Hlook. pose proof (lookup_name _ _ _ Hlook) as Hname.
  unfold Fs.unlinkSync. rewrite Hname. rewrite (lookup_listing _ _ Hname) in Hlook.
  destruct (Fs.listing fs (Fs.dir p)) as [l |] eqn:Hl; [| discriminate].
  rewrite Hlook. destruct (Hreg _ _ Hl) as (Hnd & Hall & _).
  pose proof (find_regular _ _ _ Hall Hlook) as Hk.
  destruct stats as [mtime kind]. simpl in Hk. subst kind.
  f_equal. unfold erase. destruct fs as [u o], p as [d name]. simpl in *.
  destruct d; simpl in *; subst; simpl; rewrite remove_without by exact Hnd; reflexivity.
Qed.

(** The guarded deletion, on such a disk: it ends normally, the disk is
    without the entry, and nothing else of the store changes. *)
Lemma unlink_if_exists_erase st p :
  all_regular (JobApi.disk st) ->
  exists st',
    JobApi.unlink_if_exists p st = (Normal tt, st')
    /\ JobApi.disk st' = erase p (JobApi.disk st)
    /\ same_tables st st'
    /\ JobApi.console st' = JobApi.console st.
Proof.
  intros Hreg. unfold JobApi.unlink_if_exists, bind, get, Fs.existsSync.
  destruct (Fs.lookup (JobApi.disk st) p) as [stats |] eqn:Hlook; simpl.
  - unfold JobApi.unlink. rewrite (unlinkSync_erase _ _ _ Hreg Hlook).
    eexists. split; [reflexivity |]. repeat split.
  - exists st. split; [reflexivity |]. rewrite (erase_absent _ _ Hreg Hlook). repeat split.
Qed.

(* ===================================================================== *)
(** ** What the sweep does, loop by loop *)
(* ===================================================================== *)

Lemma same_tables_refl st : same_tables st st.
Proof. repeat split. Qed.

Lemma same_tables_trans s1 s2 s3 :
  same_tables s1 s2 -> same_tables s2 s3 -> same_tables s1 s3.
Proof. intros (J1 & R1 & T1) (J2 & R2 & T2). repeat split; congruence. Qed.

Lemma same_keeps_log line : keeps same_tables (JobApi.log line).
Proof. intros st. repeat split. Qed.

Lemma same_keeps_unlink p : keeps same_tables (JobApi.unlink p).
Proof.
  intros st. unfold JobApi.unlink.
  destruct (Fs.unlinkSync (JobApi.disk st) p); repeat split.
Qed.

Lemma same_keeps_unlink_at pl : keeps same_tables (JobApi.unlink_at pl).
Proof.
  destruct pl as [p | segments trailing]; [apply same_keeps_unlink |].
  intros st. unfold JobApi.unlink_at.
  destruct (Fs.unlink_elsewhere _ _ _); repeat split.
Qed.

(** Takes apart a callback body that only works on the disk and the
    console. *)
Ltac frame_same :=
  repeat first
    [ apply (keeps_ret _ same_tables_refl)
    | apply (keeps_get _ same_tables_refl)
    | apply (keeps_lift _ same_tables_refl)
    | apply same_keeps_log
    | apply same_keeps_unlink
    | apply same_keeps_unlink_at
    | apply (keeps_bind _ same_tables_trans)
    | apply (keeps_try_catch _ same_tables_trans)
    | apply (keeps_when _ same_tables_refl)
    | apply (keeps_forEach _ same_tables_refl same_tables_trans)
    | match goal with |- forall _, _ => intro end ].

Lemma same_keeps_unlink_if_exists p : keeps same_tables (JobApi.unlink_if_exists p).
Proof. unfold JobApi.unlink_if_exists. frame_same. Qed.

Lemma same_keeps_unlink_at_if_exists pl : keeps same_tables (JobApi.unlink_at_if_exists pl).
Proof. unfold JobApi.unlink_at_if_exists. frame_same. Qed.

Lemma same_keeps_input_cleanup paths : keeps same_tables (JobApi.input_cleanup paths).
Proof.
  unfold JobApi.input_cleanup.
  apply (keeps_try_catch _ same_tables_trans); [| intro; apply same_keeps_log].
  apply (keeps_bind _ same_tables_trans); [| intro]; apply same_keeps_unlink_at_if_exists.
Qed.

Lemma same_keeps_sweep_dir now d : keeps same_tables (JobApi.sweep_dir now d).
Proof. unfold JobApi.sweep_dir. frame_same. Qed.

(** The job table after the first loop has dealt with one entry, however
    the deletion of the output file went. *)
Lemma sweep_job_tables now k job st :
  let st1 := snd (JobApi.sweep_job now (k, job) st) in
  JobApi.jobs st1
    = (if job_expired now job then JobApi.jobs_delete k (JobApi.jobs st) else JobApi.jobs st)
  /\ JobApi.runs st1 = JobApi.runs st
  /\ JobApi.timers st1 = JobApi.timers st.
Proof.
  unfold JobApi.sweep_job, job_expired.
  destruct (JobApi.too_old (JobApi.job_age now job)); simpl; [| repeat split].
  unfold bind, modify.
  pose proof (same_keeps_unlink_if_exists
                {| Fs.dir := Fs.Output; Fs.base := k ++ ".mp4" |}
                (JobApi.with_jobs (JobApi.jobs_delete k) st)) as (HJ & HR & HT).
  destruct (JobApi.unlink_if_exists _ _) as [[[] | e] st1]; simpl in *; repeat split; assumption.
Qed.

Lemma reaped_cons now k job rest id :
  reaped now ((k, job) :: rest) id
  = (job_expired now job && String.eqb k id) || reaped now rest id.
Proof. reflexivity. Qed.

(** The first loop, however it ends: a key either keeps its record or has
    lost it because an entry under it was too old. *)
Lemma sweep_jobs_lookup now es :
  forall st id,
    let st' := snd (forEach (JobApi.sweep_job now) es st) in
    JobApi.runs st' = JobApi.runs st
    /\ JobApi.timers st' = JobApi.timers st
    /\ (JobApi.jobs_get id (JobApi.jobs st') = JobApi.jobs_get id (JobApi.jobs st)
        \/ (JobApi.jobs_get id (JobApi.jobs st') = None /\ reaped now es id = true)).
Proof.
  induction es as [| [k job] rest IH]; intros st id; cbv zeta.
  - simpl. repeat split. left. reflexivity.
  - destruct (sweep_job_tables now k job st) as (HJ & HR & HT). cbv zeta in *.
    assert (Hhead : JobApi.jobs_get id (JobApi.jobs (snd (JobApi.sweep_job now (k, job) st)))
                    = JobApi.jobs_get id (JobApi.jobs st)
                    \/ (JobApi.jobs_get id (JobApi.jobs (snd (JobApi.sweep_job now (k, job) st)))
                        = None
                        /\ (job_expired now job && String.eqb k id) = true)).
    { rewrite HJ. destruct (job_expired now job); [| left; reflexivity].
      rewrite jobs_get_delete. rewrite String.eqb_sym.
      destruct (String.eqb k id); [right; split; reflexivity | left; reflexivity]. }
    cbn [forEach]. unfold bind.
    destruct (JobApi.sweep_job now (k, job) st) as [[[] | e] st1]; cbn [snd] in *.
    + destruct (IH st1 id) as (IR & IT & IJ). cbv zeta in *.
      split; [congruence |]. split; [congruence |]. rewrite reaped_cons.
      destruct IJ as [IJ | [IJ Hr]].
      * rewrite IJ. destruct Hhead as [Hh | [Hh Hr]]; [left; exact Hh |].
        right. split; [exact Hh |]. rewrite Hr. reflexivity.
      * right. split; [exact IJ |]. rewrite Hr. apply orb_true_r.
    + split; [exact HR |]. split; [exact HT |]. rewrite reaped_cons.
      destruct Hhead as [Hh | [Hh Hr]]; [left; exact Hh |].
      right. split; [exact Hh |]. rewrite Hr. reflexivity.
Qed.

(** The first loop, when it ends normally: exactly the keys with an entry
    that was too old have lost their record. *)
Lemma sweep_jobs_exact now es :
  forall st st' id,
    forEach (JobApi.sweep_job now) es st = (Normal tt, st') ->
    JobApi.jobs_get id (JobApi.jobs st')
    = if reaped now es id then None else JobApi.jobs_get id (JobApi.jobs st).
Proof.
  induction es as [| [k job] rest IH]; intros st st' id Hrun.
  - simpl in Hrun. injection Hrun as <-. reflexivity.
  - destruct (sweep_job_tables now k job st) as (HJ & _). cbv zeta in HJ.
    cbn [forEach] in Hrun. unfold bind in Hrun.
    destruct (JobApi.sweep_job now (k, job) st) as [[[] | e] st1]; [| discriminate].
    simpl in HJ. rewrite (IH st1 st' id Hrun), reaped_cons, HJ.
    destruct (reaped now rest id); [rewrite orb_true_r; reflexivity |].
    rewrite orb_false_r. destruct (job_expired now job); simpl; [| reflexivity].
    rewrite jobs_get_delete, String.eqb_sym. reflexivity.
Qed.

Lemma reaped_absent now t id : ~ In id (map fst t) -> reaped now t id = false.
Proof.
  induction t as [| [k job] rest IH]; simpl; intros Hnot; [reflexivity |].
  destruct (String.eqb_spec k id) as [-> | _].
  - exfalso. apply Hnot. left. reflexivity.
  - rewrite andb_false_r. apply IH. intros H. apply Hnot. right. exact H.
Qed.

(** In a table with distinct keys, a key is reaped exactly when its record
    is too old. *)
Lemma reaped_distinct now t id :
  distinct_keys t ->
  reaped now t id
  = match JobApi.jobs_get id t with
    | Some job => job_expired now job
    | None => false
    end.
Proof.
  unfold distinct_keys. induction t as [| [k job] rest IH]; simpl; intros Hnd; [reflexivity |].
  inversion Hnd as [| ? ? Hnotin Hnd']; subst.
  rewrite (String.eqb_sym id k).
  destruct (String.eqb_spec k id) as [-> | Hne].
  - rewrite (reaped_absent now rest id Hnotin), andb_true_r, orb_false_r. reflexivity.
  - rewrite andb_false_r. simpl. apply IH. exact Hnd'.
Qed.

(** The whole sweep leaves the job table as its first loop left it. *)
Lemma sweep_tables now st :
  let st1 := snd (forEach (JobApi.sweep_job now) (JobApi.jobs st) st) in
  let st' := snd (JobApi.sweep now st) in
  JobApi.jobs st' = JobApi.jobs st1 /\ JobApi.runs st' = JobApi.runs st1
  /\ JobApi.timers st' = JobApi.timers st1.
Proof.
  cbv zeta. unfold JobApi.sweep, bind, get.
  destruct (forEach (JobApi.sweep_job now) (JobApi.jobs st) st) as [[[] | e] st1]; simpl;
    [| repeat split].
  assert (H : keeps same_tables (forEach (JobApi.sweep_dir now) [Fs.Uploads; Fs.Output])).
  { frame_same. }
  apply (H st1).
Qed.

Lemma filter_filter {A} (f g : A -> bool) l :
  List.filter g (List.filter f l) = List.filter (fun x => f x && g x) l.
Proof.
  induction l as [| x l IH]; simpl; [reflexivity |].
  destruct (f x); simpl; [destruct (g x) |]; rewrite IH; reflexivity.
Qed.

Lemma filter_all {A} (f : A -> bool) l : (forall x, f x = true) -> List.filter f l = l.
Proof.
  intros H. induction l as [| x l IH]; simpl; [reflexivity |].
  rewrite H. f_equal. exact IH.
Qed.

Lemma erase_listing p fs l :
  Fs.listing fs (Fs.dir p) = Some l ->
  erase p fs = Fs.with_listing fs (Fs.dir p) (Some (without (Fs.base p) l)).
Proof.
  unfold erase. destruct fs as [u o], p as [d name]. simpl.
  destruct d; simpl; intros ->; reflexivity.
Qed.

Lemma with_listing_same fs d x : Fs.listing fs d = x -> Fs.with_listing fs d x = fs.
Proof. destruct fs, d; simpl; intros <-; reflexivity. Qed.

Lemma with_listing_twice fs d x y :
  Fs.with_listing (Fs.with_listing fs d x) d y = Fs.with_listing fs d y.
Proof. destruct d; reflexivity. Qed.

Lemma listing_with_listing fs d x : Fs.listing (Fs.with_listing fs d x) d = x.
Proof. destruct d; reflexivity. Qed.

Lemma find_without_other name other l :
  name <> other -> Fs.find other (without name l) = Fs.find other l.
Proof.
  intros Hne. unfold without. induction l as [| [n s] l IH]; simpl; [reflexivity |].
  destruct (String.eqb_spec name n) as [-> | Hn]; simpl.
  - destruct (String.eqb_spec other n); [congruence | exact IH].
  - rewrite IH. reflexivity.
Qed.

Lemma find_in_distinct l entry :
  List.NoDup (map fst l) -> In entry l -> Fs.find (fst entry) l = Some (snd entry).
Proof.
  induction l as [| [n s] l IH]; simpl; intros Hnd Hin; [contradiction |].
  inversion Hnd as [| ? ? Hnotin Hnd']; subst.
  destruct Hin as [<- | Hin]; simpl.
  - rewrite String.eqb_refl. reflexivity.
  - destruct (String.eqb_spec (fst entry) n) as [<- | _]; [| apply IH; assumption].
    exfalso. apply Hnotin. apply in_map. exact Hin.
Qed.

(** The first loop on a disk that refuses nothing: it ends normally, and
    the output directory has lost the output files of the entries that were
    too old and nothing else. *)
Lemma sweep_jobs_disk now es :
  forall st,
    all_regular (JobApi.disk st) ->
    exists st',
      forEach (JobApi.sweep_job now) es st = (Normal tt, st')
      /\ JobApi.disk st'
         = {| Fs.uploads := Fs.uploads (JobApi.disk st);
              Fs.output :=
                List.filter (fun entry => negb (reaped_output now es (fst entry)))
                <$> Fs.output (JobApi.disk st) |}
      /\ JobApi.console st' = JobApi.console st.
Proof.
  induction es as [| [k job] rest IH]; intros st Hreg.
  - exists st. split; [reflexivity |]. split; [| reflexivity].
    destruct (JobApi.disk st) as [u o]. simpl. f_equal.
    destruct o as [l |]; [| reflexivity]. simpl. f_equal.
    symmetry. apply filter_all. reflexivity.
  - cbn [forEach]. unfold bind, JobApi.sweep_job.
    fold (job_expired now job).
    destruct (job_expired now job) eqn:Hold; simpl.
    + unfold bind, modify.
      destruct (unlink_if_exists_erase (JobApi.with_jobs (JobApi.jobs_delete k) st)
                  {| Fs.dir := Fs.Output; Fs.base := k ++ ".mp4" |} Hreg)
        as (st1 & E1 & D1 & _ & C1).
      rewrite E1. simpl in D1, C1.
      assert (Hreg1 : all_regular (JobApi.disk st1)) by (rewrite D1; apply erase_regular, Hreg).
      destruct (IH st1 Hreg1) as (st' & E' & D' & C').
      exists st'. split; [exact E' |]. split; [| congruence].
      rewrite D', D1. unfold erase. simpl. f_equal.
      destruct (Fs.output (JobApi.disk st)) as [l |]; [| reflexivity]. simpl. f_equal.
      unfold without. rewrite filter_filter. apply filter_ext. intros [n s]. simpl.
      rewrite negb_orb, Hold. reflexivity.
    + destruct (IH st Hreg) as (st' & E' & D' & C').
      exists st'. split; [exact E' |]. split; [| exact C'].
      rewrite D'. f_equal.
      destruct (Fs.output (JobApi.disk st)) as [l |]; [| reflexivity]. simpl. f_equal.
      apply filter_ext. intros [n s]. simpl. rewrite Hold. reflexivity.
Qed.

(** The scan of one directory on such a disk, from any point of its list of
    names on: it ends normally and has deleted exactly the entries that were
    still to come and older than the window. *)
Lemma sweep_files_exact now d names :
  forall st l,
    all_regular (JobApi.disk st) ->
    Fs.listing (JobApi.disk st) d = Some l ->
    List.NoDup names ->
    (forall name, In name names -> Fs.find name l <> None) ->
    exists st',
      forEach (JobApi.sweep_file now d) names st = (Normal tt, st')
      /\ JobApi.disk st'
         = Fs.with_listing (JobApi.disk st) d
             (Some (List.filter
                      (fun entry => negb (existsb (String.eqb (fst entry)) names
                                          && expired now (snd entry))) l))
      /\ same_tables st st'.
Proof.
  induction names as [| name rest IH]; intros st l Hreg Hl Hnd Hpresent.
  - exists st. split; [reflexivity |]. split; [| apply same_tables_refl].
    rewrite filter_all by reflexivity. symmetry. apply with_listing_same, Hl.
  - inversion Hnd as [| ? ? Hnotin Hnd']; subst.
    destruct (Hreg d l Hl) as (Hkeys & _ & Hnames).
    destruct (Fs.find name l) as [stats |] eqn:Hfind;
      [| exfalso; apply (Hpresent name); [left; reflexivity | exact Hfind]].
    assert (Hlook : Fs.lookup (JobApi.disk st) {| Fs.dir := d; Fs.base := name |} = Some stats).
    { rewrite lookup_listing; simpl; [rewrite Hl; exact Hfind |].
      exact (proj1 (List.Forall_forall _ _) Hnames _ (find_key _ _ _ Hfind)). }
    assert (Hsame : forall entry, In entry l -> fst entry = name -> snd entry = stats).
    { intros entry Hin <-. pose proof (find_in_distinct l entry Hkeys Hin) as H.
      congruence. }
    cbn [forEach]. unfold bind at 1. unfold JobApi.sweep_file at 1.
    unfold bind, get, lift, Fs.statSync. rewrite Hlook.
    fold (expired now stats). destruct (expired now stats) eqn:Hexp; simpl.
    + unfold JobApi.unlink. rewrite (unlinkSync_erase _ _ _ Hreg Hlook). simpl.
      set (st1 := {| JobApi.jobs := JobApi.jobs st; JobApi.runs := JobApi.runs st;
                     JobApi.timers := JobApi.timers st;
                     JobApi.disk := erase {| Fs.dir := d; Fs.base := name |} (JobApi.disk st);
                     JobApi.elsewhere := JobApi.elsewhere st;
                     JobApi.console := (JobApi.console st ++ [JobApi.LogDeleted name])%list |}).
      assert (D1 : JobApi.disk st1
                   = Fs.with_listing (JobApi.disk st) d (Some (without name l))).
      { apply (erase_listing {| Fs.dir := d; Fs.base := name |}). exact Hl. }
      assert (Hreg1 : all_regular (JobApi.disk st1)) by (apply erase_regular, Hreg).
      assert (Hl1 : Fs.listing (JobApi.disk st1) d = Some (without name l))
        by (rewrite D1; apply listing_with_listing).
      destruct (IH st1 (without name l) Hreg1 Hl1 Hnd') as (st' & E' & D' & T').
      { intros other Hin. rewrite find_without_other; [apply Hpresent; right; exact Hin |].
        intros ->. contradiction. }
      exists st'. split; [exact E' |]. split.
      * rewrite D', D1, with_listing_twice. f_equal. f_equal.
        unfold without. rewrite filter_filter. apply filter_ext_in. intros entry Hin. simpl.
        destruct (String.eqb_spec name (fst entry)) as [Heq | Hne].
        -- rewrite (Hsame entry Hin (eq_sym Heq)), Hexp.
           rewrite (String.eqb_sym (fst entry) name), <- Heq, String.eqb_refl. reflexivity.
        -- destruct (String.eqb_spec (fst entry) name); [congruence | reflexivity].
      * destruct T' as (J & R & T). repeat split; assumption.
    + destruct (IH st l Hreg Hl Hnd') as (st' & E' & D' & T').
      { intros other Hin. apply Hpresent. right. exact Hin. }
      exists st'. split; [exact E' |]. split; [| exact T'].
      rewrite D'. f_equal. f_equal. apply filter_ext_in. intros entry Hin. simpl.
      destruct (String.eqb_spec (fst entry) name) as [Heq | Hne]; [| reflexivity].
      rewrite (Hsame entry Hin Heq), Hexp, !andb_false_r. reflexivity.
Qed.

(** The scan of one directory on such a disk. *)
Lemma sweep_dir_exact now d st :
  all_regular (JobApi.disk st) ->
  exists st',
    JobApi.sweep_dir now d st = (Normal tt, st')
    /\ JobApi.disk st'
       = match Fs.listing (JobApi.disk st) d with
         | Some l =>
             Fs.with_listing (JobApi.disk st) d
               (Some (List.filter (fun entry => negb (expired now (snd entry))) l))
         | None => JobApi.disk st
         end
    /\ same_tables st st'.
Proof.
  intros Hreg. unfold JobApi.sweep_dir, bind, get, lift, Fs.dirExistsSync, Fs.readdirSync.
  destruct (Fs.listing (JobApi.disk st) d) as [l |] eqn:Hl; simpl.
  - destruct (Hreg d l Hl) as (Hkeys & _).
    destruct (sweep_files_exact now d (Fs.sort_names (map fst l)) st l Hreg Hl
                (sort_names_NoDup _ Hkeys)) as (st' & E & D & T).
    + intros name Hin. apply (proj1 (sort_names_In _ _)) in Hin.
      destruct (find_present name l Hin) as [stats ->]. discriminate.
    + exists st'. split; [exact E |]. split; [| exact T].
      rewrite D. f_equal. f_equal. apply filter_ext_in. intros entry Hin.
      assert (Hmem : existsb (String.eqb (fst entry)) (Fs.sort_names (map fst l)) = true).
      { apply existsb_exists. exists (fst entry).
        split; [apply sort_names_In, in_map, Hin |].
        apply String.eqb_refl. }
      rewrite Hmem. reflexivity.
  - exists st. split; [reflexivity |]. split; [reflexivity | apply same_tables_refl].
Qed.

(** The whole sweep on a disk that refuses nothing: it ends normally, the
    disk is the swept disk, and the job table has lost exactly the keys with
    an entry that was too old. *)
Lemma sweep_exact now st :
  all_regular (JobApi.disk st) ->
  exists st',
    JobApi.sweep now st = (Normal tt, st')
    /\ JobApi.disk st' = swept now (JobApi.jobs st) (JobApi.disk st)
    /\ JobApi.runs st' = JobApi.runs st
    /\ JobApi.timers st' = JobApi.timers st
    /\ forall id,
         JobApi.jobs_get id (JobApi.jobs st')
         = if reaped now (JobApi.jobs st) id then None
           else JobApi.jobs_get id (JobApi.jobs st).
Proof.
  intros Hreg.
  destruct (sweep_jobs_disk now (JobApi.jobs st) st Hreg) as (st1 & E1 & D1 & _).
  assert (Hreg1 : all_regular (JobApi.disk st1)).
  { rewrite D1. intros d l Hl. destruct d; simpl in Hl.
    - apply (Hreg Fs.Uploads). exact Hl.
    - destruct (Fs.output (JobApi.disk st)) as [l0 |] eqn:H0; [| discriminate].
      injection Hl as <-. apply filter_keeps_regular. apply (Hreg Fs.Output). exact H0. }
  destruct (sweep_dir_exact now Fs.Uploads st1 Hreg1) as (st2 & E2 & D2 & J2 & R2 & T2).
  assert (Hreg2 : all_regular (JobApi.disk st2)).
  { rewrite D2. destruct (Fs.listing (JobApi.disk st1) Fs.Uploads) as [l |] eqn:Hl;
      [| exact Hreg1].
    intros d l' Hl'. destruct d; simpl in Hl'.
    - injection Hl' as <-. apply filter_keeps_regular. apply (Hreg1 Fs.Uploads). exact Hl.
    - apply (Hreg1 Fs.Output). exact Hl'. }
  destruct (sweep_dir_exact now Fs.Output st2 Hreg2) as (st3 & E3 & D3 & J3 & R3 & T3).
  pose proof (sweep_jobs_lookup now (JobApi.jobs st) st) as Hlook. cbv zeta in Hlook.
  rewrite E1 in Hlook. simpl in Hlook.
  exists st3. split.
  { unfold JobApi.sweep, bind, get. rewrite E1. cbn [forEach]. unfold bind.
    rewrite E2, E3. reflexivity. }
  split.
  { rewrite D3, D2, D1. unfold swept.
    destruct (JobApi.disk st) as [u o]. simpl.
    destruct u as [lu |], o as [lo |]; simpl; try reflexivity.
    - f_equal. f_equal. apply filter_filter.
    - f_equal. f_equal. apply filter_filter. }
  split; [destruct (Hlook "") as (HR & _); congruence |].
  split; [destruct (Hlook "") as (_ & HT & _); congruence |].
  intros id. rewrite J3, J2. apply (sweep_jobs_exact now (JobApi.jobs st) st st1 id E1).
Qed.

(* ===================================================================== *)
(** ** The keys of the job table *)
(* ===================================================================== *)

Lemma jobs_set_keys k job t :
  map fst (JobApi.jobs_set k job t)
  = if existsb (String.eqb k) (map fst t) then map fst t else (map fst t ++ [k])%list.
Proof.
  induction t as [| [k' j'] t IH]; simpl; [reflexivity |].
  destruct (String.eqb k k') eqn:E; simpl; [reflexivity |].
  rewrite IH. destruct (existsb (String.eqb k) (map fst t)); reflexivity.
Qed.

Lemma jobs_set_distinct k job t : distinct_keys t -> distinct_keys (JobApi.jobs_set k job t).
Proof.
  unfold distinct_keys. intros Hnd. rewrite jobs_set_keys.
  destruct (existsb (String.eqb k) (map fst t)) eqn:E; [exact Hnd |].
  apply List.NoDup_app; [exact Hnd | constructor; [intros [] | constructor] |].
  intros x Hx [Hk | []]. subst x.
  assert (existsb (String.eqb k) (map fst t) = true); [| congruence].
  apply existsb_exists. exists k. split; [exact Hx | apply String.eqb_refl].
Qed.

Lemma jobs_delete_distinct k t : distinct_keys t -> distinct_keys (JobApi.jobs_delete k t).
Proof.
  unfold distinct_keys, JobApi.jobs_delete. induction t as [| [k' j'] t IH]; simpl;
    intros Hnd; [constructor |].
  inversion Hnd as [| ? ? Hnotin Hnd']; subst.
  destruct (negb (String.eqb k k')); [| apply IH, Hnd'].
  simpl. constructor; [| apply IH, Hnd'].
  intros Hin. apply Hnotin. apply in_map_iff in Hin. destruct Hin as (e & He & Hin).
  apply in_map_iff. exists e. split; [exact He |]. apply filter_In in Hin. apply Hin.
Qed.

(** A lookup that fails after [jobs.set] failed before. *)
Lemma jobs_get_set_none id k job t :
  JobApi.jobs_get id (JobApi.jobs_set k job t) = None -> JobApi.jobs_get id t = None.
Proof. rewrite jobs_get_set. destruct (String.eqb id k); [discriminate | auto]. Qed.

(** The steps that are not a request, an engine event of a started command
    or a sweep leave the job table and the commands as they are. *)
Lemma still_steps toLowerCase st ev :
  match ev with
  | JobApi.GetJob _ | JobApi.GetDownload _ | JobApi.FfmpegStart _ _
  | JobApi.InputCleanupTimer _ | JobApi.FileWritten _ _ => True
  | _ => False
  end ->
  JobApi.jobs (snd (JobApi.step toLowerCase st ev)) = JobApi.jobs st
  /\ JobApi.runs (snd (JobApi.step toLowerCase st ev)) = JobApi.runs st.
Proof.
  destruct ev; intros H; try contradiction; simpl.
  - unfold JobApi.route, JobApi.api_jobs, bind, get.
    destruct (JobApi.jobs_get jobId (JobApi.jobs st)); split; reflexivity.
  - pose proof (job_download_response toLowerCase st jobId) as Hd. simpl in Hd.
    rewrite Hd. split; reflexivity.
  - unfold JobApi.callback, JobApi.on_start, JobApi.on_command, bind, get.
    destruct (JobApi.runs st !! jobId); split; reflexivity.
  - unfold JobApi.callback, JobApi.fire_input_cleanup, bind, get.
    destruct (nth_error (JobApi.timers st) index) as [paths |]; [| split; reflexivity].
    simpl.
    pose proof (same_keeps_input_cleanup paths
                  (JobApi.with_timers (JobApi.drop_nth index) st)) as (HJ & HR & _).
    destruct (JobApi.input_cleanup paths _) as [[[] | e] st1]; simpl in *; split; assumption.
  - split; reflexivity.
Qed.

(** The job table after any step but a sweep: the same table, or the table
    after one or two [jobs.set]. *)
Lemma step_jobs_set toLowerCase st ev :
  (forall now, ev <> JobApi.SweepTimer now) ->
  let t' := JobApi.jobs (snd (JobApi.step toLowerCase st ev)) in
  t' = JobApi.jobs st
  \/ (exists k job, t' = JobApi.jobs_set k job (JobApi.jobs st))
  \/ (exists k job job', t' = JobApi.jobs_set k job' (JobApi.jobs_set k job (JobApi.jobs st))).
Proof.
  intros Hns. cbv zeta.
  destruct ev as [body uuid now later | | | | jobId percent | jobId now | jobId reason now
                  | | now |];
    try (left; apply still_steps; exact I).
  - destruct (job_process_cases toLowerCase st body uuid now later) as [-> | Hwf];
      [left; reflexivity |].
    destruct (job_process_step toLowerCase st body uuid now later Hwf)
      as (s1 & s2 & _ & _ & Hstep).
    cbv zeta in Hstep. rewrite Hstep.
    destruct (JobApi.filterComplex toLowerCase (JobApi.layout body) (JobApi.settings body));
      simpl; right; [left | right]; eauto.
  - destruct (JobApi.runs st !! jobId) as [run |] eqn:Hrun.
    + destruct (JobApi.jobs_get jobId (JobApi.jobs st)) as [job |] eqn:Hjob.
      * destruct (job_progress_step toLowerCase st jobId job run percent Hjob Hrun) as [-> _].
        right. left. eauto.
      * left. simpl. unfold JobApi.callback, JobApi.on_progress, JobApi.on_command, bind, get.
        rewrite Hrun. simpl. rewrite Hjob. reflexivity.
    + left. simpl. unfold JobApi.callback, JobApi.on_progress, JobApi.on_command, bind, get.
      rewrite Hrun. reflexivity.
  - destruct (JobApi.runs st !! jobId) as [run |] eqn:Hrun.
    + destruct (JobApi.settled run) eqn:Hs.
      * left. simpl. unfold JobApi.callback, JobApi.on_end, JobApi.on_command, bind, get.
        rewrite Hrun. simpl. unfold JobApi.settle_once. rewrite Hs. reflexivity.
      * destruct (job_end_pending toLowerCase st jobId run now Hrun Hs) as [-> _].
        right. left. eauto.
    + left. simpl. unfold JobApi.callback, JobApi.on_end, JobApi.on_command, bind, get.
      rewrite Hrun. reflexivity.
  - destruct (JobApi.runs st !! jobId) as [run |] eqn:Hrun.
    + destruct (JobApi.settled run) eqn:Hs.
      * left. simpl. unfold JobApi.callback, JobApi.on_error, JobApi.on_command, bind, get.
        rewrite Hrun. simpl. unfold JobApi.settle_once. rewrite Hs. reflexivity.
      * destruct (job_error_pending toLowerCase st jobId run reason now Hrun Hs) as [-> _].
        right. left. eauto.
    + left. simpl. unfold JobApi.callback, JobApi.on_error, JobApi.on_command, bind, get.
      rewrite Hrun. reflexivity.
  - exfalso. apply (Hns now). reflexivity.
Qed.

Lemma sweep_jobs_distinct now es :
  forall st,
    distinct_keys (JobApi.jobs st) ->
    distinct_keys (JobApi.jobs (snd (forEach (JobApi.sweep_job now) es st))).
Proof.
  induction es as [| [k job] rest IH]; intros st Hd; [exact Hd |].
  destruct (sweep_job_tables now k job st) as (HJ & _). cbv zeta in HJ.
  assert (Hd1 : distinct_keys (JobApi.jobs (snd (JobApi.sweep_job now (k, job) st)))).
  { rewrite HJ. destruct (job_expired now job); [apply jobs_delete_distinct |]; exact Hd. }
  cbn [forEach]. unfold bind.
  destruct (JobApi.sweep_job now (k, job) st) as [[[] | e] st1]; cbn [snd] in *.
  - apply IH, Hd1.
  - exact Hd1.
Qed.

(** Every step keeps the keys of the job table distinct. *)
Lemma step_keeps_distinct toLowerCase st ev :
  distinct_keys (JobApi.jobs st) ->
  distinct_keys (JobApi.jobs (snd (JobApi.step toLowerCase st ev))).
Proof.
  intros Hd.
  assert (Hor : (exists now, ev = JobApi.SweepTimer now) \/ forall now, ev <> JobApi.SweepTimer now).
  { destruct ev; try (right; discriminate). left. eauto. }
  destruct Hor as [[now ->] | Hns].
  - simpl. unfold JobApi.callback.
    destruct (sweep_tables now st) as (HJ & _). cbv zeta in HJ.
    destruct (JobApi.sweep now st) as [[[] | e] st1]; cbn [snd] in *; rewrite HJ;
      apply sweep_jobs_distinct, Hd.
  - destruct (step_jobs_set toLowerCase st ev Hns) as [-> | [(k & j & ->) | (k & j & j' & ->)]].
    + exact Hd.
    + apply jobs_set_distinct, Hd.
    + apply jobs_set_distinct, jobs_set_distinct, Hd.
Qed.

Lemma reachable_distinct toLowerCase st :
  JobApi.reachable toLowerCase st -> distinct_keys (JobApi.jobs st).
Proof.
  induction 1 as [| st ev _ IH _].
  - constructor.
  - apply step_keeps_distinct, IH.
Qed.

(* ===================================================================== *)
(** ** The commands and the timers over the life of the service *)
(* ===================================================================== *)

(** The command of one identifier after a step: the one before the step,
    that one settled, or a new one with the paths of a request. *)
Lemma step_runs toLowerCase st ev id run' :
  JobApi.runs (snd (JobApi.step toLowerCase st ev)) !! id = Some run' ->
  JobApi.runs st !! id = Some run'
  \/ (exists run, JobApi.runs st !! id = Some run /\ run' = JobApi.settle run)
  \/ JobApi.outputPath run' = output_of id.
Proof.
  destruct ev as [body uuid now later | | | | jobId percent | jobId now | jobId reason now
                  | | now |];
    try (match goal with
         | |- context [JobApi.step _ _ ?e] =>
             rewrite (proj2 (still_steps toLowerCase st e I))
         end; intros H; left; exact H).
  - destruct (job_process_cases toLowerCase st body uuid now later) as [-> | Hwf];
      [intros H; left; exact H |].
    destruct (job_process_step toLowerCase st body uuid now later Hwf)
      as (s1 & s2 & _ & _ & Hstep).
    cbv zeta in Hstep. rewrite Hstep. clear Hstep.
    destruct (JobApi.filterComplex toLowerCase (JobApi.layout body) (JobApi.settings body))
      as [g | e]; simpl.
    + destruct (String.eqb_spec id uuid) as [-> | Hne].
      * rewrite lookup_insert_eq. intros [= <-]. right. right. reflexivity.
      * rewrite lookup_insert_ne by congruence. intros H. left. exact H.
    + intros H. left. exact H.
  - simpl. unfold JobApi.callback, JobApi.on_progress, JobApi.on_command, bind, get.
    destruct (JobApi.runs st !! jobId); simpl; [| intros H; left; exact H].
    destruct (JobApi.jobs_get jobId (JobApi.jobs st)); simpl; intros H; left; exact H.
  - destruct (JobApi.runs st !! jobId) as [run |] eqn:Hrun.
    + destruct (JobApi.settled run) eqn:Hs.
      * simpl. unfold JobApi.callback, JobApi.on_end, JobApi.on_command, bind, get.
        rewrite Hrun. simpl. unfold JobApi.settle_once. rewrite Hs. simpl.
        intros H. left. exact H.
      * rewrite (proj2 (job_end_pending toLowerCase st jobId run now Hrun Hs)).
        destruct (String.eqb_spec id jobId) as [-> | Hne].
        -- rewrite lookup_insert_eq. intros [= <-]. right. left. eauto.
        -- rewrite lookup_insert_ne by congruence. intros H. left. exact H.
    + simpl. unfold JobApi.callback, JobApi.on_end, JobApi.on_command, bind, get.
      rewrite Hrun. simpl. intros H. left. exact H.
  - destruct (JobApi.runs st !! jobId) as [run |] eqn:Hrun.
    + destruct (JobApi.settled run) eqn:Hs.
      * simpl. unfold JobApi.callback, JobApi.on_error, JobApi.on_command, bind, get.
        rewrite Hrun. simpl. unfold JobApi.settle_once. rewrite Hs. simpl.
        intros H. left. exact H.
      * rewrite (proj2 (job_error_pending toLowerCase st jobId run reason now Hrun Hs)).
        destruct (String.eqb_spec id jobId) as [-> | Hne].
        -- rewrite lookup_insert_eq. intros [= <-]. right. left. eauto.
        -- rewrite lookup_insert_ne by congruence. intros H. left. exact H.
    + simpl. unfold JobApi.callback, JobApi.on_error, JobApi.on_command, bind, get.
      rewrite Hrun. simpl. intros H. left. exact H.
  - rewrite (proj1 (quiet_steps_shrink toLowerCase st (JobApi.SweepTimer now) I)).
    intros H. left. exact H.
Qed.

Lemma command_paths_step toLowerCase st ev :
  command_paths st -> command_paths (snd (JobApi.step toLowerCase st ev)).
Proof.
  intros Hinv id run' Hrun'.
  destruct (step_runs toLowerCase st ev id run' Hrun') as [H | [(run & H & ->) | H]].
  - apply Hinv. exact H.
  - apply (Hinv id run H).
  - exact H.
Qed.

Lemma command_paths_reachable toLowerCase st :
  JobApi.reachable toLowerCase st -> command_paths st.
Proof.
  induction 1 as [| st ev _ IH _].
  - intros id run H. simpl in H. rewrite lookup_empty in H. discriminate.
  - apply command_paths_step. exact IH.
Qed.

(** The step of a timer that is pending. *)
Lemma fire_cleanup_step toLowerCase st index paths :
  nth_error (JobApi.timers st) index = Some paths ->
  JobApi.step toLowerCase st (JobApi.InputCleanupTimer index)
  = JobApi.callback (JobApi.input_cleanup paths)
      (JobApi.with_timers (JobApi.drop_nth index) st).
Proof.
  intros H. simpl. unfold JobApi.callback, JobApi.fire_input_cleanup, bind, get, modify.
  rewrite H. reflexivity.
Qed.

(** Every transition keeps the record of a job in step with the promise of
    its command. *)
Lemma transition_follows_promise id o r o' r' :
  job_transition id (o, r) (o', r') ->
  (forall job, o = Some job -> follows_promise id job r) ->
  forall job', o' = Some job' -> follows_promise id job' r'.
Proof.
  intros Ht Hinv job'.
  inversion Ht; subst; intros Hjob'; try discriminate.
  - apply Hinv. exact Hjob'.
  - injection Hjob' as <-. exists run. split; [reflexivity | assumption].
  - injection Hjob' as <-. intros run. discriminate.
  - injection Hjob' as <-. exact (Hinv job eq_refl).
  - injection Hjob' as <-. split; [| reflexivity]. exists (JobApi.settle run). split; reflexivity.
  - injection Hjob' as <-. intros run' [= <-]. reflexivity.
Qed.

Lemma follows_promise_reachable toLowerCase st :
  JobApi.reachable toLowerCase st ->
  forall id job,
    JobApi.jobs_get id (JobApi.jobs st) = Some job ->
    follows_promise id job (JobApi.runs st !! id).
Proof.
  induction 1 as [| st ev _ IH Hfresh]; intros id job' Hjob'.
  - discriminate.
  - pose proof (step_transition toLowerCase st ev id Hfresh) as Ht.
    unfold job_view in Ht.
    eapply transition_follows_promise; [exact Ht | | exact Hjob'].
    intros job Hjob. apply IH. exact Hjob.
Qed.

(* ===================================================================== *)
(** ** The states of a job *)
(* ===================================================================== *)

(** Every transition keeps the invariant of the job it touches. *)
Lemma transition_keeps_invariant id o r o' r' :
  job_transition id (o, r) (o', r') ->
  (forall job, o = Some job ->
     well_shaped job
     /\ (JobApi.status job <> JobApi.processing ->
         forall run, r = Some run -> JobApi.settled run = true)) ->
  forall job', o' = Some job' ->
    well_shaped job'
    /\ (JobApi.status job' <> JobApi.processing ->
        forall run, r' = Some run -> JobApi.settled run = true).
Proof.
  intros Ht Hinv job'.
  inversion Ht; subst; intros Hjob'; try discriminate.
  - apply Hinv. exact Hjob'.
  - injection Hjob' as <-. split; [split; reflexivity |]. intros H. contradiction H. reflexivity.
  - injection Hjob' as <-. split; [split; [discriminate | reflexivity] |]. discriminate.
  - injection Hjob' as <-. destruct (Hinv job eq_refl) as [Hshape Hsettled].
    split; [exact Hshape | exact Hsettled].
  - injection Hjob' as <-. split; [split; [discriminate | reflexivity] |].
    intros _ run' [= <-]. reflexivity.
  - injection Hjob' as <-. split; [split; [discriminate | reflexivity] |].
    intros _ run' [= <-]. reflexivity.
Qed.

(** A transition never takes a settled terminal job anywhere but out of the
    table. *)
Lemma transition_keeps_terminal id job r o' r' :
  job_transition id (Some job, r) (o', r') ->
  JobApi.status job <> JobApi.processing ->
  (forall run, r = Some run -> JobApi.settled run = true) ->
  o' = None
  \/ exists job', o' = Some job'
       /\ JobApi.status job' = JobApi.status job
       /\ JobApi.outputUrl job' = JobApi.outputUrl job
       /\ JobApi.error job' = JobApi.error job.
Proof.
  intros Ht Hterminal Hsettled.
  inversion Ht; subst.
  - right. exists job. repeat split.
  - left. reflexivity.
  - right. eexists. split; [reflexivity |]. repeat split.
  - rewrite (Hsettled run eq_refl) in *. discriminate.
  - rewrite (Hsettled run eq_refl) in *. discriminate.
Qed.

Lemma invariant_initial : table_invariant JobApi.initial.
Proof. intros id job H. discriminate. Qed.

Lemma invariant_step toLowerCase st ev :
  table_invariant st -> JobApi.fresh_uuid st ev ->
  table_invariant (snd (JobApi.step toLowerCase st ev)).
Proof.
  intros Hinv Hfresh id job' Hjob'.
  pose proof (step_transition toLowerCase st ev id Hfresh) as Ht.
  unfold job_view in Ht.
  eapply transition_keeps_invariant; [exact Ht | | exact Hjob'].
  intros job Hjob. apply Hinv. exact Hjob.
Qed.

Lemma invariant_reachable toLowerCase st :
  JobApi.reachable toLowerCase st -> table_invariant st.
Proof.
  induction 1 as [| st ev _ IH Hfresh].
  - apply invariant_initial.
  - apply invariant_step; assumption.
Qed.

Lemma well_shaped_exactly_one job :
  well_shaped job ->
  exactly_one
    (JobApi.status job = JobApi.processing
     /\ JobApi.outputUrl job = None /\ JobApi.error job = None)
    (JobApi.status job = JobApi.completed
     /\ JobApi.outputUrl job <> None /\ JobApi.error job = None)
    (JobApi.status job = JobApi.failed
     /\ JobApi.error job <> None /\ JobApi.outputUrl job = None)
  /\ exactly_one
       (JobApi.outputUrl job <> None)
       (JobApi.error job <> None)
       (JobApi.status job = JobApi.processing).
Proof.
  unfold well_shaped, exactly_one.
  destruct (JobApi.status job); intros [H1 H2]; split.
  - left. repeat split; try assumption; intros [H _]; discriminate.
  - right. right. repeat split; try reflexivity; intros H; contradiction.
  - right. left. repeat split; try assumption; intros [H _]; discriminate.
  - left. repeat split; try assumption; [intros H; contradiction | discriminate].
  - right. right. repeat split; try assumption; intros [H _]; discriminate.
  - right. left. repeat split; try assumption; [intros H; contradiction | discriminate].
Qed.

(** C1.  In every state the job-based service can reach, every job of the
    table is in exactly one of three conditions: processing with neither an
    output reference nor an error, completed with an output reference and no
    error, failed with an error and no output reference; equally, exactly one
    of output reference present, error present, status processing holds.  And
    no step takes a job that is completed or failed to another status: after
    the step it is either gone from the table (the sweep removed it) or has
    the same status, output reference and error. *)
Theorem C1_terminal_exclusivity
    (toLowerCase : string -> string) (st : JobApi.State)
    (Hreach : JobApi.reachable toLowerCase st) :
  (forall id job,
     JobApi.jobs_get id (JobApi.jobs st) = Some job ->
     exactly_one
       (JobApi.status job = JobApi.processing
        /\ JobApi.outputUrl job = None /\ JobApi.error job = None)
       (JobApi.status job = JobApi.completed
        /\ JobApi.outputUrl job <> None /\ JobApi.error job = None)
       (JobApi.status job = JobApi.failed
        /\ JobApi.error job <> None /\ JobApi.outputUrl job = None)
     /\ exactly_one
          (JobApi.outputUrl job <> None)
          (JobApi.error job <> None)
          (JobApi.status job = JobApi.processing))
  /\
  (forall ev id job,
     JobApi.fresh_uuid st ev ->
     JobApi.jobs_get id (JobApi.jobs st) = Some job ->
     JobApi.status job <> JobApi.processing ->
     let after := JobApi.jobs_get id (JobApi.jobs (snd (JobApi.step toLowerCase st ev))) in
     after = None
     \/ exists job', after = Some job'
          /\ JobApi.status job' = JobApi.status job
          /\ JobApi.outputUrl job' = JobApi.outputUrl job
          /\ JobApi.error job' = JobApi.error job).
Proof.
  pose proof (invariant_reachable toLowerCase st Hreach) as Hinv.
  split.
  - intros id job Hjob. apply well_shaped_exactly_one. apply (Hinv id job Hjob).
  - intros ev id job Hfresh Hjob Hterminal after.
    pose proof (step_transition toLowerCase st ev id Hfresh) as Ht.
    unfold job_view in Ht. rewrite Hjob in Ht.
    eapply transition_keeps_terminal; [exact Ht | exact Hterminal |].
    apply (Hinv id job Hjob). exact Hterminal.
Qed.

Lemma reachable_run_events toLowerCase evs :
  forall st,
    JobApi.reachable toLowerCase st -> fresh_trace toLowerCase st evs ->
    JobApi.reachable toLowerCase (JobApi.run_events toLowerCase st evs).
Proof.
  unfold JobApi.run_events.
  induction evs as [| ev rest IH]; intros st Hreach Hfresh; simpl.
  - exact Hreach.
  - destruct Hfresh as [Hev Hrest]. apply IH; [| exact Hrest].
    apply JobApi.reachable_step; assumption.
Qed.

Lemma job_done_reachable : JobApi.reachable ascii_lower job_done.
Proof.
  unfold job_done. apply reachable_run_events; [| vm_compute; auto].
  unfold job_running. apply reachable_run_events; [| vm_compute; auto].
  unfold job_uploaded. apply reachable_run_events; [| vm_compute; auto].
  apply JobApi.reachable_initial.
Defined.

Lemma C1_terminal_exclusivity_witness :
  JobApi.reachable ascii_lower job_done
  /\ (JobApi.status <$> JobApi.jobs_get "j1" (JobApi.jobs job_done)) = Some JobApi.completed
  /\ (let after :=
        JobApi.jobs_get "j1"
          (JobApi.jobs (snd (JobApi.step ascii_lower job_done
                               (JobApi.FfmpegError "j1" "late failure" 9500)))) in
      after = None
      \/ exists job', after = Some job'
           /\ JobApi.status job' = JobApi.status (JobApi.completed_job "j1" 9000)
           /\ JobApi.outputUrl job' = JobApi.outputUrl (JobApi.completed_job "j1" 9000)
           /\ JobApi.error job' = JobApi.error (JobApi.completed_job "j1" 9000)).
Proof.
  split; [exact job_done_reachable |]. split; [vm_compute; reflexivity |].
  assert (Hjob : JobApi.jobs_get "j1" (JobApi.jobs job_done)
                 = Some (JobApi.completed_job "j1" 9000)) by (vm_compute; reflexivity).
  assert (Hterminal : JobApi.status (JobApi.completed_job "j1" 9000) <> JobApi.processing)
    by discriminate.
  exact (proj2 (C1_terminal_exclusivity ascii_lower job_done job_done_reachable)
           (JobApi.FfmpegError "j1" "late failure" 9500) "j1"
           (JobApi.completed_job "j1" 9000) I Hjob Hterminal).
Defined.

(* ===================================================================== *)
(** ** Accepting a request *)
(* ===================================================================== *)






(* ===================================================================== *)
(** ** Missing input *)
(* ===================================================================== *)

(** C3.  A request in which either input identifier is absent is refused at
    once with status 400, by both services, and the whole state is left as it
    was: the job table has no new record and no command is started. *)
Theorem C3_missing_input_rejected
    (toLowerCase : string -> string)
    (st : JobApi.State) (body : JobApi.ProcessBody) (uuid : string) (now later : Z)
    (st' : SyncApi.State) (body' : SyncApi.ProcessBody)
    (Habsent : JobApi.video1Id body = Js.Undefined \/ JobApi.video2Id body = Js.Undefined)
    (Habsent' : SyncApi.video1 body' = Js.Undefined \/ SyncApi.video2 body' = Js.Undefined) :
  (JobApi.step toLowerCase st (JobApi.PostProcess body uuid now later)
     = (JobApi.Replied JobApi.MissingVideoIds, st)
   /\ JobApi.status_code JobApi.MissingVideoIds = 400)
  /\
  (SyncApi.step st' (SyncApi.PostProcess body' uuid)
     = (SyncApi.Replied SyncApi.BothRequired, st')
   /\ SyncApi.status_code SyncApi.BothRequired = 400).
Proof.
  split; split; try reflexivity.
  - apply job_process_falsy_id. destruct Habsent as [-> | ->]; auto.
  - apply sync_process_falsy_id. destruct Habsent' as [-> | ->]; auto.
Qed.

Lemma C3_missing_input_rejected_witness :
  let body := {| JobApi.video1Id := Js.Str "a.mp4"; JobApi.video2Id := Js.Undefined;
                 JobApi.layout := Js.Str "Stacked"; JobApi.settings := Js.Undefined |} in
  let body' := {| SyncApi.video1 := Js.Str "a.mp4"; SyncApi.video2 := Js.Undefined;
                  SyncApi.layout := Js.Str "stacked"; SyncApi.audioOption := Js.Undefined |} in
  (JobApi.step ascii_lower JobApi.initial (JobApi.PostProcess body "j1" 1000 1001)
     = (JobApi.Replied JobApi.MissingVideoIds, JobApi.initial)
   /\ JobApi.status_code JobApi.MissingVideoIds = 400)
  /\
  (SyncApi.step SyncApi.initial (SyncApi.PostProcess body' "j1")
     = (SyncApi.Replied SyncApi.BothRequired, SyncApi.initial)
   /\ SyncApi.status_code SyncApi.BothRequired = 400).
Proof.
  intros body body'.
  apply (C3_missing_input_rejected ascii_lower JobApi.initial body "j1" 1000 1001
           SyncApi.initial body').
  - right. reflexivity.
  - right. reflexivity.
Defined.

(* ===================================================================== *)
(** ** The graph builder *)
(* ===================================================================== *)

(** The job-based builder falls back to the sequential graph on an absent
    layout, on null, and on every string whose lower-case form is neither of
    the two names it knows. *)
Lemma job_layout_fallback toLowerCase layout settings :
  layout = Js.Undefined \/ layout = Js.Null \/
  (exists s, layout = Js.Str s /\ toLowerCase s <> "side by side" /\ toLowerCase s <> "stacked") ->
  JobApi.filterComplex toLowerCase layout settings = Normal JobApi.sequential.
Proof.
  intros [-> | [-> | (s & -> & H1 & H2)]]; try reflexivity.
  unfold JobApi.filterComplex. simpl.
  destruct (String.eqb_spec (toLowerCase s) "side by side"); [contradiction |].
  destruct (String.eqb_spec (toLowerCase s) "stacked"); [contradiction |].
  reflexivity.
Qed.

(** The builder of [src/server.js] falls back on every value but its two
    layout names, whatever the type of the value. *)
Lemma sync_layout_fallback layout :
  layout <> Js.Str "sidebyside" -> layout <> Js.Str "stacked" ->
  SyncApi.complexFilter layout = SyncApi.sequential.
Proof.
  intros H1 H2. unfold SyncApi.complexFilter, SyncApi.strict_eq_text.
  destruct layout; try reflexivity.
  destruct (String.eqb_spec s "sidebyside"); [congruence |].
  destruct (String.eqb_spec s "stacked"); [congruence |].
  reflexivity.
Qed.

(** On a layout that is neither nullish nor a string the job-based builder
    throws instead of falling back. *)
Lemma job_layout_not_text_throws toLowerCase layout settings :
  layout <> Js.Undefined -> layout <> Js.Null -> (forall s, layout <> Js.Str s) ->
  JobApi.filterComplex toLowerCase layout settings
  = Throw (TypeError "layout?.toLowerCase is not a function").
Proof.
  intros H1 H2 H3. destruct layout as [| | b | n | s | items | fields];
    try reflexivity; congruence.
Qed.

(** C4, at the input where the job-based service departs from it.  A request
    whose layout is the number 5 is not given the sequential graph: the
    builder throws a TypeError, no command is started, and the job that was
    just accepted is failed with that message.  [src/server.js] gives the same
    value the sequential graph. *)
Theorem C4_numeric_layout_fails_job
    (toLowerCase : string -> string) (st : JobApi.State) (settings : Js.Value)
    (uuid : string) (now later : Z) :
  let body := job_body (Js.Number (Js.of_Z 5)) settings in
  let out := JobApi.step toLowerCase st (JobApi.PostProcess body uuid now later) in
  JobApi.filterComplex toLowerCase (Js.Number (Js.of_Z 5)) settings
    = Throw (TypeError "layout?.toLowerCase is not a function")
  /\ fst out = JobApi.Replied (JobApi.ProcessingStarted uuid)
  /\ JobApi.jobs_get uuid (JobApi.jobs (snd out))
     = Some (JobApi.failed_job (TypeError "layout?.toLowerCase is not a function") later)
  /\ JobApi.runs (snd out) = JobApi.runs st
  /\ SyncApi.complexFilter (Js.Number (Js.of_Z 5)) = SyncApi.sequential.
Proof.
  intros body out. split; [reflexivity |].
  assert (Hwf : job_request_well_formed body).
  { split; eexists; (split; [reflexivity | discriminate]). }
  destruct (job_process_step toLowerCase st body uuid now later Hwf)
    as (s1 & s2 & _ & _ & Hstep).
  cbv zeta in Hstep. subst out. rewrite Hstep. simpl.
  split; [reflexivity |]. split; [apply jobs_get_set_eq |]. split; reflexivity.
Qed.

(* ===================================================================== *)
(** ** The audio mix *)
(* ===================================================================== *)

(** The job-based builder never looks at the settings. *)
Lemma job_filter_ignores_settings toLowerCase layout settings settings' :
  JobApi.filterComplex toLowerCase layout settings
  = JobApi.filterComplex toLowerCase layout settings'.
Proof. reflexivity. Qed.





(* ===================================================================== *)
(** ** The side-by-side frame *)
(* ===================================================================== *)

(** The frame of the job-based side-by-side graph, for inputs of any size. *)
Lemma job_side_by_side_frame (in0 in1 : Graph.Size) :
  Graph.pad_size JobApi.side_by_side in0 in1 "v1" = Some (960, 1080)
  /\ Graph.pad_size JobApi.side_by_side in0 in1 "v2" = Some (960, 1080)
  /\ Graph.pad_size JobApi.side_by_side in0 in1 "outv" = Some (1920, 1080).
Proof. repeat split; vm_compute; reflexivity. Qed.

(** The frame of the side-by-side graph of [src/server.js], for inputs of
    equal height. *)
Lemma sync_side_by_side_frame (w0 w1 h : Z) :
  Graph.pad_size SyncApi.side_by_side (w0, h) (w1, h) "left" = Some (w0 / 2, h)
  /\ Graph.pad_size SyncApi.side_by_side (w0, h) (w1, h) "right" = Some (w1 / 2, h)
  /\ Graph.pad_size SyncApi.side_by_side (w0, h) (w1, h) "v" = Some (w0 / 2 + w1 / 2, h).
Proof.
  unfold Graph.pad_size, SyncApi.side_by_side, Graph.apply_graph, Graph.apply_filter,
    Graph.input_pads.
  rewrite lookup_insert_ne by discriminate. rewrite lookup_insert_eq.
  rewrite lookup_insert_ne by discriminate. rewrite lookup_insert_eq.
  rewrite lookup_insert_ne by discriminate. rewrite lookup_insert_eq.
  rewrite lookup_insert_eq. simpl Graph.eval_dim. rewrite Z.eqb_refl.
  split; [| split].
  - rewrite !lookup_insert_ne by discriminate. apply lookup_insert_eq.
  - rewrite lookup_insert_ne by discriminate. apply lookup_insert_eq.
  - apply lookup_insert_eq.
Qed.

(** C6, amended.  In the job-based service every side-by-side request gets a
    graph that scales each input to 960 by 1080, half of 1920 at the full
    1080, and stacks the two horizontally into a 1920 by 1080 frame, whatever
    the inputs are.  In [src/server.js] the graph scales each input to half of
    that input's own width at its own height, so for two inputs of one height
    the frame is as wide as the two halves together; there is no target
    size. *)
Theorem C6_side_by_side_frame
    (toLowerCase : string -> string) (s : string) (settings : Js.Value)
    (in0 in1 : Graph.Size) (w0 w1 h : Z)
    (Hs : toLowerCase s = "side by side") :
  (exists g,
     JobApi.filterComplex toLowerCase (Js.Str s) settings = Normal g
     /\ Graph.pad_size g in0 in1 "v1" = Some (960, 1080)
     /\ Graph.pad_size g in0 in1 "v2" = Some (960, 1080)
     /\ Graph.pad_size g in0 in1 "outv" = Some (1920, 1080)
     /\ 960 = 1920 / 2)
  /\
  (let g := SyncApi.complexFilter (Js.Str "sidebyside") in
   Graph.pad_size g (w0, h) (w1, h) "left" = Some (w0 / 2, h)
   /\ Graph.pad_size g (w0, h) (w1, h) "right" = Some (w1 / 2, h)
   /\ Graph.pad_size g (w0, h) (w1, h) "v" = Some (w0 / 2 + w1 / 2, h)).
Proof.
  split.
  - exists JobApi.side_by_side.
    split.
    { unfold JobApi.filterComplex. simpl. rewrite Hs. reflexivity. }
    destruct (job_side_by_side_frame in0 in1) as (H1 & H2 & H3).
    repeat split; assumption || reflexivity.
  - apply sync_side_by_side_frame.
Qed.

Lemma C6_side_by_side_frame_witness :
  exists g,
    JobApi.filterComplex ascii_lower (Js.Str "Side by Side") Js.Undefined = Normal g
    /\ Graph.pad_size g (1280, 720) (640, 480) "outv" = Some (1920, 1080).
Proof.
  destruct (C6_side_by_side_frame ascii_lower "Side by Side" Js.Undefined
              (1280, 720) (640, 480) 1280 640 720 eq_refl)
    as [(g & Hg & _ & _ & Hout & _) _].
  exists g. split; [exact Hg | exact Hout].
Defined.

(** C6 as stated fails on [src/server.js]: its side-by-side graph has no
    target size.  Two inputs of 1280 by 720 and 640 by 720 give a frame 960
    wide in which the first input takes 640, two thirds and not half; two
    inputs of 1920 by 1080 give another frame size; and two inputs of
    different heights are refused by the engine. *)
Lemma C6_counterexample :
  let g := SyncApi.complexFilter (Js.Str "sidebyside") in
  Graph.pad_size g (1280, 720) (640, 720) "v" = Some (960, 720)
  /\ Graph.pad_size g (1280, 720) (640, 720) "left" = Some (640, 720)
  /\ Graph.pad_size g (1280, 720) (640, 720) "right" = Some (320, 720)
  /\ 640 <> 960 / 2
  /\ Graph.pad_size g (1920, 1080) (1920, 1080) "v" = Some (1920, 1080)
  /\ Graph.pad_size g (1280, 720) (640, 480) "v" = None.
Proof.
  intros g. repeat split; try (vm_compute; reflexivity).
  vm_compute. discriminate.
Qed.

(* ===================================================================== *)
(** ** Progress *)
(* ===================================================================== *)




(** Rounding keeps the order and keeps the range 0 to 100. *)
Lemma round_monotone (x y : Q) :
  (x <= y)%Q -> (Qfloor (x + (1 # 2)) <= Qfloor (y + (1 # 2)))%Z.
Proof. intros H. apply Qfloor_resp_le. lra. Qed.

Lemma round_in_range (q : Q) :
  (0 <= q)%Q /\ (q <= 100)%Q -> (0 <= Qfloor (q + (1 # 2)) <= 100)%Z.
Proof.
  intros [H0 H1]. split.
  - change 0%Z with (Qfloor (0 + (1 # 2))). apply round_monotone. exact H0.
  - change 100%Z with (Qfloor (100 + (1 # 2))). apply round_monotone. exact H1.
Qed.

Lemma round_above_integer (z : Z) (q : Q) :
  (inject_Z z <= q)%Q -> (z <= Qfloor (q + (1 # 2)))%Z.
Proof.
  intros H. rewrite <- (Qfloor_Z z). apply Qfloor_resp_le. lra.
Qed.

(** The record after a run of [progress] events: each status query in
    between shows the rounded percent of the last event, and the status is
    untouched. *)
Lemma progress_seen_passthrough toLowerCase percents :
  forall st jobId job run,
    JobApi.jobs_get jobId (JobApi.jobs st) = Some job ->
    JobApi.runs st !! jobId = Some run ->
    progress_seen toLowerCase st jobId (progress_events jobId percents)
      = map (fun p => Some (Js.Math_round (JobApi.percent_or_0 p))) percents
    /\ observed_status toLowerCase
         (JobApi.run_events toLowerCase st (progress_events jobId percents)) jobId
       = Some (JobApi.status job).
Proof.
  unfold progress_events, JobApi.run_events.
  induction percents as [| p rest IH]; intros st jobId job run Hjob Hrun.
  - simpl. split; [reflexivity |]. rewrite observed_status_get, Hjob. reflexivity.
  - destruct (job_progress_step toLowerCase st jobId job run p Hjob Hrun) as [Hjobs Hruns].
    set (st1 := snd (JobApi.step toLowerCase st (JobApi.FfmpegProgress jobId p))) in *.
    assert (Hjob1 : JobApi.jobs_get jobId (JobApi.jobs st1)
                    = Some (JobApi.set_progress job (Js.Math_round (JobApi.percent_or_0 p)))).
    { rewrite Hjobs. apply jobs_get_set_eq. }
    assert (Hrun1 : JobApi.runs st1 !! jobId = Some run) by (rewrite Hruns; exact Hrun).
    destruct (IH st1 jobId _ run Hjob1 Hrun1) as [IHseen IHstatus].
    split.
    + cbn [map progress_seen]. fold st1. rewrite IHseen.
      rewrite observed_progress_get, Hjob1. reflexivity.
    + cbn [map fold_left]. fold st1. rewrite IHstatus. reflexivity.
Qed.

(** The rounded percents of a sequence of finite percents. *)
Lemma rounded_percents percents qs :
  map JobApi.percent_or_0 percents = map Js.Fin qs ->
  map (fun p => Some (Js.Math_round (JobApi.percent_or_0 p))) percents
  = map (fun q => Some (Js.of_Z (Qfloor (q + (1 # 2))))) qs.
Proof.
  revert qs. induction percents as [| p rest IH]; intros [| q qs] H; try discriminate.
  - reflexivity.
  - simpl in H. injection H as Hp Hrest. simpl. rewrite Hp. simpl.
    f_equal. apply IH. exact Hrest.
Qed.

Lemma rounded_are_percentages qs :
  Forall (fun q => (0 <= q)%Q /\ (q <= 100)%Q) qs ->
  Forall is_percentage (map (fun q => Some (Js.of_Z (Qfloor (q + (1 # 2))))) qs).
Proof.
  induction 1 as [| q qs Hq _ IH]; simpl; constructor.
  - eexists. split; [reflexivity |]. apply round_in_range. exact Hq.
  - exact IH.
Qed.

Lemma rounded_nondecreasing qs :
  forall q0,
    nondecreasing Qle (q0 :: qs) ->
    nondecreasing progress_le
      (map (fun q => Some (Js.of_Z (Qfloor (q + (1 # 2))))) (q0 :: qs)).
Proof.
  induction qs as [| q1 rest IH]; intros q0 H.
  - exact I.
  - destruct H as [H01 Hrest]. split.
    + simpl. rewrite <- Zle_Qle. apply round_monotone. exact H01.
    + apply IH. exact Hrest.
Qed.

(** C7, amended.  While a job is processing, every [progress] event of its
    command sets the progress to the rounded percent of that event, 0 when the
    event carries none, and a status query shows it; the status stays as it
    was.  So the values seen are integers from 0 to 100 and never decrease
    whenever the percents the engine reports are themselves between 0 and 100
    and never decrease, starting at or above the progress the job has. *)
Theorem C7_progress_follows_engine
    (toLowerCase : string -> string)
    (st : JobApi.State) (jobId : string) (job : JobApi.Job) (run : JobApi.Run)
    (z0 : Z) (percents : list (option Js.Num)) (qs : list Q)
    (Hjob : JobApi.jobs_get jobId (JobApi.jobs st) = Some job)
    (Hrun : JobApi.runs st !! jobId = Some run)
    (Hprogress : JobApi.progress job = Some (Js.of_Z z0))
    (Hfinite : map JobApi.percent_or_0 percents = map Js.Fin qs)
    (Hrange : Forall (fun q => (0 <= q)%Q /\ (q <= 100)%Q) qs)
    (Hsorted : nondecreasing Qle (inject_Z z0 :: qs)) :
  let seen := progress_seen toLowerCase st jobId (progress_events jobId percents) in
  seen = map (fun p => Some (Js.Math_round (JobApi.percent_or_0 p))) percents
  /\ Forall is_percentage seen
  /\ nondecreasing progress_le (observed_progress toLowerCase st jobId :: seen)
  /\ observed_status toLowerCase
       (JobApi.run_events toLowerCase st (progress_events jobId percents)) jobId
     = Some (JobApi.status job).
Proof.
  intros seen.
  destruct (progress_seen_passthrough toLowerCase percents st jobId job run Hjob Hrun)
    as [Hseen Hstatus].
  subst seen. rewrite Hseen, (rounded_percents percents qs Hfinite).
  split; [reflexivity |]. split; [apply rounded_are_percentages; exact Hrange |].
  split; [| exact Hstatus].
  rewrite observed_progress_get, Hjob, Hprogress.
  destruct qs as [| q1 rest]; [exact I |].
  destruct Hsorted as [H01 Hrest]. split.
  - simpl. rewrite <- Zle_Qle. apply round_above_integer. exact H01.
  - apply rounded_nondecreasing. exact Hrest.
Qed.

Lemma C7_progress_follows_engine_witness :
  let percents := [Some (Js.Fin (81 # 2)); Some (Js.Fin (60 # 1)); Some (Js.Fin (199 # 2))] in
  let seen := progress_seen ascii_lower job_running "j1" (progress_events "j1" percents) in
  observed_progress ascii_lower job_running "j1" = Some (Js.of_Z 40)
  /\ Forall is_percentage seen
  /\ nondecreasing progress_le (observed_progress ascii_lower job_running "j1" :: seen).
Proof.
  intros percents seen. split; [vm_compute; reflexivity |].
  assert (Hjob : JobApi.jobs_get "j1" (JobApi.jobs job_running)
                 = Some (JobApi.set_progress (JobApi.processing_job 2000) (Js.of_Z 40)))
    by (vm_compute; reflexivity).
  assert (Hrun : JobApi.runs job_running !! "j1" = Some run_j1) by (vm_compute; reflexivity).
  assert (Hrange : Forall (fun q => (0 <= q)%Q /\ (q <= 100)%Q) [81 # 2; 60 # 1; 199 # 2]).
  { repeat constructor; unfold Qle; simpl; lia. }
  assert (Hsorted : nondecreasing Qle (inject_Z 40 :: [81 # 2; 60 # 1; 199 # 2])).
  { simpl. unfold Qle. simpl. repeat split; lia. }
  destruct (C7_progress_follows_engine ascii_lower job_running "j1" _ run_j1 40 percents
              [81 # 2; 60 # 1; 199 # 2] Hjob Hrun eq_refl eq_refl Hrange Hsorted)
    as (_ & Hperc & Hmono & _).
  split; [exact Hperc | exact Hmono].
Defined.

(** C7 as stated fails: the handler stores whatever the engine reports.
    After percents 50, 20 and 150 the status queries of a job that is still
    processing show 50, then 20, then 150: a decrease, and a value above
    100. *)
Lemma C7_counterexample :
  let evs :=
    [ JobApi.PostProcess (job_body (Js.Str "sequential") Js.Undefined) "j1" 2000 2001;
      JobApi.FfmpegProgress "j1" (Some (Js.Fin (50 # 1)));
      JobApi.FfmpegProgress "j1" (Some (Js.Fin (20 # 1)));
      JobApi.FfmpegProgress "j1" (Some (Js.Fin (150 # 1))) ] in
  let seen := [Some (Js.of_Z 0); Some (Js.of_Z 50); Some (Js.of_Z 20); Some (Js.of_Z 150)] in
  progress_seen ascii_lower job_uploaded "j1" evs = seen
  /\ observed_status ascii_lower (JobApi.run_events ascii_lower job_uploaded evs) "j1"
     = Some JobApi.processing
  /\ ~ nondecreasing progress_le seen
  /\ ~ Forall is_percentage seen.
Proof.
  intros evs seen. split; [vm_compute; reflexivity |]. split; [vm_compute; reflexivity |].
  split.
  - intros (_ & H & _). unfold progress_le, Js.of_Z, Qle in H. simpl in H. lia.
  - intros H. inversion H as [| ? ? _ H1]; subst. inversion H1 as [| ? ? _ H2]; subst.
    inversion H2 as [| ? ? _ H3]; subst. inversion H3 as [| ? ? (z & Hz & Hr) _]; subst.
    injection Hz as Hz. lia.
Qed.

(* ===================================================================== *)
(** ** The retention sweep *)
(* ===================================================================== *)

(** The deferred input cleanup catches what its deletions throw: its
    callback always ends normally. *)
Lemma input_cleanup_never_throws st paths :
  exists st', JobApi.input_cleanup paths st = (Normal tt, st').
Proof.
  unfold JobApi.input_cleanup, try_catch.
  destruct (bind (JobApi.unlink_at_if_exists (fst paths))
              (fun _ => JobApi.unlink_at_if_exists (snd paths)) st) as [[[] | e] st1].
  - eexists. reflexivity.
  - eexists. reflexivity.
Qed.

(** The same cleanup, run on a directory: the error is logged and
    swallowed. *)
Example input_cleanup_logs_error :
  JobApi.callback
    (JobApi.input_cleanup ({| Fs.dir := Fs.Uploads; Fs.base := "tmp" |}, upload_a)) job_stale
  = (JobApi.Quiet,
     {| JobApi.jobs := JobApi.jobs job_stale; JobApi.runs := JobApi.runs job_stale;
        JobApi.timers := JobApi.timers job_stale; JobApi.disk := JobApi.disk job_stale;
        JobApi.elsewhere := JobApi.elsewhere job_stale;
        JobApi.console :=
          [JobApi.LogCleanupError (ErrnoException "EISDIR" "unlink" "uploads/tmp")] |}).
Proof. vm_compute. reflexivity. Qed.

(** A file that is already gone is passed over by the guarded deletion of
    the first loop of the sweep. *)
Lemma unlink_if_exists_missing st p :
  Fs.existsSync (JobApi.disk st) p = false ->
  JobApi.unlink_if_exists p st = (Normal tt, st).
Proof.
  intros H. unfold JobApi.unlink_if_exists, bind, get. rewrite H. reflexivity.
Qed.

(** Where nothing refuses to be deleted the sweep does its work: a day after
    j1 completed, its record, its output file and the two uploads are gone. *)
Example sweep_reclaims_completed_job :
  let st := JobApi.run_events ascii_lower job_done
              [ JobApi.FileWritten {| Fs.dir := Fs.Output; Fs.base := "j1.mp4" |}
                  (fresh_file 8999) ] in
  let out := JobApi.step ascii_lower st (JobApi.SweepTimer (9000 + JobApi.maxAge + 1)) in
  fst out = JobApi.Quiet
  /\ JobApi.jobs (snd out) = []
  /\ JobApi.disk (snd out) = {| Fs.uploads := Some []; Fs.output := Some [] |}
  /\ JobApi.console (snd out)
     = [ JobApi.LogProgress (Js.of_Z 40); JobApi.LogFinished;
         JobApi.LogDeleted "a.mp4"; JobApi.LogDeleted "b.mp4" ].
Proof. repeat split; vm_compute; reflexivity. Qed.

(** C8, at an input where the sweep departs from it.  The uploads directory
    holds a directory and a file, the output directory a file, all older than
    the retention window.  The scan takes the names of uploads in sorted
    order: the file comes first, is deleted and logged; then [unlinkSync]
    refuses the directory.  The sweep has no handler around it, so the
    exception leaves the timer callback uncaught: the directory stays, and
    the output directory is never looked at, so its old file stays too. *)
Theorem C8_sweep_aborts_on_unlink_error :
  let now := 100000000 in
  let out := JobApi.step ascii_lower job_stale (JobApi.SweepTimer now) in
  (JobApi.maxAge <? now - 0)%Z = true
  /\ Fs.readdirSync (JobApi.disk job_stale) Fs.Uploads = Normal ["stale.mp4"; "tmp"]
  /\ fst out = JobApi.Uncaught (ErrnoException "EISDIR" "unlink" "uploads/tmp")
  /\ JobApi.console (snd out) = [JobApi.LogDeleted "stale.mp4"]
  /\ Fs.existsSync (JobApi.disk (snd out)) {| Fs.dir := Fs.Uploads; Fs.base := "stale.mp4" |}
     = false
  /\ Fs.existsSync (JobApi.disk (snd out)) {| Fs.dir := Fs.Uploads; Fs.base := "tmp" |}
     = true
  /\ Fs.existsSync (JobApi.disk (snd out)) {| Fs.dir := Fs.Output; Fs.base := "stale-out.mp4" |}
     = true.
Proof.
  intros now out. repeat split; vm_compute; reflexivity.
Qed.

(* ===================================================================== *)
(** ** Download *)
(* ===================================================================== *)





(* ===================================================================== *)
(** ** Terminal transitions replace the record *)
(* ===================================================================== *)



(** A record that is terminal after a step and was not there with that
    status before was written whole by that step. *)
Lemma terminal_record_is_fresh toLowerCase st ev id job' :
  JobApi.fresh_uuid st ev ->
  JobApi.jobs_get id (JobApi.jobs (snd (JobApi.step toLowerCase st ev))) = Some job' ->
  JobApi.status job' <> JobApi.processing ->
  (forall job, JobApi.jobs_get id (JobApi.jobs st) = Some job ->
               JobApi.status job = JobApi.processing) ->
  (exists now, job' = JobApi.completed_job id now)
  \/ (exists e now, job' = JobApi.failed_job e now).
Proof.
  intros Hfresh Hafter Hterminal Hbefore.
  pose proof (step_transition toLowerCase st ev id Hfresh) as Ht.
  unfold job_view in Ht. rewrite Hafter in Ht.
  inversion Ht as [v Hv | | now run Hs Hv | e now Hv | job run percent Hv
                   | o run now Hs Hv | o run reason now Hs Hv]; subst.
  - exfalso. apply Hterminal. apply Hbefore. congruence.
  - exfalso. apply Hterminal. reflexivity.
  - right. eauto.
  - exfalso. apply Hterminal. simpl. apply Hbefore. congruence.
  - left. eauto.
  - right. eauto.
Qed.

(** C10.  A terminal transition writes a whole new record under the job's
    key, whatever record was there.  After the promise is fulfilled the record
    is exactly status completed, progress 100, the output reference and the
    completion time, with no start time.  After it is rejected, by the
    engine's error or by the executor throwing, the record is exactly status
    failed, the error message and the failure time, with no start time and no
    progress. *)
Theorem C10_terminal_record_replaced
    (toLowerCase : string -> string)
    (st : JobApi.State) (jobId : string) (run : JobApi.Run) (now : Z) (reason : string)
    (Hrun : JobApi.runs st !! jobId = Some run)
    (Hpending : JobApi.settled run = false)
    (body : JobApi.ProcessBody) (uuid : string) (t later : Z) (e : Exn)
    (Hwf : job_request_well_formed body)
    (Hthrow : JobApi.filterComplex toLowerCase (JobApi.layout body) (JobApi.settings body)
              = Throw e) :
  JobApi.jobs_get jobId
    (JobApi.jobs (snd (JobApi.step toLowerCase st (JobApi.FfmpegEnd jobId now))))
  = Some {| JobApi.status := JobApi.completed;
            JobApi.progress := Some (Js.of_Z 100);
            JobApi.startTime := None;
            JobApi.outputUrl := Some ("/output/" ++ jobId ++ ".mp4");
            JobApi.completedTime := Some now;
            JobApi.error := None;
            JobApi.failedTime := None |}
  /\
  JobApi.jobs_get jobId
    (JobApi.jobs (snd (JobApi.step toLowerCase st (JobApi.FfmpegError jobId reason now))))
  = Some {| JobApi.status := JobApi.failed;
            JobApi.progress := None;
            JobApi.startTime := None;
            JobApi.outputUrl := None;
            JobApi.completedTime := None;
            JobApi.error := Some reason;
            JobApi.failedTime := Some now |}
  /\
  JobApi.jobs_get uuid
    (JobApi.jobs (snd (JobApi.step toLowerCase st (JobApi.PostProcess body uuid t later))))
  = Some {| JobApi.status := JobApi.failed;
            JobApi.progress := None;
            JobApi.startTime := None;
            JobApi.outputUrl := None;
            JobApi.completedTime := None;
            JobApi.error := Some (message e);
            JobApi.failedTime := Some later |}
  /\
  (forall ev id job',
     JobApi.fresh_uuid st ev ->
     JobApi.jobs_get id (JobApi.jobs (snd (JobApi.step toLowerCase st ev))) = Some job' ->
     JobApi.status job' <> JobApi.processing ->
     (forall job, JobApi.jobs_get id (JobApi.jobs st) = Some job ->
                  JobApi.status job = JobApi.processing) ->
     (exists t',
        job' = {| JobApi.status := JobApi.completed;
                  JobApi.progress := Some (Js.of_Z 100);
                  JobApi.startTime := None;
                  JobApi.outputUrl := Some ("/output/" ++ id ++ ".mp4");
                  JobApi.completedTime := Some t';
                  JobApi.error := None;
                  JobApi.failedTime := None |})
     \/
     (exists text t',
        job' = {| JobApi.status := JobApi.failed;
                  JobApi.progress := None;
                  JobApi.startTime := None;
                  JobApi.outputUrl := None;
                  JobApi.completedTime := None;
                  JobApi.error := Some text;
                  JobApi.failedTime := Some t' |})).
Proof.
  split; [| split; [| split]]; cycle 3.
  { intros ev id job' Hfresh Hafter Hterminal Hbefore.
    destruct (terminal_record_is_fresh toLowerCase st ev id job' Hfresh Hafter Hterminal Hbefore)
      as [[t' ->] | (e' & t' & ->)].
    - left. exists t'. reflexivity.
    - right. exists (message e'), t'. reflexivity. }
  - destruct (job_end_pending toLowerCase st jobId run now Hrun Hpending) as [-> _].
    apply jobs_get_set_eq.
  - destruct (job_error_pending toLowerCase st jobId run reason now Hrun Hpending) as [-> _].
    apply jobs_get_set_eq.
  - destruct (job_process_step toLowerCase st body uuid t later Hwf)
      as (s1 & s2 & _ & _ & Hstep).
    cbv zeta in Hstep. rewrite Hstep, Hthrow. simpl. apply jobs_get_set_eq.
Qed.

Lemma C10_terminal_record_replaced_witness :
  JobApi.jobs_get "j1" (JobApi.jobs job_running)
  = Some {| JobApi.status := JobApi.processing;
            JobApi.progress := Some (Js.of_Z 40);
            JobApi.startTime := Some 2000;
            JobApi.outputUrl := None; JobApi.completedTime := None;
            JobApi.error := None; JobApi.failedTime := None |}
  /\
  JobApi.jobs_get "j1"
    (JobApi.jobs (snd (JobApi.step ascii_lower job_running (JobApi.FfmpegEnd "j1" 9000))))
  = Some {| JobApi.status := JobApi.completed;
            JobApi.progress := Some (Js.of_Z 100);
            JobApi.startTime := None;
            JobApi.outputUrl := Some "/output/j1.mp4";
            JobApi.completedTime := Some 9000;
            JobApi.error := None;
            JobApi.failedTime := None |}.
Proof.
  split; [vm_compute; reflexivity |].
  assert (Hrun : JobApi.runs job_running !! "j1" = Some run_j1) by (vm_compute; reflexivity).
  assert (Hwf : job_request_well_formed (job_body (Js.Number (Js.of_Z 5)) Js.Undefined)).
  { split; eexists; (split; [reflexivity | discriminate]). }
  exact (proj1 (C10_terminal_record_replaced ascii_lower job_running "j1" run_j1 9000
                  "engine exit code 1" Hrun eq_refl
                  (job_body (Js.Number (Js.of_Z 5)) Js.Undefined) "j2" 9100 9101
                  (TypeError "layout?.toLowerCase is not a function") Hwf eq_refl)).
Defined.

(* ===================================================================== *)
(** ** Further properties: retention *)
(* ===================================================================== *)

(** Proves that a disk given in full refuses nothing. *)
Ltac solve_regular :=
  let d := fresh "d" in
  let l := fresh "l" in
  let H := fresh "H" in
  intros d l H; destruct d; vm_compute in H; injection H as <-;
  (split; [repeat constructor; simpl; intuition discriminate | repeat constructor]).

(** The sweep as a step, on a disk that refuses nothing. *)
Lemma sweep_step_exact toLowerCase st now :
  all_regular (JobApi.disk st) ->
  let out := JobApi.step toLowerCase st (JobApi.SweepTimer now) in
  fst out = JobApi.Quiet
  /\ JobApi.disk (snd out) = swept now (JobApi.jobs st) (JobApi.disk st)
  /\ JobApi.runs (snd out) = JobApi.runs st
  /\ JobApi.timers (snd out) = JobApi.timers st
  /\ forall id,
       JobApi.jobs_get id (JobApi.jobs (snd out))
       = if reaped now (JobApi.jobs st) id then None
         else JobApi.jobs_get id (JobApi.jobs st).
Proof.
  intros Hreg. destruct (sweep_exact now st Hreg) as (st' & E & D & R & T & J).
  cbv zeta. simpl. unfold JobApi.callback. rewrite E. simpl.
  repeat split; assumption.
Qed.

(** X1.  A sweep that runs to its end removes from the job table exactly the
    records that are older than 24 hours, counted from the completion time,
    else the failure time, else the start time; every other record is left as
    it was, and no command is touched. *)
Theorem X1_sweep_reaps_exactly_old_jobs
    (toLowerCase : string -> string) (st : JobApi.State) (now : Z)
    (Hkeys : distinct_keys (JobApi.jobs st))
    (Hend : fst (JobApi.step toLowerCase st (JobApi.SweepTimer now)) = JobApi.Quiet) :
  let st' := snd (JobApi.step toLowerCase st (JobApi.SweepTimer now)) in
  (forall id,
     JobApi.jobs_get id (JobApi.jobs st')
     = match JobApi.jobs_get id (JobApi.jobs st) with
       | Some job =>
           if JobApi.too_old (JobApi.job_age now job) then None else Some job
       | None => None
       end)
  /\ JobApi.runs st' = JobApi.runs st.
Proof.
  cbv zeta. simpl in *. unfold JobApi.callback in *.
  destruct (sweep_tables now st) as (HJ & HR & _). cbv zeta in HJ, HR.
  pose proof (sweep_jobs_lookup now (JobApi.jobs st) st "") as (HR1 & _). cbv zeta in HR1.
  assert (Hloop : exists st1,
             forEach (JobApi.sweep_job now) (JobApi.jobs st) st = (Normal tt, st1)).
  { unfold JobApi.sweep, bind, get in Hend.
    destruct (forEach (JobApi.sweep_job now) (JobApi.jobs st) st) as [[[] | e] st1];
      [eauto | discriminate]. }
  destruct Hloop as (st1 & E1). rewrite E1 in HJ, HR, HR1. cbn [snd] in HJ, HR, HR1.
  destruct (JobApi.sweep now st) as [[[] | e] st'] eqn:E; [| discriminate].
  cbn [snd] in *. split; [| congruence].
  intros id. rewrite HJ, (sweep_jobs_exact now _ st st1 id E1), (reaped_distinct now _ id Hkeys).
  unfold job_expired. destruct (JobApi.jobs_get id (JobApi.jobs st)) as [job |]; reflexivity.
Qed.

Lemma job_next_day_reachable : JobApi.reachable ascii_lower job_next_day.
Proof.
  unfold job_next_day. apply reachable_run_events; [| vm_compute; auto].
  exact job_done_reachable.
Qed.

Lemma job_next_day_regular : all_regular (JobApi.disk job_next_day).
Proof. solve_regular. Qed.

Lemma X1_sweep_reaps_exactly_old_jobs_witness :
  let st' := snd (JobApi.step ascii_lower job_next_day (JobApi.SweepTimer 86500000)) in
  JobApi.jobs_get "j1" (JobApi.jobs st') = None
  /\ JobApi.jobs_get "j2" (JobApi.jobs st') = Some (JobApi.processing_job 80000000).
Proof.
  pose proof (X1_sweep_reaps_exactly_old_jobs ascii_lower job_next_day 86500000
                (reachable_distinct _ _ job_next_day_reachable)) as H.
  assert (Hend : fst (JobApi.step ascii_lower job_next_day (JobApi.SweepTimer 86500000))
                 = JobApi.Quiet) by (vm_compute; reflexivity).
  specialize (H Hend). cbv zeta in H. destruct H as [H _].
  split.
  - rewrite (H "j1"). vm_compute. reflexivity.
  - rewrite (H "j2"). vm_compute. reflexivity.
Defined.

(** X2.  On a disk where nothing refuses to be deleted (distinct names, only
    regular files) the sweep runs to its end and leaves exactly this: both
    directories without the entries modified more than 24 hours ago, the
    output directory also without the output files of the records it removed,
    and every other entry as it was.  So afterwards no entry is older than the
    window, and every upload that is not older is still there. *)
Theorem X2_sweep_leaves_swept_disk
    (toLowerCase : string -> string) (st : JobApi.State) (now : Z)
    (Hreg : all_regular (JobApi.disk st)) :
  let out := JobApi.step toLowerCase st (JobApi.SweepTimer now) in
  fst out = JobApi.Quiet
  /\ JobApi.disk (snd out) = swept now (JobApi.jobs st) (JobApi.disk st)
  /\ (forall d l entry,
        Fs.listing (JobApi.disk (snd out)) d = Some l -> In entry l ->
        (now - Fs.mtimeMs (snd entry) <= JobApi.maxAge)%Z)
  /\ (forall l entry,
        Fs.uploads (JobApi.disk st) = Some l -> In entry l ->
        (now - Fs.mtimeMs (snd entry) <= JobApi.maxAge)%Z ->
        exists l', Fs.uploads (JobApi.disk (snd out)) = Some l' /\ In entry l').
Proof.
  destruct (sweep_step_exact toLowerCase st now Hreg) as (Hq & Hd & _).
  cbv zeta in *. split; [exact Hq |]. split; [exact Hd |]. rewrite Hd. split.
  - intros d l entry Hl Hin. unfold swept in Hl.
    assert (Hexp : expired now (snd entry) = false).
    { destruct d; simpl in Hl.
      - destruct (Fs.uploads (JobApi.disk st)) as [l0 |]; [| discriminate].
        injection Hl as <-. apply filter_In in Hin. destruct Hin as [_ Hin].
        apply negb_true_iff in Hin. exact Hin.
      - destruct (Fs.output (JobApi.disk st)) as [l0 |]; [| discriminate].
        injection Hl as <-. apply filter_In in Hin. destruct Hin as [_ Hin].
        apply andb_true_iff in Hin. destruct Hin as [_ Hin].
        apply negb_true_iff in Hin. exact Hin. }
    unfold expired in Hexp. apply Z.ltb_ge in Hexp. exact Hexp.
  - intros l entry Hl Hin Hyoung. unfold swept. simpl. rewrite Hl. simpl.
    eexists. split; [reflexivity |]. apply filter_In. split; [exact Hin |].
    apply negb_true_iff. unfold expired. apply Z.ltb_ge. exact Hyoung.
Qed.

Lemma X2_sweep_leaves_swept_disk_witness :
  JobApi.disk (snd (JobApi.step ascii_lower job_next_day (JobApi.SweepTimer 86500000)))
  = {| Fs.uploads := Some [("c.mp4", fresh_file 80000000)]; Fs.output := Some [] |}.
Proof.
  destruct (X2_sweep_leaves_swept_disk ascii_lower job_next_day 86500000 job_next_day_regular)
    as (_ & H & _).
  cbv zeta in H. rewrite H. vm_compute. reflexivity.
Defined.

(** X3.  A job that is still processing when it passes the age of 24 hours
    is removed by the sweep like any other, while its command goes on; when
    the command ends later, the job is back in the table as completed. *)
Theorem X3_reaped_job_comes_back
    (toLowerCase : string -> string) (st : JobApi.State) (id : string)
    (job : JobApi.Job) (run : JobApi.Run) (now later : Z)
    (Hkeys : distinct_keys (JobApi.jobs st))
    (Hreg : all_regular (JobApi.disk st))
    (Hjob : JobApi.jobs_get id (JobApi.jobs st) = Some job)
    (Hold : JobApi.too_old (JobApi.job_age now job) = true)
    (Hrun : JobApi.runs st !! id = Some run)
    (Hpending : JobApi.settled run = false) :
  let swept_state := snd (JobApi.step toLowerCase st (JobApi.SweepTimer now)) in
  let ended := snd (JobApi.step toLowerCase swept_state (JobApi.FfmpegEnd id later)) in
  fst (JobApi.step toLowerCase swept_state (JobApi.GetJob id)) = JobApi.Replied JobApi.JobNotFound
  /\ JobApi.runs swept_state !! id = Some run
  /\ fst (JobApi.step toLowerCase ended (JobApi.GetJob id))
     = JobApi.Replied (JobApi.JobSnapshot (JobApi.completed_job id later)).
Proof.
  destruct (sweep_step_exact toLowerCase st now Hreg) as (_ & _ & HR & _ & HJ).
  cbv zeta in *.
  set (st1 := snd (JobApi.step toLowerCase st (JobApi.SweepTimer now))) in *.
  assert (Hgone : JobApi.jobs_get id (JobApi.jobs st1) = None).
  { rewrite HJ, (reaped_distinct now _ id Hkeys), Hjob. unfold job_expired. rewrite Hold.
    reflexivity. }
  assert (Hrun1 : JobApi.runs st1 !! id = Some run) by (rewrite HR; exact Hrun).
  split; [| split; [exact Hrun1 |]].
  - simpl. unfold JobApi.route, JobApi.api_jobs, bind, get. rewrite Hgone. reflexivity.
  - destruct (job_end_pending toLowerCase st1 id run later Hrun1 Hpending) as [Hjobs _].
    simpl. unfold JobApi.route, JobApi.api_jobs, bind, get. simpl in Hjobs.
    rewrite Hjobs, jobs_get_set_eq. reflexivity.
Qed.

Lemma X3_reaped_job_comes_back_witness :
  let swept_state := snd (JobApi.step ascii_lower job_running (JobApi.SweepTimer 86500000)) in
  let ended := snd (JobApi.step ascii_lower swept_state (JobApi.FfmpegEnd "j1" 86600000)) in
  fst (JobApi.step ascii_lower swept_state (JobApi.GetJob "j1"))
    = JobApi.Replied JobApi.JobNotFound
  /\ fst (JobApi.step ascii_lower ended (JobApi.GetJob "j1"))
     = JobApi.Replied (JobApi.JobSnapshot (JobApi.completed_job "j1" 86600000)).
Proof.
  assert (Hreach : JobApi.reachable ascii_lower job_running).
  { unfold job_running. apply reachable_run_events; [| vm_compute; auto].
    unfold job_uploaded. apply reachable_run_events; [| vm_compute; auto].
    apply JobApi.reachable_initial. }
  assert (Hreg : all_regular (JobApi.disk job_running)) by solve_regular.
  assert (Hjob : JobApi.jobs_get "j1" (JobApi.jobs job_running)
                 = Some (JobApi.set_progress (JobApi.processing_job 2000) (Js.of_Z 40)))
    by (vm_compute; reflexivity).
  assert (Hrun : JobApi.runs job_running !! "j1" = Some run_j1) by (vm_compute; reflexivity).
  destruct (X3_reaped_job_comes_back ascii_lower job_running "j1" _ run_j1 86500000 86600000
              (reachable_distinct _ _ Hreach) Hreg Hjob eq_refl Hrun eq_refl)
    as (H1 & _ & H3).
  split; [exact H1 | exact H3].
Defined.

(** X4.  A record that is in the job table stays there, and its status
    query keeps being answered, until a sweep finds it older than 24 hours:
    no request, no engine event and no cleanup timer removes a record. *)
Theorem X4_record_stays_until_swept
    (toLowerCase : string -> string) (st : JobApi.State) (ev : JobApi.Event)
    (id : string) (job : JobApi.Job)
    (Hkeys : distinct_keys (JobApi.jobs st))
    (Hjob : JobApi.jobs_get id (JobApi.jobs st) = Some job)
    (Hgone : JobApi.jobs_get id (JobApi.jobs (snd (JobApi.step toLowerCase st ev))) = None) :
  exists now, ev = JobApi.SweepTimer now /\ JobApi.too_old (JobApi.job_age now job) = true.
Proof.
  assert (Hor : (exists now, ev = JobApi.SweepTimer now) \/ forall now, ev <> JobApi.SweepTimer now).
  { destruct ev; try (right; discriminate). left. eauto. }
  destruct Hor as [[now ->] | Hns].
  - exists now. split; [reflexivity |].
    simpl in Hgone. unfold JobApi.callback in Hgone.
    destruct (sweep_tables now st) as (HJ & _). cbv zeta in HJ.
    destruct (sweep_jobs_lookup now (JobApi.jobs st) st id) as (_ & _ & Hl). cbv zeta in Hl.
    assert (Hgone1 : JobApi.jobs_get id
                       (JobApi.jobs (snd (forEach (JobApi.sweep_job now) (JobApi.jobs st) st)))
                     = None).
    { rewrite <- HJ. destruct (JobApi.sweep now st) as [[[] | e] st1]; exact Hgone. }
    destruct Hl as [Hl | [_ Hr]]; [congruence |].
    rewrite (reaped_distinct now _ id Hkeys), Hjob in Hr. exact Hr.
  - exfalso.
    destruct (step_jobs_set toLowerCase st ev Hns) as [E | [(k & j & E) | (k & j & j' & E)]];
      cbv zeta in E; rewrite E in Hgone.
    + congruence.
    + apply jobs_get_set_none in Hgone. congruence.
    + apply jobs_get_set_none, jobs_get_set_none in Hgone. congruence.
Qed.

Lemma X4_record_stays_until_swept_witness :
  exists now,
    JobApi.SweepTimer 86500000 = JobApi.SweepTimer now
    /\ JobApi.too_old (JobApi.job_age now (JobApi.completed_job "j1" 9000)) = true.
Proof.
  apply (X4_record_stays_until_swept ascii_lower job_next_day (JobApi.SweepTimer 86500000) "j1"
           (JobApi.completed_job "j1" 9000)
           (reachable_distinct _ _ job_next_day_reachable)).
  - vm_compute. reflexivity.
  - vm_compute. reflexivity.
Defined.

(* ===================================================================== *)
(** ** Further properties: jobs and requests *)
(* ===================================================================== *)

(** X5.  Jobs do not interfere: a request and the start, progress, end and
    error events of one job leave the record and the command of every other
    job exactly as they were, whatever the state and whatever identifier the
    request drew. *)
Theorem X5_jobs_are_independent
    (toLowerCase : string -> string) (st : JobApi.State) (ev : JobApi.Event)
    (k id : string)
    (Hev : event_job ev = Some k)
    (Hother : id <> k) :
  let st' := snd (JobApi.step toLowerCase st ev) in
  JobApi.jobs_get id (JobApi.jobs st') = JobApi.jobs_get id (JobApi.jobs st)
  /\ JobApi.runs st' !! id = JobApi.runs st !! id.
Proof.
  cbv zeta.
  destruct ev as [body uuid now later | | | jobId line | jobId percent | jobId now
                  | jobId reason now | | |]; try discriminate; injection Hev as ->.
  - destruct (job_process_cases toLowerCase st body k now later) as [-> | Hwf];
      [split; reflexivity |].
    destruct (job_process_step toLowerCase st body k now later Hwf)
      as (s1 & s2 & _ & _ & Hstep).
    cbv zeta in Hstep. rewrite Hstep.
    destruct (JobApi.filterComplex toLowerCase (JobApi.layout body) (JobApi.settings body));
      simpl.
    + rewrite jobs_get_set_ne by exact Hother. rewrite lookup_insert_ne by congruence.
      split; reflexivity.
    + rewrite !jobs_get_set_ne by exact Hother. split; reflexivity.
  - destruct (still_steps toLowerCase st (JobApi.FfmpegStart k line) I) as [-> ->].
    split; reflexivity.
  - destruct (JobApi.runs st !! k) as [run |] eqn:Hrun.
    + destruct (JobApi.jobs_get k (JobApi.jobs st)) as [job |] eqn:Hjob.
      * destruct (job_progress_step toLowerCase st k job run percent Hjob Hrun) as [-> ->].
        rewrite jobs_get_set_ne by exact Hother. split; reflexivity.
      * simpl. unfold JobApi.callback, JobApi.on_progress, JobApi.on_command, bind, get.
        rewrite Hrun. simpl. rewrite Hjob. split; reflexivity.
    + simpl. unfold JobApi.callback, JobApi.on_progress, JobApi.on_command, bind, get.
      rewrite Hrun. split; reflexivity.
  - destruct (JobApi.runs st !! k) as [run |] eqn:Hrun.
    + destruct (JobApi.settled run) eqn:Hs.
      * simpl. unfold JobApi.callback, JobApi.on_end, JobApi.on_command, bind, get.
        rewrite Hrun. simpl. unfold JobApi.settle_once. rewrite Hs. split; reflexivity.
      * destruct (job_end_pending toLowerCase st k run now Hrun Hs) as [-> ->].
        rewrite jobs_get_set_ne by exact Hother. rewrite lookup_insert_ne by congruence.
        split; reflexivity.
    + simpl. unfold JobApi.callback, JobApi.on_end, JobApi.on_command, bind, get.
      rewrite Hrun. split; reflexivity.
  - destruct (JobApi.runs st !! k) as [run |] eqn:Hrun.
    + destruct (JobApi.settled run) eqn:Hs.
      * simpl. unfold JobApi.callback, JobApi.on_error, JobApi.on_command, bind, get.
        rewrite Hrun. simpl. unfold JobApi.settle_once. rewrite Hs. split; reflexivity.
      * destruct (job_error_pending toLowerCase st k run reason now Hrun Hs) as [-> ->].
        rewrite jobs_get_set_ne by exact Hother. rewrite lookup_insert_ne by congruence.
        split; reflexivity.
    + simpl. unfold JobApi.callback, JobApi.on_error, JobApi.on_command, bind, get.
      rewrite Hrun. split; reflexivity.
Qed.

Lemma X5_jobs_are_independent_witness :
  let st' := snd (JobApi.step ascii_lower job_next_day
                    (JobApi.FfmpegError "j2" "engine exit code 1" 80000500)) in
  JobApi.jobs_get "j1" (JobApi.jobs st') = JobApi.jobs_get "j1" (JobApi.jobs job_next_day)
  /\ JobApi.runs st' !! "j1" = JobApi.runs job_next_day !! "j1".
Proof.
  assert (Hne : "j1" <> "j2") by discriminate.
  exact (X5_jobs_are_independent ascii_lower job_next_day
           (JobApi.FfmpegError "j2" "engine exit code 1" 80000500) "j2" "j1" eq_refl Hne).
Defined.

(** X8.  [POST /api/process] has three outcomes and no other.  A body whose
    two identifiers are non-empty strings is accepted with status 200: the
    output directory exists afterwards, the rest of the disk is untouched and
    the job is in the table.  A body with an identifier that is missing, null,
    false, zero or empty is answered 400.  A body with an identifier that is
    anything else but a string makes [path.join] throw and is answered 500 by
    Express.  In the last two cases nothing at all changes. *)
Theorem X8_process_request_outcomes
    (toLowerCase : string -> string) (st : JobApi.State) (body : JobApi.ProcessBody)
    (uuid : string) (now later : Z) :
  let out := JobApi.step toLowerCase st (JobApi.PostProcess body uuid now later) in
  (job_request_well_formed body
   /\ fst out = JobApi.Replied (JobApi.ProcessingStarted uuid)
   /\ JobApi.jobs_get uuid (JobApi.jobs (snd out)) <> None
   /\ JobApi.disk (snd out) = Fs.mkdirSync (JobApi.disk st) Fs.Output
   /\ Fs.dirExistsSync (JobApi.disk (snd out)) Fs.Output = true)
  \/
  ((Js.truthy (JobApi.video1Id body) = false \/ Js.truthy (JobApi.video2Id body) = false)
   /\ out = (JobApi.Replied JobApi.MissingVideoIds, st))
  \/
  (Js.truthy (JobApi.video1Id body) = true /\ Js.truthy (JobApi.video2Id body) = true
   /\ ((forall s, JobApi.video1Id body <> Js.Str s) \/ (forall s, JobApi.video2Id body <> Js.Str s))
   /\ exists text,
        out = (JobApi.Replied (JobApi.InternalServerError (TypeError text)), st)
        /\ JobApi.status_code (JobApi.InternalServerError (TypeError text)) = 500).
Proof.
  cbv zeta.
  destruct (Js.truthy (JobApi.video1Id body)) eqn:T1;
    [| right; left; split; [auto | apply job_process_falsy_id; auto]].
  destruct (Js.truthy (JobApi.video2Id body)) eqn:T2;
    [| right; left; split; [auto | apply job_process_falsy_id; auto]].
  assert (H1 : (exists s, JobApi.video1Id body = Js.Str s)
               \/ ((forall s, JobApi.video1Id body <> Js.Str s)
                   /\ exists text, JobApi.path_join Fs.Uploads (JobApi.video1Id body)
                                   = Throw (TypeError text))).
  { destruct (JobApi.video1Id body); simpl; eauto; right; split; try discriminate; eauto. }
  assert (H2 : (exists s, JobApi.video2Id body = Js.Str s)
               \/ ((forall s, JobApi.video2Id body <> Js.Str s)
                   /\ exists text, JobApi.path_join Fs.Uploads (JobApi.video2Id body)
                                   = Throw (TypeError text))).
  { destruct (JobApi.video2Id body); simpl; eauto; right; split; try discriminate; eauto. }
  destruct H1 as [[s1 E1] | [N1 [text E1]]].
  - destruct H2 as [[s2 E2] | [N2 [text E2]]].
    + left.
      assert (Hwf : job_request_well_formed body).
      { split; eexists; (split; [eassumption |]); intros ->.
        - rewrite E1 in T1. discriminate.
        - rewrite E2 in T2. discriminate. }
      split; [exact Hwf |].
      destruct (job_process_step toLowerCase st body uuid now later Hwf)
        as (t1 & t2 & _ & _ & Hstep).
      cbv zeta in Hstep. rewrite Hstep.
      assert (Hdir : Fs.dirExistsSync (Fs.mkdirSync (JobApi.disk st) Fs.Output) Fs.Output = true).
      { unfold Fs.dirExistsSync, Fs.mkdirSync.
        destruct (Fs.listing (JobApi.disk st) Fs.Output) eqn:E; [rewrite E |]; reflexivity. }
      destruct (JobApi.filterComplex toLowerCase (JobApi.layout body) (JobApi.settings body));
        simpl; rewrite ?jobs_get_set_eq; repeat split; try discriminate; exact Hdir.
    + right. right. split; [reflexivity |]. split; [reflexivity |]. split; [right; exact N2 |].
      exists text. split; [| reflexivity].
      unfold JobApi.step, JobApi.route, JobApi.api_process, JobApi.api_process_handler.
      rewrite T1, T2, E1, E2. reflexivity.
  - right. right. split; [reflexivity |]. split; [reflexivity |]. split; [left; exact N1 |].
    exists text. split; [| reflexivity].
    unfold JobApi.step, JobApi.route, JobApi.api_process, JobApi.api_process_handler.
    rewrite T1, T2, E1. reflexivity.
Qed.

(* ===================================================================== *)
(** ** Further properties: the deferred input cleanup *)
(* ===================================================================== *)

Lemma find_without_same name l : Fs.find name (without name l) = None.
Proof.
  unfold without. induction l as [| [n s] l IH]; simpl; [reflexivity |].
  destruct (String.eqb_spec name n) as [-> | Hne]; simpl; [exact IH |].
  destruct (String.eqb_spec name n); [contradiction | exact IH].
Qed.

Lemma find_without_none name other l :
  Fs.find name l = None -> Fs.find name (without other l) = None.
Proof.
  unfold without. induction l as [| [n s] l IH]; simpl; [reflexivity |].
  destruct (String.eqb_spec name n) as [-> | Hne]; [discriminate |].
  intros H. destruct (negb (String.eqb other n)); simpl; [| apply IH, H].
  destruct (String.eqb_spec name n); [contradiction | apply IH, H].
Qed.

Lemma lookup_erase_same p fs : Fs.lookup (erase p fs) p = None.
Proof.
  unfold Fs.lookup, erase. destruct fs as [u o], p as [d name]. simpl.
  destruct (Fs.is_name name); [| reflexivity].
  destruct d; simpl.
  - destruct u; simpl; [apply find_without_same | reflexivity].
  - destruct o; simpl; [apply find_without_same | reflexivity].
Qed.

Lemma lookup_erase_none p q fs : Fs.lookup fs p = None -> Fs.lookup (erase q fs) p = None.
Proof.
  unfold Fs.lookup, erase. destruct fs as [u o], p as [d name], q as [d' name']. simpl.
  destruct (Fs.is_name name); [| reflexivity].
  destruct d, d'; simpl; try (intros H; exact H).
  - destruct u; simpl; [apply find_without_none | reflexivity].
  - destruct o; simpl; [apply find_without_none | reflexivity].
Qed.

(** X6.  When the one-hour timer of a finished command fires on a disk
    where nothing refuses to be deleted, both input files of that command are
    gone afterwards, whether they were still there or not; every other file,
    the job table, the commands and the console are as they were, and the
    timer is spent. *)
Theorem X6_input_cleanup_deletes_both_inputs
    (toLowerCase : string -> string) (st : JobApi.State) (index : nat)
    (video1Path video2Path : Fs.Path)
    (Htimer : nth_error (JobApi.timers st) index = Some (video1Path, video2Path))
    (Hreg : all_regular (JobApi.disk st)) :
  let out := JobApi.step toLowerCase st (JobApi.InputCleanupTimer index) in
  fst out = JobApi.Quiet
  /\ JobApi.disk (snd out) = erase video2Path (erase video1Path (JobApi.disk st))
  /\ Fs.existsSync (JobApi.disk (snd out)) video1Path = false
  /\ Fs.existsSync (JobApi.disk (snd out)) video2Path = false
  /\ JobApi.jobs (snd out) = JobApi.jobs st
  /\ JobApi.runs (snd out) = JobApi.runs st
  /\ JobApi.console (snd out) = JobApi.console st
  /\ JobApi.timers (snd out) = JobApi.drop_nth index (JobApi.timers st).
Proof.
  cbv zeta. rewrite (fire_cleanup_step toLowerCase st index _ Htimer).
  set (st0 := JobApi.with_timers (JobApi.drop_nth index) st).
  assert (Hreg0 : all_regular (JobApi.disk st0)) by exact Hreg.
  destruct (unlink_if_exists_erase st0 video1Path Hreg0) as (st1 & E1 & D1 & (J1 & R1 & T1) & C1).
  assert (Hreg1 : all_regular (JobApi.disk st1)) by (rewrite D1; apply erase_regular, Hreg0).
  destruct (unlink_if_exists_erase st1 video2Path Hreg1) as (st2 & E2 & D2 & (J2 & R2 & T2) & C2).
  assert (Hrun : JobApi.callback (JobApi.input_cleanup (video1Path, video2Path)) st0
                 = (JobApi.Quiet, st2)).
  { unfold JobApi.callback, JobApi.input_cleanup, try_catch, bind. simpl fst. simpl snd.
    change (JobApi.unlink_at_if_exists (Fs.Entry video1Path))
      with (JobApi.unlink_if_exists video1Path).
    change (JobApi.unlink_at_if_exists (Fs.Entry video2Path))
      with (JobApi.unlink_if_exists video2Path).
    rewrite E1, E2. reflexivity. }
  rewrite Hrun. simpl fst. simpl snd.
  assert (D : JobApi.disk st2 = erase video2Path (erase video1Path (JobApi.disk st)))
    by (rewrite D2, D1; reflexivity).
  split; [reflexivity |]. split; [exact D |]. unfold Fs.existsSync. rewrite D.
  split; [rewrite lookup_erase_none by apply lookup_erase_same; reflexivity |].
  split; [rewrite lookup_erase_same; reflexivity |].
  subst st0. simpl in *. repeat split; congruence.
Qed.

Lemma X6_input_cleanup_deletes_both_inputs_witness :
  JobApi.disk (snd (JobApi.step ascii_lower job_done (JobApi.InputCleanupTimer 0)))
  = {| Fs.uploads := Some []; Fs.output := Some [] |}.
Proof.
  assert (Hreg : all_regular (JobApi.disk job_done)) by solve_regular.
  destruct (X6_input_cleanup_deletes_both_inputs ascii_lower job_done 0 upload_a upload_b
              eq_refl Hreg) as (_ & H & _).
  rewrite H. vm_compute. reflexivity.
Defined.

(** The guarded deletion of a directory throws and changes nothing. *)
Lemma unlink_if_exists_directory st p stats :
  Fs.lookup (JobApi.disk st) p = Some stats -> Fs.kind stats = Fs.Directory ->
  JobApi.unlink_if_exists p st = (Throw (ErrnoException "EISDIR" "unlink" (Fs.show p)), st).
Proof.
  intros Hlook Hdir. pose proof (lookup_name _ _ _ Hlook) as Hname.
  unfold JobApi.unlink_if_exists, bind, get, Fs.existsSync. rewrite Hlook. simpl.
  unfold JobApi.unlink, Fs.unlinkSync. unfold Fs.lookup in Hlook.
  rewrite Hname in Hlook |- *.
  destruct (Fs.listing (JobApi.disk st) (Fs.dir p)) as [l |]; [| discriminate].
  rewrite Hlook. destruct stats as [mtime kind]. simpl in Hdir. subst kind. reflexivity.
Qed.

(** X7.  The callback of that timer never lets an exception out and never
    touches the job table or the commands, in any state.  When the first
    input cannot be deleted because it is a directory, the error is logged and
    the second input is not attempted: the disk is left exactly as it was. *)
Theorem X7_input_cleanup_stops_at_first_error
    (toLowerCase : string -> string) (st : JobApi.State) (index : nat)
    (video1Path video2Path : Fs.Path) (stats : Fs.Stats)
    (Htimer : nth_error (JobApi.timers st) index = Some (video1Path, video2Path))
    (Hfirst : Fs.lookup (JobApi.disk st) video1Path = Some stats)
    (Hdir : Fs.kind stats = Fs.Directory) :
  (forall st0 i,
     let out0 := JobApi.step toLowerCase st0 (JobApi.InputCleanupTimer i) in
     fst out0 = JobApi.Quiet
     /\ JobApi.jobs (snd out0) = JobApi.jobs st0
     /\ JobApi.runs (snd out0) = JobApi.runs st0)
  /\
  (let out := JobApi.step toLowerCase st (JobApi.InputCleanupTimer index) in
   JobApi.disk (snd out) = JobApi.disk st
   /\ JobApi.console (snd out)
      = (JobApi.console st
         ++ [JobApi.LogCleanupError
               (ErrnoException "EISDIR" "unlink" (Fs.show video1Path))])%list).
Proof.
  split.
  - intros st0 i. cbv zeta.
    destruct (still_steps toLowerCase st0 (JobApi.InputCleanupTimer i) I) as [HJ HR].
    split; [| split; assumption].
    simpl. unfold JobApi.callback, JobApi.fire_input_cleanup, bind, get.
    destruct (nth_error (JobApi.timers st0) i) as [paths |]; [| reflexivity].
    simpl. destruct (input_cleanup_never_throws
                       (JobApi.with_timers (JobApi.drop_nth i) st0) paths) as (st' & ->).
    reflexivity.
  - cbv zeta. rewrite (fire_cleanup_step toLowerCase st index _ Htimer).
    assert (Hrun : JobApi.callback (JobApi.input_cleanup (video1Path, video2Path))
                     (JobApi.with_timers (JobApi.drop_nth index) st)
                   = (JobApi.Quiet,
                      snd (JobApi.log (JobApi.LogCleanupError
                                         (ErrnoException "EISDIR" "unlink" (Fs.show video1Path)))
                             (JobApi.with_timers (JobApi.drop_nth index) st)))).
    { unfold JobApi.callback, JobApi.input_cleanup, try_catch, bind. simpl fst.
      change (JobApi.unlink_at_if_exists (Fs.Entry video1Path))
        with (JobApi.unlink_if_exists video1Path).
      rewrite (unlink_if_exists_directory (JobApi.with_timers (JobApi.drop_nth index) st)
                 video1Path stats Hfirst Hdir).
      reflexivity. }
    rewrite Hrun. split; reflexivity.
Qed.

Lemma X7_input_cleanup_stops_at_first_error_witness :
  let st := JobApi.run_events ascii_lower job_done
              [ JobApi.FileWritten upload_a old_directory ] in
  let out := JobApi.step ascii_lower st (JobApi.InputCleanupTimer 0) in
  fst out = JobApi.Quiet
  /\ JobApi.disk (snd out) = JobApi.disk st
  /\ Fs.existsSync (JobApi.disk (snd out)) upload_b = true.
Proof.
  intros st out.
  destruct (X7_input_cleanup_stops_at_first_error ascii_lower st 0 upload_a upload_b
              old_directory eq_refl eq_refl eq_refl) as [Hany [Hdisk _]].
  destruct (Hany st 0%nat) as (Hq & _).
  split; [exact Hq |]. split; [exact Hdisk |].
  subst out. cbv zeta in Hdisk. rewrite Hdisk. vm_compute. reflexivity.
Defined.

(* ===================================================================== *)
(** ** Further properties: [src/server.js] *)
(* ===================================================================== *)



(* ===================================================================== *)
(** ** Further properties: the graphs *)
(* ===================================================================== *)

(** The frame of the stacked graph of [src/server.js], for inputs of equal
    width. *)
Lemma sync_stacked_frame (w h0 h1 : Z) :
  Graph.pad_size SyncApi.stacked (w, h0) (w, h1) "top" = Some (w, h0 / 2)
  /\ Graph.pad_size SyncApi.stacked (w, h0) (w, h1) "bottom" = Some (w, h1 / 2)
  /\ Graph.pad_size SyncApi.stacked (w, h0) (w, h1) "v" = Some (w, h0 / 2 + h1 / 2).
Proof.
  unfold Graph.pad_size, SyncApi.stacked, Graph.apply_graph, Graph.apply_filter,
    Graph.input_pads.
  rewrite lookup_insert_ne by discriminate. rewrite lookup_insert_eq.
  rewrite lookup_insert_ne by discriminate. rewrite lookup_insert_eq.
  rewrite lookup_insert_ne by discriminate. rewrite lookup_insert_eq.
  rewrite lookup_insert_eq. simpl Graph.eval_dim. rewrite Z.eqb_refl.
  split; [| split].
  - rewrite !lookup_insert_ne by discriminate. apply lookup_insert_eq.
  - rewrite lookup_insert_ne by discriminate. apply lookup_insert_eq.
  - apply lookup_insert_eq.
Qed.

(** When the widths differ the engine has no stacked frame. *)
Lemma sync_stacked_refused (w0 w1 h0 h1 : Z) (label : string) :
  w0 <> w1 -> Graph.pad_size SyncApi.stacked (w0, h0) (w1, h1) label = None.
Proof.
  intros Hne.
  unfold Graph.pad_size, SyncApi.stacked, Graph.apply_graph, Graph.apply_filter,
    Graph.input_pads.
  rewrite lookup_insert_ne by discriminate. rewrite lookup_insert_eq.
  rewrite lookup_insert_ne by discriminate. rewrite lookup_insert_eq.
  rewrite lookup_insert_ne by discriminate. rewrite lookup_insert_eq.
  rewrite lookup_insert_eq. simpl Graph.eval_dim.
  destruct (Z.eqb_spec w0 w1); [contradiction | reflexivity].
Qed.

(** X10.  The stacked layout.  In the job-based service every request whose
    layout lower-cases to stacked gets a graph that scales each input to 1920
    by 540 and stacks the two vertically into a frame of 1920 by 1080,
    whatever the inputs are, with the audio mixed for the longer track.  In
    [src/server.js] the layout stacked gets a graph that halves the height of
    each input and keeps its width: two inputs of one width give a frame of
    that width and of the two half heights together, two inputs of different
    widths give no frame at all; the audio is mixed for the shorter track. *)
Theorem X10_stacked_frame
    (toLowerCase : string -> string) (s : string) (settings : Js.Value)
    (in0 in1 : Graph.Size) (w h0 h1 w0 w1 : Z)
    (Hs : toLowerCase s = "stacked")
    (Hwidths : w0 <> w1) :
  (exists g,
     JobApi.filterComplex toLowerCase (Js.Str s) settings = Normal g
     /\ Graph.pad_size g in0 in1 "v1" = Some (1920, 540)
     /\ Graph.pad_size g in0 in1 "v2" = Some (1920, 540)
     /\ Graph.pad_size g in0 in1 "outv" = Some (1920, 1080)
     /\ Graph.mix_duration g = Some Graph.Longest)
  /\
  (let g := SyncApi.complexFilter (Js.Str "stacked") in
   Graph.pad_size g (w, h0) (w, h1) "top" = Some (w, h0 / 2)
   /\ Graph.pad_size g (w, h0) (w, h1) "bottom" = Some (w, h1 / 2)
   /\ Graph.pad_size g (w, h0) (w, h1) "v" = Some (w, h0 / 2 + h1 / 2)
   /\ Graph.pad_size g (w0, h0) (w1, h1) "v" = None
   /\ Graph.mix_duration g = Some Graph.Shortest).
Proof.
  split.
  - exists JobApi.stacked. split.
    { unfold JobApi.filterComplex. simpl. rewrite Hs. reflexivity. }
    repeat split; vm_compute; reflexivity.
  - cbv zeta. change (SyncApi.complexFilter (Js.Str "stacked")) with SyncApi.stacked.
    destruct (sync_stacked_frame w h0 h1) as (H1 & H2 & H3).
    repeat split; try assumption. apply sync_stacked_refused, Hwidths.
Qed.

Lemma X10_stacked_frame_witness :
  Graph.pad_size (SyncApi.complexFilter (Js.Str "stacked")) (1280, 720) (1280, 480) "v"
    = Some (1280, 720 / 2 + 480 / 2)
  /\ Graph.pad_size (SyncApi.complexFilter (Js.Str "stacked")) (1280, 720) (640, 480) "v" = None.
Proof.
  assert (Hne : 1280 <> 640) by discriminate.
  destruct (X10_stacked_frame ascii_lower "STACKED" Js.Undefined (1280, 720) (640, 480)
              1280 720 480 1280 640 eq_refl Hne) as [_ (_ & _ & H3 & H4 & _)].
  split; [exact H3 | exact H4].
Defined.

(** X11.  Whatever the layout, the graph a service hands to the engine is
    wired to the command around it: every pad a chain reads is a stream of one
    of the two inputs or was written by an earlier chain, no pad is read or
    written twice, all four input streams are used, and the pads left over are
    exactly the two the command maps into the output file. *)
Theorem X11_graph_is_wired_to_the_maps
    (toLowerCase : string -> string) (layout settings : Js.Value) (g : Graph.GraphSpec)
    (layout' : Js.Value)
    (Hbuilt : JobApi.filterComplex toLowerCase layout settings = Normal g) :
  Wiring.connect g Wiring.input_streams = Some Wiring.job_mapped
  /\ Wiring.connect (SyncApi.complexFilter layout') Wiring.input_streams
     = Some Wiring.sync_mapped.
Proof.
  split.
  - unfold JobApi.filterComplex in Hbuilt.
    destruct (JobApi.layout_key toLowerCase layout) as [[k |] | e]; try discriminate;
      injection Hbuilt as <-.
    + destruct (String.eqb k "side by side"); [reflexivity |].
      destruct (String.eqb k "stacked"); reflexivity.
    + reflexivity.
  - unfold SyncApi.complexFilter.
    destruct (SyncApi.strict_eq_text layout' "sidebyside"); [reflexivity |].
    destruct (SyncApi.strict_eq_text layout' "stacked"); reflexivity.
Qed.

Lemma X11_graph_is_wired_to_the_maps_witness :
  Wiring.connect JobApi.side_by_side Wiring.input_streams = Some ["outv"; "outa"]
  /\ Wiring.connect (SyncApi.complexFilter (Js.Number (Js.of_Z 5))) Wiring.input_streams
     = Some ["v"; "a"].
Proof.
  exact (X11_graph_is_wired_to_the_maps ascii_lower (Js.Str "Side By Side") Js.Null
           JobApi.side_by_side (Js.Number (Js.of_Z 5)) eq_refl).
Defined.

(* ===================================================================== *)
(** ** Further properties: records, commands and results *)
(* ===================================================================== *)

(** X12.  In every state the job-based service can reach, the status of a
    record agrees with the promise of the command of its job.  A record that
    says processing has a command whose promise is pending.  A record that
    says completed has a command whose promise is settled; that command wrote
    the file output/<jobId>.mp4, the URL of the record is that path under a
    leading slash, and a download of the job that is served serves that very
    file.  A record that says failed has no command or one whose promise is
    settled. *)
Theorem X12_status_follows_the_promise
    (toLowerCase : string -> string) (st : JobApi.State) (id : string) (job : JobApi.Job)
    (Hreach : JobApi.reachable toLowerCase st)
    (Hjob : JobApi.jobs_get id (JobApi.jobs st) = Some job) :
  match JobApi.status job with
  | JobApi.processing =>
      exists run, JobApi.runs st !! id = Some run /\ JobApi.settled run = false
  | JobApi.completed =>
      exists run,
        JobApi.runs st !! id = Some run
        /\ JobApi.settled run = true
        /\ JobApi.outputPath run = output_of id
        /\ JobApi.outputUrl job = Some ("/" ++ Fs.show (JobApi.outputPath run))
        /\ forall p,
             fst (JobApi.step toLowerCase st (JobApi.GetDownload id))
               = JobApi.Replied (JobApi.Download p) ->
             p = JobApi.outputPath run
  | JobApi.failed =>
      forall run, JobApi.runs st !! id = Some run -> JobApi.settled run = true
  end.
Proof.
  pose proof (follows_promise_reachable toLowerCase st Hreach id job Hjob) as Hf.
  unfold follows_promise in Hf.
  destruct (JobApi.status job) eqn:Hstatus; try exact Hf.
  destruct Hf as [(run & Hrun & Hsettled) Hurl].
  pose proof (command_paths_reachable toLowerCase st Hreach id run Hrun) as Hout.
  exists run. repeat split; try assumption.
  - rewrite Hurl, Hout. reflexivity.
  - intros p. rewrite job_download_response, Hjob, Hstatus, Hout. simpl.
    destruct (Fs.existsSync _ _); intros [= <-]. reflexivity.
Qed.

Lemma X12_status_follows_the_promise_witness :
  exists run,
    JobApi.runs job_done !! "j1" = Some run
    /\ JobApi.settled run = true
    /\ JobApi.outputPath run = {| Fs.dir := Fs.Output; Fs.base := "j1.mp4" |}.
Proof.
  assert (Hjob : JobApi.jobs_get "j1" (JobApi.jobs job_done)
                 = Some (JobApi.completed_job "j1" 9000)) by (vm_compute; reflexivity).
  destruct (X12_status_follows_the_promise ascii_lower job_done "j1"
              (JobApi.completed_job "j1" 9000) job_done_reachable Hjob)
    as (run & H1 & H2 & H3 & _).
  exists run. repeat split; assumption.
Defined.

Lemma same_result_refl name st : same_result name st st.
Proof. reflexivity. Qed.

Lemma same_result_trans name s1 s2 s3 :
  same_result name s1 s2 -> same_result name s2 s3 -> same_result name s1 s3.
Proof. unfold same_result. intros H1 H2. rewrite H2. exact H1. Qed.

(** Creating the output directory creates no entry in it. *)
Lemma lookup_mkdir_output fs name :
  Fs.lookup (Fs.mkdirSync fs Fs.Output) (result name) = Fs.lookup fs (result name).
Proof.
  unfold Fs.mkdirSync, Fs.lookup. simpl. destruct (Fs.is_name name); [| reflexivity].
  destruct (Fs.output fs) eqn:E; simpl.
  - rewrite E. reflexivity.
  - reflexivity.
Qed.

(** A deletion leaves every other entry of the two directories as it is. *)
Lemma unlinkSync_other fs p fs' q :
  Fs.unlinkSync fs p = Normal fs' -> q <> p -> Fs.lookup fs' q = Fs.lookup fs q.
Proof.
  unfold Fs.unlinkSync, Fs.lookup. destruct (Fs.is_name (Fs.base p)); [| discriminate].
  destruct (Fs.listing fs (Fs.dir p)) as [l |] eqn:El; [| discriminate].
  destruct (Fs.find (Fs.base p) l) as [[m []] |]; try discriminate.
  intros [= <-] Hne. destruct (Fs.is_name (Fs.base q)); [| reflexivity].
  destruct p as [dp bp], q as [dq bq], fs as [u o]. simpl in *.
  assert (Hb : dp = dq -> bp <> bq) by (intros -> ->; apply Hne; reflexivity).
  destruct dp, dq; simpl in *; try reflexivity; subst;
    rewrite (find_remove_other bp bq l (Hb eq_refl)); reflexivity.
Qed.

(** The guarded deletion of a joined path that cannot be the result,
    however it goes, leaves the result alone. *)
Lemma unlink_at_if_exists_spares name pl :
  spares name pl -> keeps (same_result name) (JobApi.unlink_at_if_exists pl).
Proof.
  intros Hs st. unfold JobApi.unlink_at_if_exists, bind, get, when.
  destruct (Fs.exists_at (JobApi.disk st) (JobApi.elsewhere st) pl); simpl;
    [| apply same_result_refl].
  destruct pl as [p | segments trailing]; unfold JobApi.unlink_at.
  - unfold JobApi.unlink.
    destruct (Fs.unlinkSync (JobApi.disk st) p) as [fs' |] eqn:E; simpl;
      [| apply same_result_refl].
    unfold same_result. simpl. apply (unlinkSync_other _ _ _ _ E).
    intros Heq. apply Hs. symmetry. exact Heq.
  - destruct (Fs.unlink_elsewhere _ _ _); reflexivity.
Qed.

Lemma input_cleanup_spares name paths :
  spares name (fst paths) -> spares name (snd paths) ->
  keeps (same_result name) (JobApi.input_cleanup paths).
Proof.
  intros H1 H2. unfold JobApi.input_cleanup.
  apply (keeps_try_catch _ (same_result_trans name)).
  - apply (keeps_bind _ (same_result_trans name)); [| intro];
      apply unlink_at_if_exists_spares; assumption.
  - intros e s. reflexivity.
Qed.

(** X13.  What can take a result of the job-based service away.  In any
    state, a request, a status query, a download or an event of the engine,
    however it ends, leaves every entry of the output directory as it is:
    creating the output directory on a request creates no entry in it.  The
    deferred cleanup of the inputs of a command leaves a result as it is when
    neither of the two paths it holds is that result or climbs above the
    working directory.  It can hold a result: an identifier that climbs out of
    the upload directory and into the output directory is joined to the entry
    of that name there, and the request that carries it is accepted. *)
Theorem X13_results_outlive_all_but_sweep_and_their_cleanup
    (toLowerCase : string -> string) (st : JobApi.State) (ev : JobApi.Event) (name : string)
    (Hev : match ev with
           | JobApi.SweepTimer _ | JobApi.FileWritten _ _ => False
           | JobApi.InputCleanupTimer index =>
               forall paths,
                 nth_error (JobApi.timers st) index = Some paths ->
                 spares name (fst paths) /\ spares name (snd paths)
           | _ => True
           end) :
  Fs.lookup (JobApi.disk (snd (JobApi.step toLowerCase st ev))) (result name)
  = Fs.lookup (JobApi.disk st) (result name)
  /\ (forall file,
        Fs.is_name file = true ->
        JobApi.path_join Fs.Uploads (Js.Str ("../output/" ++ file))
        = Normal (Fs.Entry (result file))
        /\ ~ spares file (Fs.Entry (result file))).
Proof.
  split.
  2: { intros file Hfile. split.
       - simpl. rewrite (proj2 (join_above_name file Hfile)). reflexivity.
       - intros Hs. apply Hs. reflexivity. }
  destruct ev as [body uuid now later | jobId | jobId | jobId commandLine | jobId percent
                  | jobId now | jobId reason now | index | now | p stats];
    try contradiction.
  - destruct (job_process_cases toLowerCase st body uuid now later) as [-> | Hwf];
      [reflexivity |].
    destruct (job_process_step toLowerCase st body uuid now later Hwf)
      as (s1 & s2 & _ & _ & Hstep).
    cbv zeta in Hstep. rewrite Hstep. clear Hstep.
    destruct (JobApi.filterComplex toLowerCase (JobApi.layout body) (JobApi.settings body));
      simpl; apply lookup_mkdir_output.
  - simpl. unfold JobApi.route, JobApi.api_jobs, bind, get.
    destruct (JobApi.jobs_get jobId (JobApi.jobs st)); reflexivity.
  - rewrite job_download_response. reflexivity.
  - simpl. unfold JobApi.callback, JobApi.on_start, JobApi.on_command, bind, get.
    destruct (JobApi.runs st !! jobId); reflexivity.
  - simpl. unfold JobApi.callback, JobApi.on_progress, JobApi.on_command, bind, get.
    destruct (JobApi.runs st !! jobId); simpl; [| reflexivity].
    destruct (JobApi.jobs_get jobId (JobApi.jobs st)); reflexivity.
  - simpl. unfold JobApi.callback, JobApi.on_end, JobApi.on_command, bind, get.
    destruct (JobApi.runs st !! jobId) as [run |]; simpl; [| reflexivity].
    unfold JobApi.settle_once. destruct (JobApi.settled run); reflexivity.
  - simpl. unfold JobApi.callback, JobApi.on_error, JobApi.on_command, bind, get.
    destruct (JobApi.runs st !! jobId) as [run |]; simpl; [| reflexivity].
    unfold JobApi.settle_once. destruct (JobApi.settled run); reflexivity.
  - destruct (nth_error (JobApi.timers st) index) as [paths |] eqn:Hnth.
    + rewrite (fire_cleanup_step toLowerCase st index paths Hnth).
      destruct (Hev paths eq_refl) as [H1 H2].
      pose proof (input_cleanup_spares name paths H1 H2
                    (JobApi.with_timers (JobApi.drop_nth index) st)) as Hk.
      unfold JobApi.callback.
      destruct (JobApi.input_cleanup paths _) as [[[] | e] s1]; exact Hk.
    + simpl. unfold JobApi.callback, JobApi.fire_input_cleanup, bind, get.
      rewrite Hnth. reflexivity.
Qed.

Lemma X13_results_outlive_all_but_sweep_and_their_cleanup_witness :
  let kept := JobApi.step ascii_lower job_next_day (JobApi.InputCleanupTimer 0) in
  let lost := JobApi.step ascii_lower job_climbing (JobApi.InputCleanupTimer 0) in
  Fs.lookup (JobApi.disk (snd kept)) (result "j1.mp4") = Some (fresh_file 8999)
  /\ Fs.lookup (JobApi.disk (snd kept)) upload_a = None
  /\ nth_error (JobApi.timers job_climbing) 0
     = Some (Fs.Entry (result "keep.mp4"), Fs.Entry upload_b)
  /\ Fs.lookup (JobApi.disk job_climbing) (result "keep.mp4") = Some (fresh_file 1500)
  /\ Fs.lookup (JobApi.disk (snd lost)) (result "keep.mp4") = None.
Proof.
  intros kept lost. split; [| repeat split; vm_compute; reflexivity].
  assert (Hev : forall paths,
             nth_error (JobApi.timers job_next_day) 0 = Some paths ->
             spares "j1.mp4" (fst paths) /\ spares "j1.mp4" (snd paths)).
  { intros paths H. vm_compute in H. injection H as <-. split; intros [=]. }
  subst kept.
  rewrite (proj1 (X13_results_outlive_all_but_sweep_and_their_cleanup ascii_lower job_next_day
                    (JobApi.InputCleanupTimer 0) "j1.mp4" Hev)).
  vm_compute. reflexivity.
Defined.

(* ===================================================================== *)
(** ** Further properties: downloads and answers of [src/server.js] *)
(* ===================================================================== *)




Lemma sync_same_tables_refl s : sync_same_tables s s.
Proof. repeat split. Qed.

Lemma sync_same_tables_trans s1 s2 s3 :
  sync_same_tables s1 s2 -> sync_same_tables s2 s3 -> sync_same_tables s1 s3.
Proof. unfold sync_same_tables. intros (R1 & S1 & T1) (R2 & S2 & T2). repeat split; congruence. Qed.

Lemma sync_unlink_at_tables pl : keeps sync_same_tables (SyncApi.unlink_at pl).
Proof.
  intros s. destruct pl as [p | segments trailing]; unfold SyncApi.unlink_at.
  - unfold SyncApi.unlink. destruct (Fs.unlinkSync _ _); repeat split.
  - destruct (Fs.unlink_elsewhere _ _ _); repeat split.
Qed.

Lemma sync_log_tables line : keeps sync_same_tables (SyncApi.log line).
Proof. intros s. repeat split. Qed.

Lemma sync_cleanup_tables paths : keeps sync_same_tables (SyncApi.cleanup paths).
Proof.
  pose proof sync_same_tables_refl as Hrefl. pose proof sync_same_tables_trans as Htrans.
  assert (Hguarded : forall pl, keeps sync_same_tables (SyncApi.unlink_at_if_exists pl)).
  { intros pl. unfold SyncApi.unlink_at_if_exists.
    apply (keeps_bind _ Htrans); [apply (keeps_get _ Hrefl) |].
    intros s0. apply (keeps_when _ Hrefl), sync_unlink_at_tables. }
  unfold SyncApi.cleanup. apply (keeps_try_catch _ Htrans); [| intros e; apply sync_log_tables].
  assert (Hmany : forall ps,
             keeps sync_same_tables
               (let* _ := forEach SyncApi.unlink_at_if_exists ps in
                SyncApi.log SyncApi.LogCleaned)).
  { intros ps. apply (keeps_bind _ Htrans);
      [apply (keeps_forEach _ Hrefl Htrans), Hguarded | intros _; apply sync_log_tables]. }
  destruct paths as [| filePath [| second rest]]; [apply Hmany | | apply Hmany].
  apply (keeps_bind _ Htrans); [apply (keeps_get _ Hrefl) |].
  intros s0. apply (keeps_when _ Hrefl).
  apply (keeps_bind _ Htrans); [apply sync_unlink_at_tables | intros _; apply sync_log_tables].
Qed.

(** The deferred cleanup of [src/server.js] catches whatever its deletions
    throw. *)
Lemma sync_cleanup_never_throws paths st :
  exists st',
    SyncApi.cleanup paths st = (Normal tt, st')
    /\ SyncApi.runs st' = SyncApi.runs st
    /\ SyncApi.streams st' = SyncApi.streams st
    /\ SyncApi.timers st' = SyncApi.timers st.
Proof.
  pose proof (sync_cleanup_tables paths st) as Hsame.
  unfold SyncApi.cleanup, try_catch in *.
  match goal with
  | |- context [match ?body st with _ => _ end] => destruct (body st) as [[[] | e] s1]
  end; eexists; (split; [reflexivity | exact Hsame]).
Qed.

(** X15.  [src/server.js] deletes files only when a cleanup timer fires, and
    such a callback never stops the process.  Every request and every event
    of the engine or of a download stream leaves the disk as it is, also when
    the handler ends in an exception.  A cleanup timer, whatever is on the
    disk, ends quietly: an error of a deletion is caught and logged; it
    answers no request and changes no command and no stream. *)
Theorem X15_sync_deletes_only_in_timers
    (st : SyncApi.State) (ev : SyncApi.Event) (index : nat)
    (Hev : match ev with
           | SyncApi.CleanupTimer _ | SyncApi.FileWritten _ _ => False
           | _ => True
           end) :
  SyncApi.disk (snd (SyncApi.step st ev)) = SyncApi.disk st
  /\ (let out := SyncApi.step st (SyncApi.CleanupTimer index) in
      fst out = SyncApi.Quiet
      /\ SyncApi.runs (snd out) = SyncApi.runs st
      /\ SyncApi.streams (snd out) = SyncApi.streams st).
Proof.
  split.
  - destruct ev as [body uuid | outputId commandLine | outputId percent | outputId
                    | outputId reason | fileId | i | i | p stats]; try contradiction.
    + unfold SyncApi.step, SyncApi.run_callback, SyncApi.process, try_catch, bind.
      destruct (negb (Js.truthy (SyncApi.video1 body)) || negb (Js.truthy (SyncApi.video2 body)));
        [reflexivity |].
      unfold lift.
      destruct (SyncApi.path_join Fs.Uploads (SyncApi.video1 body)); [| reflexivity].
      destruct (SyncApi.path_join Fs.Uploads (SyncApi.video2 body)); [| reflexivity].
      unfold get. simpl.
      destruct (negb (Fs.exists_at _ _ _) || negb (Fs.exists_at _ _ _)); reflexivity.
    + unfold SyncApi.step, SyncApi.run_callback, SyncApi.on_command, bind, get.
      destruct (SyncApi.runs st !! outputId); reflexivity.
    + unfold SyncApi.step, SyncApi.run_callback, SyncApi.on_command, bind, get.
      destruct (SyncApi.runs st !! outputId); reflexivity.
    + unfold SyncApi.step, SyncApi.run_callback, SyncApi.on_end, SyncApi.on_command, bind, get.
      destruct (SyncApi.runs st !! outputId) as [run |]; [| reflexivity].
      simpl. unfold SyncApi.res_json. destruct (SyncApi.responded run); reflexivity.
    + unfold SyncApi.step, SyncApi.run_callback, SyncApi.on_error, SyncApi.on_command, bind, get.
      destruct (SyncApi.runs st !! outputId) as [run |]; [| reflexivity].
      simpl. unfold SyncApi.res_json. destruct (SyncApi.responded run); reflexivity.
    + unfold SyncApi.step, SyncApi.run_callback, SyncApi.download, try_catch, bind, get.
      destruct (Fs.kind_at _ _ _) as [[] |]; reflexivity.
    + unfold SyncApi.step, SyncApi.run_callback, SyncApi.on_stream_end, bind, get.
      destruct (nth_error (SyncApi.streams st) i) as [[filePath []] |]; reflexivity.
  - cbv zeta.
    unfold SyncApi.step, SyncApi.run_callback, SyncApi.fire_cleanup, bind, get.
    destruct (nth_error (SyncApi.timers st) index) as [paths |]; [| repeat split].
    unfold modify. cbn iota beta.
    destruct (sync_cleanup_never_throws paths
                (SyncApi.with_timers (SyncApi.drop_nth index) st)) as (st' & -> & R & S & _).
    simpl in *. repeat split; assumption.
Qed.

Lemma X15_sync_deletes_only_in_timers_witness :
  SyncApi.disk (snd (SyncApi.step sync_composing (SyncApi.FfmpegEnd "j1.mp4")))
  = SyncApi.disk sync_composing
  /\ fst (SyncApi.step sync_composing (SyncApi.CleanupTimer 0)) = SyncApi.Quiet.
Proof.
  destruct (X15_sync_deletes_only_in_timers sync_composing (SyncApi.FfmpegEnd "j1.mp4") 0%nat I)
    as (H1 & H2 & _).
  split; [exact H1 | exact H2].
Defined.

(** A command that has answered keeps that mark through every step but a
    request that draws its name again. *)
Lemma sync_step_keeps_responded st ev outputId run :
  SyncApi.runs st !! outputId = Some run ->
  SyncApi.responded run = true ->
  ~ sync_draws outputId ev ->
  SyncApi.runs (snd (SyncApi.step st ev)) !! outputId = Some run.
Proof.
  intros Hrun Hresp Hdraw.
  destruct ev as [body uuid | k commandLine | k percent | k | k reason | fileId | i | i | p stats].
  - unfold SyncApi.step, SyncApi.run_callback, SyncApi.process, try_catch, bind.
    destruct (negb (Js.truthy (SyncApi.video1 body)) || negb (Js.truthy (SyncApi.video2 body)));
      [exact Hrun |].
    unfold lift.
    destruct (SyncApi.path_join Fs.Uploads (SyncApi.video1 body)); [| exact Hrun].
    destruct (SyncApi.path_join Fs.Uploads (SyncApi.video2 body)); [| exact Hrun].
    unfold get. simpl.
    destruct (negb (Fs.exists_at _ _ _) || negb (Fs.exists_at _ _ _)); [exact Hrun |].
    simpl. rewrite lookup_insert_ne; [exact Hrun |]. exact Hdraw.
  - unfold SyncApi.step, SyncApi.run_callback, SyncApi.on_command, bind, get.
    destruct (SyncApi.runs st !! k); exact Hrun.
  - unfold SyncApi.step, SyncApi.run_callback, SyncApi.on_command, bind, get.
    destruct (SyncApi.runs st !! k); exact Hrun.
  - unfold SyncApi.step, SyncApi.run_callback, SyncApi.on_end, SyncApi.on_command, bind, get.
    destruct (SyncApi.runs st !! k) as [r |] eqn:Hk; [| exact Hrun].
    simpl. unfold SyncApi.res_json. destruct (SyncApi.responded r) eqn:Hr; [exact Hrun |].
    simpl. rewrite lookup_insert_ne; [exact Hrun |]. intros ->. congruence.
  - unfold SyncApi.step, SyncApi.run_callback, SyncApi.on_error, SyncApi.on_command, bind, get.
    destruct (SyncApi.runs st !! k) as [r |] eqn:Hk; [| exact Hrun].
    simpl. unfold SyncApi.res_json. destruct (SyncApi.responded r) eqn:Hr; [exact Hrun |].
    simpl. rewrite lookup_insert_ne; [exact Hrun |]. intros ->. congruence.
  - unfold SyncApi.step, SyncApi.run_callback, SyncApi.download, try_catch, bind, get.
    destruct (Fs.kind_at _ _ _) as [[] |]; exact Hrun.
  - unfold SyncApi.step, SyncApi.run_callback, SyncApi.on_stream_end, bind, get.
    destruct (nth_error (SyncApi.streams st) i) as [[filePath []] |]; exact Hrun.
  - unfold SyncApi.step, SyncApi.run_callback, SyncApi.fire_cleanup, bind, get.
    destruct (nth_error (SyncApi.timers st) i) as [paths |]; [| exact Hrun].
    unfold modify. cbn iota beta.
    destruct (sync_cleanup_never_throws paths
                (SyncApi.with_timers (SyncApi.drop_nth i) st)) as (st' & -> & R & _).
    simpl in *. rewrite R. exact Hrun.
  - exact Hrun.
Qed.

Lemma sync_run_events_keep_responded evs :
  forall st outputId run,
    SyncApi.runs st !! outputId = Some run ->
    SyncApi.responded run = true ->
    Forall (fun ev => ~ sync_draws outputId ev) evs ->
    SyncApi.runs (SyncApi.run_events st evs) !! outputId = Some run.
Proof.
  induction evs as [| ev evs IH]; intros st outputId run Hrun Hresp Hevs; [exact Hrun |].
  inversion Hevs as [| ? ? Hev Hrest]; subst.
  unfold SyncApi.run_events. simpl. apply IH; try assumption.
  apply sync_step_keeps_responded; assumption.
Qed.

(** The first [end] or [error] of a command that has not answered. *)
Lemma sync_first_finish st outputId run first :
  SyncApi.runs st !! outputId = Some run ->
  SyncApi.responded run = false ->
  sync_finishes outputId first ->
  fst (SyncApi.step st first) = sync_answer first
  /\ SyncApi.runs (snd (SyncApi.step st first))
     = <[outputId := SyncApi.respond run]> (SyncApi.runs st)
  /\ SyncApi.timers (snd (SyncApi.step st first))
     = match first with
       | SyncApi.FfmpegEnd _ =>
           (SyncApi.timers st ++ [[SyncApi.video1Path run; SyncApi.video2Path run]])%list
       | _ => SyncApi.timers st
       end.
Proof.
  intros Hrun Hpending Hfirst.
  destruct first as [| | | k | k reason | | | |]; try contradiction; simpl in Hfirst; subst k.
  - unfold SyncApi.step, SyncApi.run_callback, SyncApi.on_end, SyncApi.on_command, bind, get.
    rewrite Hrun. simpl. unfold SyncApi.res_json. rewrite Hpending. simpl. repeat split.
  - unfold SyncApi.step, SyncApi.run_callback, SyncApi.on_error, SyncApi.on_command, bind, get.
    rewrite Hrun. simpl. unfold SyncApi.res_json. rewrite Hpending. simpl. repeat split.
Qed.

(** A later [end] or [error] of a command that has answered. *)
Lemma sync_second_finish st outputId run again :
  SyncApi.runs st !! outputId = Some run ->
  SyncApi.responded run = true ->
  sync_finishes outputId again ->
  fst (SyncApi.step st again) = SyncApi.Uncaught HeadersSent
  /\ SyncApi.timers (snd (SyncApi.step st again)) = SyncApi.timers st
  /\ SyncApi.runs (snd (SyncApi.step st again)) = SyncApi.runs st.
Proof.
  intros Hrun Hresp Hagain.
  destruct again as [| | | k | k reason | | | |]; try contradiction; simpl in Hagain; subst k.
  - unfold SyncApi.step, SyncApi.run_callback, SyncApi.on_end, SyncApi.on_command, bind, get.
    rewrite Hrun. simpl. unfold SyncApi.res_json. rewrite Hresp. simpl. repeat split.
  - unfold SyncApi.step, SyncApi.run_callback, SyncApi.on_error, SyncApi.on_command, bind, get.
    rewrite Hrun. simpl. unfold SyncApi.res_json. rewrite Hresp. simpl. repeat split.
Qed.

(** X16.  A request to [POST /process] of [src/server.js] is answered at
    most once.  The first [end] or [error] of its command writes the answer:
    200 with the name of the output for [end], which also schedules the
    cleanup of the two inputs, 500 with the message of the engine for
    [error], which schedules nothing.  From then on, whatever else happens
    short of a request that draws the same name, every further [end] or
    [error] of that command fails on the response that was already written:
    the handler ends in an exception that nothing catches, no answer is sent
    and no second cleanup is scheduled. *)
Theorem X16_sync_answers_at_most_once
    (st : SyncApi.State) (outputId : string) (run : SyncApi.Run)
    (first again : SyncApi.Event) (evs : list SyncApi.Event)
    (Hrun : SyncApi.runs st !! outputId = Some run)
    (Hpending : SyncApi.responded run = false)
    (Hfirst : sync_finishes outputId first)
    (Hagain : sync_finishes outputId again)
    (Hevs : Forall (fun ev => ~ sync_draws outputId ev) evs) :
  let s1 := SyncApi.step st first in
  let s2 := SyncApi.run_events (snd s1) evs in
  fst s1 = sync_answer first
  /\ SyncApi.timers (snd s1)
     = match first with
       | SyncApi.FfmpegEnd _ =>
           (SyncApi.timers st ++ [[SyncApi.video1Path run; SyncApi.video2Path run]])%list
       | _ => SyncApi.timers st
       end
  /\ SyncApi.runs s2 !! outputId = Some (SyncApi.respond run)
  /\ fst (SyncApi.step s2 again) = SyncApi.Uncaught HeadersSent
  /\ SyncApi.timers (snd (SyncApi.step s2 again)) = SyncApi.timers s2
  /\ SyncApi.runs (snd (SyncApi.step s2 again)) = SyncApi.runs s2.
Proof.
  cbv zeta.
  destruct (sync_first_finish st outputId run first Hrun Hpending Hfirst) as (Ha & Hr & Ht).
  assert (Hkept : SyncApi.runs (SyncApi.run_events (snd (SyncApi.step st first)) evs)
                    !! outputId = Some (SyncApi.respond run)).
  { apply sync_run_events_keep_responded; [| reflexivity | exact Hevs].
    rewrite Hr. apply lookup_insert_eq. }
  destruct (sync_second_finish _ outputId (SyncApi.respond run) again Hkept eq_refl Hagain)
    as (Hb & Ht2 & Hr2).
  repeat split; assumption.
Qed.

Lemma X16_sync_answers_at_most_once_witness :
  let s1 := SyncApi.step sync_composing (SyncApi.FfmpegEnd "j1.mp4") in
  let s2 := SyncApi.run_events (snd s1) [SyncApi.GetDownload "j1.mp4"] in
  fst s1 = SyncApi.Replied (SyncApi.Processed "j1.mp4")
  /\ fst (SyncApi.step s2 (SyncApi.FfmpegError "j1.mp4" "Conversion failed!"))
     = SyncApi.Uncaught HeadersSent.
Proof.
  assert (Hrun : SyncApi.runs sync_composing !! "j1.mp4"
                 = Some {| SyncApi.video1Path := upload_a; SyncApi.video2Path := upload_b;
                           SyncApi.filter := SyncApi.side_by_side;
                           SyncApi.outputPath := result "j1.mp4";
                           SyncApi.responded := false |}) by (vm_compute; reflexivity).
  assert (Hevs : Forall (fun ev => ~ sync_draws "j1.mp4" ev) [SyncApi.GetDownload "j1.mp4"]).
  { constructor; [intros [] | constructor]. }
  destruct (X16_sync_answers_at_most_once sync_composing "j1.mp4" _
              (SyncApi.FfmpegEnd "j1.mp4") (SyncApi.FfmpegError "j1.mp4" "Conversion failed!")
              [SyncApi.GetDownload "j1.mp4"] Hrun eq_refl eq_refl eq_refl Hevs)
    as (H1 & _ & _ & H4 & _).
  split; [exact H1 | exact H4].
Defined.
